(** * refine_bib: a shallow embedding of the BibTeX reference optimizer

    The development follows [src/refine_bib.py].  Python strings are
    modelled as lists of 8-bit characters read as the code points
    U+0000..U+00FF; the character classes ([str.isspace], the regular
    expression classes [\s] and [\w], [str.lower]) are the ones Python 3
    uses on that range.  Python dictionaries with string keys are finite
    maps ([gmap]); the HTTP session is an explicit world that is threaded
    through every request and every [time.sleep].  Console output is not
    modelled.

    The file has three parts: the embedding of the source, the definitions
    that the statements use, and the lemmas and theorems. *)

(** * The program *)

From Stdlib Require Import ZArith Ascii String List Bool Lia.
From stdpp Require Import gmap strings list.

Import ListNotations.
Local Open Scope Z_scope.
Local Open Scope nat_scope.
Local Open Scope char_scope.

Set Default Proof Using "Type".

(** ** Characters and strings *)

Module Py.

Abbreviation str := (list ascii).

(** String literals of the source are written [(s "...")]. *)
Definition s (x : string) : str := list_ascii_of_string x.

Definition code (c : ascii) : N := N_of_ascii c.

Definition between (lo hi : N) (c : ascii) : bool :=
  (N.leb lo (code c) && N.leb (code c) hi)%bool.

(** [str.isspace] on one character, which is also the class [\s] of the
    [re] module for [str] patterns. *)
Definition is_space (c : ascii) : bool :=
  (between 9 13 c || between 28 32 c || N.eqb (code c) 133
   || N.eqb (code c) 160)%bool.

(** The class [\w] of the [re] module for [str] patterns: alphanumeric
    characters and the underscore. *)
Definition is_word (c : ascii) : bool :=
  (between 48 57 c || between 65 90 c || between 97 122 c
   || N.eqb (code c) 95
   || N.eqb (code c) 170 || between 178 179 c || N.eqb (code c) 181
   || between 185 186 c || between 188 190 c
   || between 192 214 c || between 216 246 c || between 248 255 c)%bool.

Definition is_upper (c : ascii) : bool :=
  (between 65 90 c || between 192 214 c || between 216 222 c)%bool.

(** [str.lower] on one character. *)
Definition lower_char (c : ascii) : ascii :=
  if is_upper c then ascii_of_N (code c + 32) else c.

Definition lower (x : str) : str := map lower_char x.

Definition eqc (a b : ascii) : bool := Ascii.eqb a b.

(** [str.lstrip], [str.rstrip] and [str.strip] without argument. *)
Fixpoint lstrip (x : str) : str :=
  match x with
  | c :: x' => if is_space c then lstrip x' else x
  | [] => []
  end.

Definition rstrip (x : str) : str := rev (lstrip (rev x)).

Definition strip (x : str) : str := rstrip (lstrip x).

(** [sub in x] for strings. *)
Fixpoint starts_with (pre x : str) : bool :=
  match pre, x with
  | [], _ => true
  | p :: pre', c :: x' => (eqc p c && starts_with pre' x')%bool
  | _ :: _, [] => false
  end.

Fixpoint contains (sub x : str) : bool :=
  (starts_with sub x ||
   match x with
   | [] => false
   | _ :: x' => contains sub x'
   end)%bool.

(** [c in x] for one character. *)
Definition has_char (c : ascii) (x : str) : bool := existsb (eqc c) x.

(** [x.find(c)] for one character: the first index, or [-1]. *)
Fixpoint find (c : ascii) (x : str) : Z :=
  match x with
  | [] => (-1)%Z
  | d :: x' =>
      if eqc c d then 0%Z
      else let r := find c x' in if (r =? -1)%Z then (-1)%Z else (r + 1)%Z
  end.

(** [sep.join(parts)]. *)
Fixpoint join (sep : str) (parts : list str) : str :=
  match parts with
  | [] => []
  | [p] => p
  | p :: rest => p ++ sep ++ join sep rest
  end.

Global Arguments eqc : simpl never.
Global Arguments is_space : simpl never.
Global Arguments is_word : simpl never.
Global Arguments is_upper : simpl never.
Global Arguments lower_char : simpl never.

End Py.

Import Py.

(** ** The regular expressions of the [re] module

    A backtracking matcher in continuation-passing style, with the
    priorities of Python's engine: alternatives left to right, greedy
    repetition longest first, lazy repetition shortest first, atomic
    lookahead.  Repetition is only needed over single-character classes,
    which is all the patterns of the source use. *)

Module Re.

Inductive re : Type :=
| Eps
| Chr (p : ascii -> bool)
| Cat (r1 r2 : re)
| Alt (r1 r2 : re)
| Star (greedy : bool) (p : ascii -> bool)
| Grp (n : nat) (r : re)
| Ahead (r : re)
| Bos
| Eos.

(** Captured groups, most recent first. *)
Definition caps := list (nat * str).

Fixpoint group (n : nat) (c : caps) : str :=
  match c with
  | [] => []
  | (m, x) :: c' => if Nat.eqb n m then x else group n c'
  end.

Definition cont (A : Type) := nat -> str -> caps -> option A.

Fixpoint star_greedy {A} (p : ascii -> bool) (i : nat) (x : str) (c : caps)
    (k : cont A) : option A :=
  match x with
  | a :: x' =>
      if p a then
        match star_greedy p (S i) x' c k with
        | Some r => Some r
        | None => k i x c
        end
      else k i x c
  | [] => k i x c
  end.

Fixpoint star_lazy {A} (p : ascii -> bool) (i : nat) (x : str) (c : caps)
    (k : cont A) : option A :=
  match k i x c with
  | Some r => Some r
  | None =>
      match x with
      | a :: x' => if p a then star_lazy p (S i) x' c k else None
      | [] => None
      end
  end.

(** [rmatch r A i x c k]: match [r] against [x], which starts at offset [i]
    of the subject, then continue with [k]. *)
Fixpoint rmatch (r : re) (A : Type) (i : nat) (x : str) (c : caps)
    (k : cont A) {struct r} : option A :=
  match r with
  | Eps => k i x c
  | Chr p =>
      match x with
      | a :: x' => if p a then k (S i) x' c else None
      | [] => None
      end
  | Cat r1 r2 =>
      rmatch r1 A i x c (fun i' x' c' => rmatch r2 A i' x' c' k)
  | Alt r1 r2 =>
      match rmatch r1 A i x c k with
      | Some v => Some v
      | None => rmatch r2 A i x c k
      end
  | Star true p => star_greedy p i x c k
  | Star false p => star_lazy p i x c k
  | Grp n r1 =>
      rmatch r1 A i x c (fun i' x' c' => k i' x' ((n, take (i' - i) x) :: c'))
  | Ahead r1 =>
      match rmatch r1 caps i x c (fun _ _ c' => Some c') with
      | Some c' => k i x c'
      | None => None
      end
  | Bos => if Nat.eqb i 0 then k i x c else None
  | Eos =>
      match x with
      | [] => k i x c
      | [a] => if eqc a "010" then k i x c else None
      | _ => None
      end
  end.

(** One match attempt at offset [i]: the length of the match and its
    groups. *)
Definition match_at (r : re) (i : nat) (x : str) : option (nat * caps) :=
  rmatch r (nat * caps) i x [] (fun i' _ c => Some (i' - i, c)).

(** [re.finditer]: the non-overlapping matches from left to right.  [skip]
    counts the characters still covered by the previous match.  (After an
    empty match the scan moves one character on; no pattern of the source
    matches the empty string, see [source_patterns_consume].) *)
Fixpoint finditer_from (r : re) (i skip : nat) (x : str)
    : list (nat * caps) :=
  match skip with
  | S n =>
      match x with
      | [] => []
      | _ :: x' => finditer_from r (S i) n x'
      end
  | O =>
      match match_at r i x with
      | Some (len, c) =>
          (len, c) ::
          match x with
          | [] => []
          | _ :: x' => finditer_from r (S i) (len - 1) x'
          end
      | None =>
          match x with
          | [] => []
          | _ :: x' => finditer_from r (S i) 0 x'
          end
      end
  end.

Definition finditer (r : re) (x : str) : list (nat * caps) :=
  finditer_from r 0 0 x.

(** [re.sub(r, repl, x)], with the replacement given as a function of the
    groups. *)
Fixpoint sub_from (r : re) (repl : caps -> str) (i skip : nat) (x : str)
    : str :=
  match skip with
  | S n =>
      match x with
      | [] => []
      | _ :: x' => sub_from r repl (S i) n x'
      end
  | O =>
      match match_at r i x with
      | Some (len, c) =>
          repl c ++
          match x with
          | [] => []
          | a :: x' =>
              match len with
              | O => a :: sub_from r repl (S i) 0 x'
              | S n => sub_from r repl (S i) n x'
              end
          end
      | None =>
          match x with
          | [] => []
          | a :: x' => a :: sub_from r repl (S i) 0 x'
          end
      end
  end.

Definition sub (r : re) (repl : caps -> str) (x : str) : str :=
  sub_from r repl 0 0 x.

(** Pattern syntax. *)
Definition lit (a : ascii) : re := Chr (eqc a).
(** A literal under [re.IGNORECASE]. *)
Definition lit_i (a : ascii) : re :=
  Chr (fun b => eqc (lower_char a) (lower_char b)).
Definition plus (p : ascii -> bool) : re := Cat (Chr p) (Star true p).
Definition plus_lazy (p : ascii -> bool) : re := Cat (Chr p) (Star false p).
Definition cat (rs : list re) : re := fold_right Cat Eps rs.

(** [.] with and without [re.DOTALL]. *)
Definition any_char (a : ascii) : bool := true.
Definition dot_char (a : ascii) : bool := negb (eqc a "010").

End Re.

Import Re.

(** ** [class BibtexEntry] *)

Record BibtexEntry : Type := mkEntry {
  entry_type : str;
  cite_key : str;
  fields : gmap str str
}.

(** [BibtexEntry.__init__] *)
Definition BibtexEntry_init (entry_type cite_key : str)
    (fields : gmap str str) : BibtexEntry :=
  mkEntry (lower entry_type) cite_key fields.

(** [entry.cite_key = key] *)
Definition set_cite_key (e : BibtexEntry) (key : str) : BibtexEntry :=
  mkEntry (entry_type e) key (fields e).

(** [r'[{}]'] *)
Definition re_braces : re := Chr (fun a => (eqc a "{" || eqc a "}")%bool).

(** [r'\s+'] *)
Definition re_spaces : re := plus is_space.

Definition const_repl (x : str) : caps -> str := fun _ => x.

(** [BibtexEntry.get_title] *)
Definition get_title (e : BibtexEntry) : str :=
  let title := strip (default [] (fields e !! s "title")) in
  let title := Re.sub re_braces (const_repl []) title in
  let title := strip (Re.sub re_spaces (const_repl (s " ")) title) in
  title.

(** The loop body of [_balance_braces]; the state is [(result, brace_count)]. *)
Definition balance_step (st : str * Z) (char : ascii) : str * Z :=
  let '(result, brace_count) := st in
  if eqc char "{" then (result ++ [char], (brace_count + 1)%Z)
  else if eqc char "}" then
    if (0 <? brace_count)%Z then (result ++ [char], (brace_count - 1)%Z)
    else (result, brace_count)
  else (result ++ [char], brace_count).

(** [BibtexEntry._balance_braces] *)
Definition _balance_braces (text : str) : str :=
  let text := strip text in
  let '(result, brace_count) := fold_left balance_step text ([], 0%Z) in
  if (0 <? brace_count)%Z
  then result ++ repeat "}" (Z.to_nat brace_count)
  else result.

Definition essential_fields : list str :=
  [s "author"; s "title"; s "booktitle"; s "journal"; s "year"; s "pages";
   s "volume"; s "number"].

Definition str_eqb (a b : str) : bool := bool_decide (a = b).

Definition str_in (a : str) (l : list str) : bool := existsb (str_eqb a) l.

Definition wrap_braces (value : str) : str := s "{" ++ value ++ s "}".

(** The [booktitle] branch of [to_bibtex]. *)
Definition clean_booktitle (value : str) : str :=
  let comma_pos := find "," value in
  let value :=
    if negb (comma_pos =? -1)%Z
    then strip (take (Z.to_nat comma_pos) value)
    else value in
  let value := _balance_braces value in
  strip (Re.sub re_spaces (const_repl (s " ")) value).

(** The formatted value of field [key]. *)
Definition format_value (key value : str) : str :=
  let value :=
    if str_eqb (lower key) (s "booktitle") then clean_booktitle value
    else value in
  if str_in (lower key) [s "title"; s "booktitle"; s "journal"; s "author"]
  then wrap_braces value
  else if (has_char " " value
           || existsb (fun char => has_char char value) ["-"; ":"; "/"; "."])%bool
  then wrap_braces value
  else value.

(** One iteration of the loop over [essential_fields]. *)
Definition to_bibtex_step (e : BibtexEntry) (lines : list str) (key : str)
    : list str :=
  match fields e !! key with
  | Some value =>
      match value with
      | [] => lines
      | _ :: _ =>
          lines ++ [s "  " ++ key ++ s " = " ++ format_value key value ++ s ","]
      end
  | None => lines
  end.

Definition to_bibtex_lines (e : BibtexEntry) : list str :=
  let lines := [s "@" ++ entry_type e ++ s "{" ++ cite_key e ++ s ","] in
  let lines := fold_left (to_bibtex_step e) essential_fields lines in
  lines ++ [s "}"].

(** [BibtexEntry.to_bibtex] *)
Definition to_bibtex (e : BibtexEntry) : str :=
  join ["010"] (to_bibtex_lines e).

(** ** [class BibtexParser] *)

Definition not_comma_space (a : ascii) : bool :=
  negb (eqc a "," || is_space a)%bool.

(** [r'@(\w+)\s*\{\s*([^,\s]+)\s*,\s*(.*?)\n\s*\}'] with
    [re.DOTALL | re.IGNORECASE].  Under [re.IGNORECASE] a literal matches
    the characters of the same lower case; the three classes of the pattern
    contain a letter in both cases or in none and are unchanged. *)
Definition entry_pattern : re :=
  cat [lit_i "@"; Grp 1 (plus is_word); Star true is_space; lit_i "{";
       Star true is_space; Grp 2 (plus not_comma_space); Star true is_space;
       lit_i ","; Star true is_space; Grp 3 (Star false any_char);
       lit_i "010"; Star true is_space; lit_i "}"].

(** [r'(\w+)\s*=\s*(.+?)(?=,\s*\w+\s*=|$)'] with [re.DOTALL] *)
Definition field_pattern : re :=
  cat [Grp 1 (plus is_word); Star true is_space; lit "="; Star true is_space;
       Grp 2 (plus_lazy any_char);
       Ahead (Alt (cat [lit ","; Star true is_space; plus is_word;
                        Star true is_space; lit "="])
                  Eos)].

(** [r',\s*$'] *)
Definition re_trailing_comma : re := cat [lit ","; Star true is_space; Eos].

(** The class of the double quote (code 34) and the apostrophe (code 39). *)
Definition is_quote (a : ascii) : bool := (eqc a "034" || eqc a "039")%bool.

(** The pattern [^Q( .* )Q$], where [Q] is the class of the two quote
    characters. *)
Definition re_quoted : re :=
  cat [Bos; Chr is_quote; Grp 1 (Star true dot_char); Chr is_quote; Eos].

(** [r'^\{( .* )\}$'] *)
Definition re_braced : re :=
  cat [Bos; lit "{"; Grp 1 (Star true dot_char); lit "}"; Eos].

(** The body of the loop of [_parse_fields] after the key is taken:
    the cleaning of one captured value. *)
Definition clean_value (raw : str) : str :=
  let value := strip raw in
  let value := Re.sub re_trailing_comma (const_repl []) value in
  let value := Re.sub re_quoted (group 1) value in
  let value := Re.sub re_braced (group 1) value in
  value.

Definition parse_fields_step (fields : gmap str str) (m : nat * caps)
    : gmap str str :=
  let key := strip (group 1 (snd m)) in
  let value := clean_value (group 2 (snd m)) in
  <[key := value]> fields.

(** [BibtexParser._parse_fields] *)
Definition _parse_fields (fields_str : str) : gmap str str :=
  fold_left parse_fields_step (finditer field_pattern fields_str) ∅.

Definition parse_content_step (entries : list BibtexEntry) (m : nat * caps)
    : list BibtexEntry :=
  let entry_type := group 1 (snd m) in
  let cite_key := group 2 (snd m) in
  let fields_str := group 3 (snd m) in
  let fields := _parse_fields fields_str in
  entries ++ [BibtexEntry_init entry_type cite_key fields].

(** [BibtexParser.parse_content] *)
Definition parse_content (content : str) : list BibtexEntry :=
  fold_left parse_content_step (finditer entry_pattern content) [].

(** ** [class DBLPSearcher]

    The JSON documents of the search service, as far as the code reads
    them.  A venue is a string, an object with an optional [text] member,
    or some other JSON value. *)

Inductive Venue : Type :=
| VenueStr (text : str)
| VenueDict (text : option str)
| VenueOther.

Record Info : Type := mkInfo {
  info_venue : option Venue;
  info_url : option str
}.

Record Hit : Type := mkHit { hit_info : option Info }.

(** The value bound to [hit_list]: a list of hits, a single non-empty
    object, a falsy value ([None], an empty object), or any other truthy
    value. *)
Inductive HitList : Type :=
| HitsArray (l : list Hit)
| HitsObject (h : Hit)
| HitsFalsy
| HitsOther.

(** The member [result.hits] of a response: an object with an optional
    member [hit], or a value of another type. *)
Inductive HitsField : Type :=
| HitsDict (hit : option HitList)
| HitsDirect (v : HitList).

(** [hit.get('info', {})] *)
Definition get_info (hit : Hit) : Info :=
  default (mkInfo None None) (hit_info hit).

(** [DBLPSearcher._is_arxiv_hit] *)
Definition _is_arxiv_hit (hit : Hit) : bool :=
  let info := get_info hit in
  let venue := default (VenueStr []) (info_venue info) in
  match venue with
  | VenueStr venue =>
      (contains (s "arxiv") (lower venue) || contains (s "corr") (lower venue))%bool
  | VenueDict text =>
      let venue_text := default [] text in
      (contains (s "arxiv") (lower venue_text)
       || contains (s "corr") (lower venue_text))%bool
  | VenueOther => false
  end.

(** [DBLPSearcher._filter_arxiv_hits] *)
Definition _filter_arxiv_hits (hits : list Hit) : list Hit :=
  List.filter (fun hit => negb (_is_arxiv_hit hit)) hits.

(** [not hit_list] *)
Definition falsy (hit_list : HitList) : bool :=
  match hit_list with
  | HitsArray [] | HitsFalsy => true
  | _ => false
  end.

(** The member [hits] is read with default [{}], and [hit] with default
    [[]]. *)
Definition extract_hit_list (hits : option HitsField) : HitList :=
  match default (HitsDict None) hits with
  | HitsDict hit => default (HitsArray []) hit
  | HitsDirect v => v
  end.

(** Lines 213-233 of [search_by_title]: the choice among the hits. *)
Definition select_hit (hit_list : HitList) : option Hit :=
  match hit_list with
  | HitsArray l =>
      let filtered_hits := _filter_arxiv_hits l in
      match length filtered_hits with
      | 0 => None
      | 1 => head filtered_hits
      | _ => None
      end
  | HitsObject h => if _is_arxiv_hit h then None else Some h
  | _ => None
  end.

Section Client.

(** The HTTP session.  A request either raises the exception that the
    retry loops catch ([None]) or yields the decoded document. *)
Context {World : Type}.
Variable http_search : str -> World -> option (option HitsField) * World.
Variable http_bib : str -> World -> option str * World.
(** [time.sleep(self.delay)] *)
Variable sleep : World -> World.
Variable quote_plus : str -> str.
Variable max_retries : nat.

(** The body of the [try] block of [search_by_title]; [None] stands for a
    caught exception. *)
Definition search_attempt (title : str) (w : World)
    : option (option Hit) * World :=
  let query := ["034"] ++ title ++ ["034"] in
  match http_search query w with
  | (None, w) => (None, w)
  | (Some data, w) =>
      let hit_list := extract_hit_list data in
      let second :=
        if falsy hit_list then
          match http_search (quote_plus title) w with
          | (None, w) => (None, w)
          | (Some data, w) => (Some (extract_hit_list data), w)
          end
        else (Some hit_list, w) in
      match second with
      | (None, w) => (None, w)
      | (Some hit_list, w) =>
          if falsy hit_list then (Some None, w)
          else (Some (select_hit hit_list), sleep w)
      end
  end.

(** The loop [for attempt in range(self.max_retries)]. *)
Fixpoint search_loop (title : str) (attempts : list nat) (w : World)
    : option Hit * World :=
  match attempts with
  | [] => (None, w)
  | attempt :: rest =>
      match search_attempt title w with
      | (Some result, w) => (result, w)
      | (None, w) =>
          let attempt_num := attempt + 1 in
          if Nat.ltb attempt_num max_retries
          then search_loop title rest (sleep w)
          else (None, w)
      end
  end.

(** [DBLPSearcher.search_by_title] *)
Definition search_by_title (title : str) (w : World) : option Hit * World :=
  match strip title with
  | [] => (None, w)
  | _ :: _ => search_loop title (seq 0 max_retries) w
  end.

Fixpoint download_loop (bib_url original_cite_key : str)
    (attempts : list nat) (w : World) : option BibtexEntry * World :=
  match attempts with
  | [] => (None, w)
  | attempt :: rest =>
      match http_bib bib_url w with
      | (Some bib_content, w) =>
          match strip bib_content with
          | [] => (None, w)
          | _ :: _ =>
              let entries := parse_content bib_content in
              match entries with
              | [] => (None, w)
              | entry :: _ => (Some (set_cite_key entry original_cite_key), w)
              end
          end
      | (None, w) =>
          let attempt_num := attempt + 1 in
          if Nat.ltb attempt_num max_retries
          then download_loop bib_url original_cite_key rest w
          else (None, w)
      end
  end.

(** [DBLPSearcher.download_bibtex_from_dblp] *)
Definition download_bibtex_from_dblp (hit : Hit) (original_cite_key : str)
    (w : World) : option BibtexEntry * World :=
  let info := get_info hit in
  let dblp_url := default [] (info_url info) in
  match dblp_url with
  | [] => (None, w)
  | _ :: _ =>
      let bib_url := dblp_url ++ s ".bib?param=1" in
      download_loop bib_url original_cite_key (seq 0 max_retries) w
  end.

(** ** [main] *)

(** The state of the loop over the entries:
    [(updated_entries, failed_entries)] and the world. *)
Definition main_step (st : list BibtexEntry * list str * World)
    (entry : BibtexEntry) : list BibtexEntry * list str * World :=
  let '(updated_entries, failed_entries, w) := st in
  let title := get_title entry in
  match title with
  | [] => (updated_entries ++ [entry], failed_entries ++ [cite_key entry], w)
  | _ :: _ =>
      match search_by_title title w with
      | (None, w) =>
          (updated_entries ++ [entry], failed_entries ++ [cite_key entry], w)
      | (Some hit, w) =>
          match download_bibtex_from_dblp hit (cite_key entry) w with
          | (None, w) =>
              (updated_entries ++ [entry],
               failed_entries ++ [cite_key entry], w)
          | (Some updated_entry, w) =>
              (updated_entries ++ [updated_entry], failed_entries, w)
          end
      end
  end.

Definition main_loop (entries : list BibtexEntry) (w : World)
    : list BibtexEntry * list str * World :=
  fold_left main_step entries ([], [], w).

(** The text written to the output file. *)
Definition write_entries (updated_entries : list BibtexEntry) : str :=
  concat (map (fun entry => to_bibtex entry ++ ["010"; "010"])
              updated_entries).

(** [main] on the text of the input file: the records that are written and
    the text of the output file, or [None] when [main] returns before the
    loop because nothing was parsed. *)
Definition main (content : str) (w : World)
    : option (list BibtexEntry * str) :=
  let entries := parse_content content in
  match entries with
  | [] => None
  | _ :: _ =>
      let '(updated_entries, _, _) := main_loop entries w in
      Some (updated_entries, write_entries updated_entries)
  end.

End Client.

(** * Definitions for the statements *)

(** ** Reasoning about the matcher *)

(** Length of the longest prefix of [x] whose characters satisfy [p]. *)
Fixpoint span (p : ascii -> bool) (x : str) : nat :=
  match x with
  | a :: x' => if p a then S (span p x') else 0
  | [] => 0
  end.

(** [x] is empty or starts with a character outside [p]. *)
Definition stops (p : ascii -> bool) (x : str) : Prop :=
  match x with
  | a :: _ => p a = false
  | [] => True
  end.

(** The language of a pattern: [accepts r i x m] says that [m], a prefix
    of the remaining text [x] at offset [i], is matched by [r]. *)
Fixpoint accepts (r : re) (i : nat) (x m : str) : Prop :=
  match r with
  | Eps => m = []
  | Chr p => exists a, m = [a] /\ p a = true
  | Cat r1 r2 =>
      exists m1 m2, m = m1 ++ m2 /\ accepts r1 i x m1 /\
                    accepts r2 (i + length m1) (drop (length m1) x) m2
  | Alt r1 r2 => accepts r1 i x m \/ accepts r2 i x m
  | Star _ p => forallb p m = true
  | Grp _ r1 => accepts r1 i x m
  | Ahead r1 => m = [] /\ exists m1 x1, x = m1 ++ x1 /\ accepts r1 i x m1
  | Bos => m = [] /\ i = 0
  | Eos => m = [] /\ (x = [] \/ x = ["010"])
  end.


(** A pattern that takes at least one character whenever it matches. *)
Fixpoint consumes (r : re) : bool :=
  match r with
  | Chr _ => true
  | Cat r1 r2 => (consumes r1 || consumes r2)%bool
  | Alt r1 r2 => (consumes r1 && consumes r2)%bool
  | Grp _ r1 => consumes r1
  | _ => false
  end.

(** ** Trimming and whitespace *)

(** The effect of [re.sub(r'\s+', ' ', x)]: every run of whitespace
    becomes one space.  [in_run] tells that the previous character was
    whitespace. *)
Fixpoint collapse_from (in_run : bool) (x : str) : str :=
  match x with
  | [] => []
  | a :: x' =>
      if is_space a
      then if in_run then collapse_from true x' else " " :: collapse_from true x'
      else a :: collapse_from false x'
  end.

Definition collapse_spaces (x : str) : str := collapse_from false x.

Definition is_brace (a : ascii) : bool := (eqc a "{" || eqc a "}")%bool.

(** The effect of [re.sub(r'[{}]', '', x)]. *)
Definition remove_braces (x : str) : str :=
  List.filter (fun a => negb (is_brace a)) x.

(** Every whitespace character is a space that is followed by a character
    that is not whitespace. *)
Fixpoint no_runs (y : str) : bool :=
  match y with
  | [] => true
  | a :: y' =>
      ((if is_space a
        then eqc a " " && match y' with
                          | b :: _ => negb (is_space b)
                          | [] => true
                          end
        else true) && no_runs y')%bool
  end.

(** ** Brace balancing *)

Definition count_char (c : ascii) (x : str) : nat :=
  length (List.filter (eqc c) x).

(** Number of opening braces minus number of closing braces. *)
Definition brace_balance (x : str) : Z :=
  (Z.of_nat (count_char "{" x) - Z.of_nat (count_char "}" x))%Z.

(** Every prefix has at least as many opening as closing braces. *)
Definition prefixes_nonneg (x : str) : Prop :=
  forall n, (0 <= brace_balance (take n x))%Z.

(** The invariant of the scanning loop. *)
Definition balance_inv (st : str * Z) : Prop :=
  snd st = brace_balance (fst st) /\ prefixes_nonneg (fst st).

(** ** The search client and the pipeline *)

(** The text that [_is_arxiv_hit] inspects: the venue itself when it is a
    string (the empty string when the hit has none), the member [text] of
    a venue object (the empty string when it has none), and nothing for
    a venue of another type. *)
Definition venue_text (hit : Hit) : option str :=
  match default (VenueStr []) (info_venue (get_info hit)) with
  | VenueStr text => Some text
  | VenueDict text => Some (default [] text)
  | VenueOther => None
  end.

(** [sub] occurs in [x]. *)
Definition substring (sub x : str) : Prop :=
  exists l r, x = l ++ sub ++ r.

(** The venue text mentions arXiv or CoRR, in any letter case. *)
Definition preprint_venue (hit : Hit) : Prop :=
  exists text, venue_text hit = Some text /\
    (substring (s "arxiv") (lower text) \/ substring (s "corr") (lower text)).

(** What the pipeline may put at the position of [entry]: the entry itself,
    or a record that a retrieval returned for the key of [entry]. *)
Definition resolved_from {World : Type}
    (http_bib : str -> World -> option str * World) (max_retries : nat)
    (entry out : BibtexEntry) : Prop :=
  out = entry \/
  exists hit w1 w2,
    download_bibtex_from_dblp http_bib max_retries hit (cite_key entry) w1
    = (Some out, w2).

(** A scripted session for the examples: every search returns the given
    hits and every retrieval the given text; the world counts requests. *)
Definition mock_search (hits : list Hit) (q : str) (w : nat)
    : option (option HitsField) * nat :=
  (Some (Some (HitsDict (Some (HitsArray hits)))), S w).

Definition mock_bib (body : str) (url : str) (w : nat) : option str * nat :=
  (Some body, S w).

Definition mock_hit (venue url : string) : Hit :=
  mkHit (Some (mkInfo (Some (VenueStr (s venue))) (Some (s url)))).

(** ** Title extraction *)

Definition title_of (e : BibtexEntry) : str :=
  default [] (fields e !! s "title").

Definition not_space (a : ascii) : bool := negb (is_space a).

Definition not_brace (a : ascii) : bool := negb (is_brace a).

(** ** Cleaning a captured field value *)

(** Remove the last character when it is a comma. *)
Fixpoint drop_comma (v : str) : str :=
  match v with
  | [] => []
  | [a] => if eqc a "," then [] else [a]
  | a :: v' => a :: drop_comma v'
  end.

(** Where [$] matches: at the end, or before a final line feed. *)
Definition at_end (x : str) : bool :=
  match x with
  | [] => true
  | [a] => eqc a "010"
  | _ => false
  end.

(** Split [x] as [m ++ b :: rest] with [m] free of line feeds, [b] a closing
    character and [rest] empty or a final line feed. *)
Fixpoint close_at_end (closing : ascii -> bool) (x : str)
    : option (str * str) :=
  match x with
  | [] => None
  | b :: x' =>
      if (closing b && at_end x')%bool then Some ([], x')
      else if dot_char b then
        match close_at_end closing x' with
        | Some (m, rest) => Some (b :: m, rest)
        | None => None
        end
      else None
  end.

(** Remove one enclosing pair: an opening character in front and a closing
    character at the end, with no line feed in between. *)
Definition unwrap (opening closing : ascii -> bool) (v : str) : str :=
  match v with
  | [] => v
  | a :: x =>
      if opening a then
        match close_at_end closing x with
        | Some (m, rest) => m ++ rest
        | None => v
        end
      else v
  end.

Definition unwrap_quotes : str -> str := unwrap is_quote is_quote.

Definition unwrap_braces : str -> str := unwrap (eqc "{") (eqc "}").

(** The two anchored patterns have one shape. *)
Definition re_wrapped (opening closing : ascii -> bool) : re :=
  cat [Bos; Chr opening; Grp 1 (Star true dot_char); Chr closing; Eos].

(** Remove the first and the last character when they are an opening and a
    closing character. *)
Definition unwrap_pair (opening closing : ascii -> bool) (v : str) : str :=
  match v with
  | [] => v
  | a :: x =>
      match rev x with
      | [] => v
      | b :: m => if (opening a && closing b)%bool then rev m else v
      end
  end.

Definition is_open_brace (a : ascii) : bool := eqc "{" a.

Definition is_close_brace (a : ascii) : bool := eqc "}" a.

(** [v] is enclosed by an opening and a closing character. *)
Definition wrapped_by (opening closing : ascii -> bool) (v : str) : bool :=
  match v with
  | [] => false
  | a :: x =>
      match rev x with
      | [] => false
      | b :: _ => (opening a && closing b)%bool
      end
  end.

(** The unwrapping as the specification words it: at most one layer, a
    quote pair or else a brace pair. *)
Definition unwrap_once_spec (v : str) : str :=
  if wrapped_by is_quote is_quote v then unwrap_pair is_quote is_quote v
  else unwrap_pair is_open_brace is_close_brace v.

Definition clean_value_spec (raw : str) : str :=
  unwrap_once_spec (drop_comma (strip raw)).

(** ** Minimal serialization *)

(** The field is in the map with a non-empty value. *)
Definition present (e : BibtexEntry) (key : str) : bool :=
  match fields e !! key with
  | Some (_ :: _) => true
  | _ => false
  end.

Definition emitted_fields (e : BibtexEntry) : list str :=
  List.filter (present e) essential_fields.

Definition header_line (e : BibtexEntry) : str :=
  s "@" ++ entry_type e ++ s "{" ++ cite_key e ++ s ",".

Definition field_line (e : BibtexEntry) (key : str) : str :=
  s "  " ++ key ++ s " = "
  ++ format_value key (default [] (fields e !! key)) ++ s ",".

(** [x == x.lower()] *)
Definition is_lowercase (x : str) : Prop := lower x = x.

Definition no_upper (a : ascii) : bool := negb (is_upper a).

(** ** The worked example of the pipeline *)

Definition nl : str := ["010"].

(** The input record and the retrieved text as the specification prints
    them, on one line. *)
Definition example_input_one_line : str :=
  s "@article{ab12, title = {Deep Learning}, author = {X Y}, venue = {noise} }".

Definition example_retrieved_one_line : str :=
  s "@article{newkey, title={Deep Learning}, author={X Y}, year={2020}}".

(** The output that the specification gives for the example. *)
Definition example_output_one_line : str :=
  s "@article{ab12, author = {X Y}, title = {Deep Learning}, year = {2020},}".

(** The same records laid out with one field per line and the closing
    brace on a line of its own. *)
Definition example_input : str :=
  s "@article{ab12," ++ nl ++ s "  title = {Deep Learning}," ++ nl
  ++ s "  author = {X Y}," ++ nl ++ s "  venue = {noise}" ++ nl ++ s "}".

Definition example_retrieved : str :=
  s "@article{newkey," ++ nl ++ s "  title={Deep Learning}," ++ nl
  ++ s "  author={X Y}," ++ nl ++ s "  year={2020}" ++ nl ++ s "}".

Definition example_entry : BibtexEntry :=
  mkEntry (s "article") (s "ab12")
    (<[s "venue" := s "noise"]>
       (<[s "author" := s "X Y"]> (<[s "title" := s "Deep Learning"]> ∅))).

Definition example_updated : BibtexEntry :=
  mkEntry (s "article") (s "ab12")
    (<[s "year" := s "2020"]>
       (<[s "author" := s "X Y"]> (<[s "title" := s "Deep Learning"]> ∅))).

Definition example_output : str :=
  s "@article{ab12," ++ nl ++ s "  author = {X Y}," ++ nl
  ++ s "  title = {Deep Learning}," ++ nl ++ s "  year = 2020," ++ nl ++ s "}".

(** ** Serializing and parsing back *)

(** A field name, a citation key and a formatted value that the parser
    reads back as they were written. *)
Definition name_ok (n : str) : Prop := n <> [] /\ forallb is_word n = true.

Definition key_ok (X : str) : Prop :=
  X <> [] /\ forallb not_comma_space X = true.

(** Not both a comma and an equals sign: no text inside the value looks
    like the start of the next field. *)
Definition split_safe (E : str) : Prop :=
  has_char "=" E = false \/ has_char "," E = false.

Definition value_ok (E : str) : Prop :=
  E <> [] /\ stops is_space E /\ forallb dot_char E = true /\ split_safe E.

(** The lookahead of [field_pattern] for the next field. *)
Definition next_field : re :=
  cat [lit ","; Star true is_space; plus is_word; Star true is_space; lit "="].

(** The text of the field lines between the header and the last line feed:
    the captured [fields_str]. *)
Fixpoint body (ls : list (str * str)) : str :=
  match ls with
  | [] => []
  | (n, E) :: rest =>
      n ++ " " :: "=" :: " " :: E ++ "," ::
      match rest with
      | [] => []
      | _ :: _ => "010" :: " " :: " " :: body rest
      end
  end.

(** The matches of [field_pattern] in [body ls]. *)
Fixpoint field_matches (ls : list (str * str)) : list (nat * caps) :=
  match ls with
  | [] => []
  | (n, E) :: rest =>
      match rest with
      | [] => [(length n + 3 + length E + 1, [(2, E ++ [","]); (1, n)])]
      | _ :: _ =>
          (length n + 3 + length E, [(2, E); (1, n)]) :: field_matches rest
      end
  end.


(** Every line feed is followed by two spaces and a word character. *)
Fixpoint nl_guard (y : str) : bool :=
  match y with
  | [] => true
  | a :: y' =>
      ((if eqc "010" a
        then match y' with
             | b1 :: b2 :: b3 :: _ => eqc b1 " " && eqc b2 " " && is_word b3
             | _ => false
             end
        else true) && nl_guard y')%bool
  end.

(** The end of [entry_pattern]: a line feed, whitespace, the closing
    brace. *)
Definition entry_close : re :=
  cat [lit_i "010"; Star true is_space; lit_i "}"].

(** The text after the comma of the header. *)
Definition entry_tail (ls : list (str * str)) : str :=
  match ls with
  | [] => ["}"]
  | _ :: _ => " " :: " " :: body ls ++ ["010"; "}"]
  end.

Definition entry_text (K X : str) (ls : list (str * str)) : str :=
  "@" :: K ++ "{" :: X ++ "," :: "010" :: entry_tail ls.

Definition fields_ok (ls : list (str * str)) : Prop :=
  Forall (fun l => name_ok (fst l) /\ value_ok (snd l)) ls.

(** ** The cleaned book title *)

(** The scan of [_balance_braces] as a check: the depth after [y], or
    [None] when a closing brace has no partner. *)
Fixpoint scan (d : Z) (y : str) : option Z :=
  match y with
  | [] => Some d
  | a :: y' =>
      if eqc a "{" then scan (d + 1) y'
      else if eqc a "}" then (if (0 <? d)%Z then scan (d - 1) y' else None)
      else scan d y'
  end.

Definition not_comma (a : ascii) : bool := negb (eqc "," a).

(** ** Serialize, parse, serialize *)

(** [' ' in value or any(char in value for char in ['-', ':', '/', '.'])] *)
Definition needs_braces (value : str) : bool :=
  (has_char " " value
   || existsb (fun char => has_char char value) ["-"; ":"; "/"; "."])%bool.

(** No line feed, and not both a comma and an equals sign. *)
Definition plain (v : str) : Prop :=
  forallb dot_char v = true /\ split_safe v.

(** A value that is written without braces: it does not begin with
    whitespace, a quote or an opening brace and does not end with
    whitespace or a comma. *)
Definition bare_ok (v : str) : Prop :=
  stops (fun a => (is_space a || is_quote a || eqc "{" a)%bool) v /\
  stops (fun a => (is_space a || eqc "," a)%bool) (rev v).

Definition title_like (k : str) : bool :=
  str_in k [s "title"; s "journal"; s "author"].

(** The condition on the value [v] of the allow-listed field [k]. *)
Definition value_round_trips (k v : str) : Prop :=
  if str_eqb k (s "booktitle") then clean_booktitle v <> []
  else plain v /\ (title_like k = true \/ needs_braces v = true \/ bare_ok v).

(** The last character is neither whitespace nor a comma. *)
Definition tidy (E : str) : Prop :=
  stops is_space (rev E) /\ stops (eqc ",") (rev E).

(** The emitted names with their formatted values. *)
Definition field_values (e : BibtexEntry) : list (str * str) :=
  map (fun k => (k, format_value k (default [] (fields e !! k))))
      (emitted_fields e).

Definition line_of (l : str * str) : str :=
  s "  " ++ fst l ++ s " = " ++ snd l ++ s ",".

Definition insert_cleaned (m : gmap str str) (l : str * str) : gmap str str :=
  <[fst l := unwrap_braces (unwrap_quotes (snd l))]> m.

(** The conditions of the round trip on a record. *)
Definition round_trip_ready (e : BibtexEntry) : Prop :=
  name_ok (entry_type e) /\ is_lowercase (entry_type e) /\
  key_ok (cite_key e) /\
  forall k v, In k essential_fields -> fields e !! k = Some v -> v <> [] ->
              value_round_trips k v.

(** A record whose title has a comma that a word and an equals sign
    follow. *)
Definition comma_equals_title : BibtexEntry :=
  BibtexEntry_init (s "article") (s "k")
    (<[s "title" := s "Energy, E = mc2"]> ∅).

(** ** What the parser accepts *)

(** A pattern without capture groups. *)
Fixpoint no_groups (r : re) : bool :=
  match r with
  | Cat r1 r2 | Alt r1 r2 => (no_groups r1 && no_groups r2)%bool
  | Grp _ _ => false
  | Ahead r1 => no_groups r1
  | _ => true
  end.

(** The value of the last line of [ls] that assigns the name [n]. *)
Fixpoint last_value (n : str) (ls : list (str * str)) : option str :=
  match ls with
  | [] => None
  | (m, E) :: rest =>
      match last_value n rest with
      | Some F => Some F
      | None => if str_eqb n m then Some E else None
      end
  end.

(** The cleaning of a formatted value that has no whitespace around it and
    no comma at its end. *)
Definition cleaned (E : str) : str := unwrap_braces (unwrap_quotes E).

(** ** Reading back the file that [main] writes *)

(** What the text of one serialized record parses to. *)
Definition reparsed (e : BibtexEntry) : BibtexEntry :=
  BibtexEntry_init (entry_type e) (cite_key e)
    (_parse_fields (body (field_values e))).

(** ** A record without field lines in the written file *)

(** The text between the comma of a header without field lines and the
    last line feed of the record that follows it. *)
Definition absorbed (K2 X2 : str) (ls : list (str * str)) : str :=
  ["}"; "010"; "010"] ++ ("@" :: K2 ++ "{" :: X2 ++ [","])
  ++ ["010"; " "; " "] ++ body ls.

(** The end of [entry_pattern] does not match at [x]. *)
Definition no_close {A : Type} (c : caps) (k : cont A) (x : str) : Prop :=
  forall i, rmatch entry_close A i x c k = None.

(** ** Requests, pauses and bookkeeping of the client *)

(** Sessions for the examples.  The world is the pair of the number of
    requests sent and the number of pauses made. *)
Definition Counters : Type := nat * nat.

Definition requests_of (w : Counters) : nat := fst w.
Definition pauses_of (w : Counters) : nat := snd w.

Definition pause (w : Counters) : Counters := (fst w, S (snd w)).

(** A search service that is down: every request raises. *)
Definition down_search (q : str) (w : Counters)
    : option (option HitsField) * Counters :=
  (None, (S (fst w), snd w)).

(** A search service that answers every query with the given hits. *)
Definition counted_search (hits : list Hit) (q : str) (w : Counters)
    : option (option HitsField) * Counters :=
  (Some (Some (HitsDict (Some (HitsArray hits)))), (S (fst w), snd w)).

(** A search service that has no hit for a query in double quotes and the
    given hits for any other query. *)
Definition plain_only_search (hits : list Hit) (q : str) (w : Counters)
    : option (option HitsField) * Counters :=
  (Some (Some (HitsDict (Some (HitsArray
     (if starts_with ["034"] q then [] else hits))))),
   (S (fst w), snd w)).

(** A record server that is down. *)
Definition down_bib (url : str) (w : Counters) : option str * Counters :=
  (None, (S (fst w), snd w)).

(** A record server that answers with the given text. *)
Definition counted_bib (body : str) (url : str) (w : Counters)
    : option str * Counters :=
  (Some body, (S (fst w), snd w)).

(** The session after [n] attempts of a search that all raised, with the
    pause that follows each of them; [None] when one of them did not
    raise. *)
Fixpoint after_failed_searches {World : Type}
    (http_search : str -> World -> option (option HitsField) * World)
    (sleep : World -> World) (quote_plus : str -> str)
    (title : str) (n : nat) (w : World) : option World :=
  match n with
  | 0 => Some w
  | S n' =>
      match search_attempt http_search sleep quote_plus title w with
      | (None, w1) =>
          after_failed_searches http_search sleep quote_plus title n'
            (sleep w1)
      | (Some _, _) => None
      end
  end.

(** The session after [n] requests for a record that all raised. *)
Fixpoint after_failed_downloads {World : Type}
    (http_bib : str -> World -> option str * World)
    (bib_url : str) (n : nat) (w : World) : option World :=
  match n with
  | 0 => Some w
  | S n' =>
      match http_bib bib_url w with
      | (None, w1) => after_failed_downloads http_bib bib_url n' w1
      | (Some _, _) => None
      end
  end.

(** A search service that raises on its first [n] requests and then
    answers with the given hits. *)
Definition flaky_search (n : nat) (hits : list Hit) (q : str) (w : Counters)
    : option (option HitsField) * Counters :=
  (if Nat.ltb (fst w) n then None
   else Some (Some (HitsDict (Some (HitsArray hits)))),
   (S (fst w), snd w)).

(** A record server that raises on its first [n] requests and then
    answers with the given text. *)
Definition flaky_bib (n : nat) (body : str) (url : str) (w : Counters)
    : option str * Counters :=
  (if Nat.ltb (fst w) n then None else Some body, (S (fst w), snd w)).

(** ** Titles, book titles, braces and values *)

(** Whitespace or a brace: what [get_title] removes or trims. *)
Definition blank_or_brace (a : ascii) : bool := (is_space a || is_brace a)%bool.

(** Any character but the closing brace. *)
Definition not_close (a : ascii) : bool := negb (eqc a "}").

(** * Lemmas and theorems *)

(** ** Reasoning about the matcher: proofs *)

Lemma eqc_true a b : eqc a b = true <-> a = b.
Proof. apply Ascii.eqb_eq. Qed.

Lemma eqc_false a b : eqc a b = false <-> a <> b.
Proof. apply Ascii.eqb_neq. Qed.

Lemma eqc_sym a b : eqc a b = eqc b a.
Proof. apply Ascii.eqb_sym. Qed.

Lemma eqc_refl a : eqc a a = true.
Proof. apply Ascii.eqb_refl. Qed.

Lemma span_le p x : span p x <= length x.
Proof. induction x as [|a x IH]; simpl; [lia|]. destruct (p a); simpl; lia. Qed.

Lemma span_app_stop p w x :
  forallb p w = true -> stops p x -> span p (w ++ x) = length w.
Proof.
  intros Hw Hx. induction w as [|a w IH]; simpl in *.
  - destruct x as [|b x]; [done|]. simpl in *. by rewrite Hx.
  - apply andb_true_iff in Hw as [-> Hw]. by rewrite IH.
Qed.

Lemma span_take p x : forallb p (take (span p x) x) = true.
Proof.
  induction x as [|a x IH]; simpl; [done|].
  destruct (p a) eqn:E; simpl; [|done]. by rewrite E, IH.
Qed.

Lemma span_drop p x : stops p (drop (span p x) x).
Proof.
  induction x as [|a x IH]; simpl; [done|].
  destruct (p a) eqn:E; simpl; done.
Qed.

Lemma span_prefix p x j : j <= span p x -> forallb p (take j x) = true.
Proof.
  revert j. induction x as [|a x IH]; intros j Hj; simpl in *.
  - by destruct j.
  - destruct j as [|j]; [done|]. simpl. destruct (p a); [|lia].
    simpl. apply IH. lia.
Qed.

Section Star.

Context {A : Type}.
Implicit Types (k : cont A) (p : ascii -> bool).

Lemma star_greedy_none p i x c k :
  (forall j, j <= span p x -> k (i + j) (drop j x) c = None) ->
  star_greedy p i x c k = None.
Proof.
  revert i. induction x as [|a x IH]; intros i Hno; simpl in *.
  - specialize (Hno 0). rewrite Nat.add_0_r in Hno. apply Hno. lia.
  - pose proof (Hno 0) as H0. rewrite Nat.add_0_r in H0. simpl in H0.
    destruct (p a); [|apply H0; lia]. rewrite IH; [apply H0; lia|].
    intros j Hj. specialize (Hno (S j)). simpl in Hno.
    rewrite <- Hno by lia. f_equal. lia.
Qed.

(** The greedy star hands the continuation the longest run first and then
    gives characters back one at a time. *)
Lemma star_greedy_pick p i x c k j v :
  j <= span p x ->
  k (i + j) (drop j x) c = Some v ->
  (forall j', j < j' <= span p x -> k (i + j') (drop j' x) c = None) ->
  star_greedy p i x c k = Some v.
Proof.
  revert i j. induction x as [|a x IH]; intros i j Hj Hk Hno; simpl in *.
  - assert (j = 0) as -> by lia. by rewrite Nat.add_0_r in Hk.
  - destruct (p a) eqn:E.
    + destruct j as [|j].
      * rewrite Nat.add_0_r in Hk. simpl in Hk.
        rewrite star_greedy_none; [done|]. intros j' Hj'.
        specialize (Hno (S j')). simpl in Hno. rewrite <- Hno by lia.
        f_equal. lia.
      * simpl in Hk. rewrite (IH (S i) j); [done|lia| |].
        -- rewrite <- Hk. f_equal. lia.
        -- intros j' Hj'. specialize (Hno (S j')). simpl in Hno.
           rewrite <- Hno by lia. f_equal. lia.
    + assert (j = 0) as -> by lia. by rewrite Nat.add_0_r in Hk.
Qed.

Lemma star_greedy_max p i w x c k v :
  forallb p w = true -> stops p x ->
  k (i + length w) x c = Some v ->
  star_greedy p i (w ++ x) c k = Some v.
Proof.
  intros Hw Hx Hk. apply (star_greedy_pick p i (w ++ x) c k (length w)).
  - by rewrite span_app_stop.
  - by rewrite drop_app_length.
  - rewrite span_app_stop by done. lia.
Qed.

(** The lazy star hands the continuation the shortest run first. *)
Lemma star_lazy_pick p i x c k j v :
  j <= span p x ->
  k (i + j) (drop j x) c = Some v ->
  (forall j', j' < j -> k (i + j') (drop j' x) c = None) ->
  star_lazy p i x c k = Some v.
Proof.
  revert i j. induction x as [|a x IH]; intros i j Hj Hk Hno; simpl in *.
  - assert (j = 0) as -> by lia. rewrite Nat.add_0_r in Hk. simpl in Hk.
    by rewrite Hk.
  - destruct j as [|j].
    + rewrite Nat.add_0_r in Hk. simpl in Hk. by rewrite Hk.
    + pose proof (Hno 0) as H0. rewrite Nat.add_0_r in H0. simpl in H0.
      rewrite H0 by lia. destruct (p a); [|lia].
      apply (IH (S i) j); [lia| |].
      * rewrite <- Hk. simpl. f_equal. lia.
      * intros j' Hj'. specialize (Hno (S j')). simpl in Hno.
        rewrite <- Hno by lia. f_equal. lia.
Qed.

Lemma star_lazy_none p i x c k :
  (forall j, j <= span p x -> k (i + j) (drop j x) c = None) ->
  star_lazy p i x c k = None.
Proof.
  revert i. induction x as [|a x IH]; intros i Hno; simpl in *.
  - specialize (Hno 0). rewrite Nat.add_0_r in Hno. simpl in Hno.
    by rewrite Hno by lia.
  - pose proof (Hno 0) as H0. rewrite Nat.add_0_r in H0. simpl in H0.
    rewrite H0 by lia. destruct (p a); [|done]. apply IH.
    intros j Hj. specialize (Hno (S j)). simpl in Hno.
    rewrite <- Hno by lia. f_equal. lia.
Qed.

Lemma star_greedy_sound p i x c k v :
  star_greedy p i x c k = Some v ->
  exists j, j <= span p x /\ k (i + j) (drop j x) c = Some v.
Proof.
  revert i. induction x as [|a x IH]; intros i; simpl.
  - intros H. exists 0. by rewrite Nat.add_0_r.
  - destruct (p a).
    + destruct (star_greedy p (S i) x c k) eqn:E.
      * intros [= <-]. apply IH in E as (j & Hj & Hk). exists (S j).
        split; [lia|]. rewrite <- Hk. simpl. f_equal. lia.
      * intros H. exists 0. rewrite Nat.add_0_r. split; [lia|done].
    + intros H. exists 0. by rewrite Nat.add_0_r.
Qed.

Lemma star_lazy_sound p i x c k v :
  star_lazy p i x c k = Some v ->
  exists j, j <= span p x /\ k (i + j) (drop j x) c = Some v.
Proof.
  revert i. induction x as [|a x IH]; intros i; simpl.
  - destruct (k i [] c) eqn:E; [|done]. intros [= <-]. exists 0.
    by rewrite Nat.add_0_r.
  - destruct (k i (a :: x) c) eqn:E.
    + intros [= <-]. exists 0. rewrite Nat.add_0_r. split; [lia|done].
    + destruct (p a); [|done]. intros H.
      apply IH in H as (j & Hj & Hk). exists (S j).
      split; [lia|]. rewrite <- Hk. simpl. f_equal. lia.
Qed.

End Star.

(** The matcher is sound for the language of the pattern: a result comes
    from the continuation, run after a prefix that the pattern accepts. *)
Lemma rmatch_sound r : forall A i x c (k : cont A) v,
  rmatch r A i x c k = Some v ->
  exists m x' c', x = m ++ x' /\ accepts r i x m /\
                  k (i + length m) x' c' = Some v.
Proof.
  induction r as [|p|r1 IH1 r2 IH2|r1 IH1 r2 IH2|g p|n r1 IH1|r1 IH1| |];
    intros A i x c k v; simpl.
  - intros H. exists [], x, c. by rewrite Nat.add_0_r.
  - destruct x as [|a x]; [done|]. destruct (p a) eqn:E; [|done].
    intros H. exists [a], x, c. repeat split; [eauto|].
    rewrite <- H. f_equal. simpl. lia.
  - intros H. apply IH1 in H as (m1 & x1 & c1 & -> & H1 & H).
    apply IH2 in H as (m2 & x2 & c2 & -> & H2 & H).
    exists (m1 ++ m2), x2, c2. rewrite <- app_assoc. split; [done|].
    split.
    + exists m1, m2. rewrite drop_app_length. done.
    + rewrite <- H. f_equal. rewrite length_app. lia.
  - destruct (rmatch r1 A i x c k) eqn:E.
    + intros [= <-]. apply IH1 in E as (m & x' & c' & -> & H1 & H).
      exists m, x', c'. eauto.
    + intros H. apply IH2 in H as (m & x' & c' & -> & H1 & H).
      exists m, x', c'. eauto.
  - destruct g; intros H;
      [apply star_greedy_sound in H|apply star_lazy_sound in H];
      destruct H as (j & Hj & Hk); exists (take j x), (drop j x), c;
      rewrite take_drop; (split; [done|split; [by apply span_prefix|]]);
      rewrite length_take_le by (pose proof (span_le p x); lia); done.
  - intros H. apply IH1 in H as (m & x' & c' & -> & H1 & H).
    exists m, x'. eauto.
  - destruct (rmatch r1 caps i x c _) as [c1|] eqn:E; [|done].
    intros H. apply IH1 in E as (m & x' & c' & -> & H1 & _).
    exists [], (m ++ x'), c1. rewrite Nat.add_0_r. repeat split; eauto.
  - destruct (Nat.eqb_spec i 0) as [->|]; [|done]. intros H.
    exists [], x, c. done.
  - destruct x as [|a [|b x]].
    + intros H. exists [], [], c. rewrite Nat.add_0_r. eauto.
    + destruct (eqc a "010") eqn:E; [|done]. apply eqc_true in E as ->.
      intros H. exists [], ["010"], c. rewrite Nat.add_0_r. eauto.
    + done.
Qed.

(** A pattern that accepts no prefix of the text fails. *)
Lemma rmatch_none r A i x c (k : cont A) :
  (forall m x', x = m ++ x' -> ~ accepts r i x m) ->
  rmatch r A i x c k = None.
Proof.
  intros Hno. destruct (rmatch r A i x c k) eqn:E; [|done].
  apply rmatch_sound in E as (m & x' & _ & Hx & H & _).
  by apply (Hno m x') in H.
Qed.

(** Scanning past the characters of the previous match. *)
Lemma finditer_from_skip r i w n x :
  finditer_from r i (length w + n) (w ++ x) =
  finditer_from r (i + length w) n x.
Proof.
  revert i. induction w as [|a w IH]; intros i; simpl.
  - by rewrite Nat.add_0_r.
  - rewrite IH. f_equal. lia.
Qed.

Lemma sub_from_skip r repl i w n x :
  sub_from r repl i (length w + n) (w ++ x) =
  sub_from r repl (i + length w) n x.
Proof.
  revert i. induction w as [|a w IH]; intros i; simpl.
  - by rewrite Nat.add_0_r.
  - rewrite IH. f_equal. lia.
Qed.

(** Where the pattern never matches, substitution copies the text. *)
Lemma sub_from_no_match r repl i x :
  (forall j, j <= length x -> match_at r (i + j) (drop j x) = None) ->
  sub_from r repl i 0 x = x.
Proof.
  revert i. induction x as [|a x IH]; intros i Hno; simpl.
  - specialize (Hno 0). rewrite Nat.add_0_r in Hno. simpl in Hno.
    by rewrite Hno by lia.
  - pose proof (Hno 0) as H0. rewrite Nat.add_0_r in H0. simpl in H0.
    rewrite H0 by lia. f_equal. apply IH. intros j Hj.
    specialize (Hno (S j)). simpl in Hno. rewrite <- Hno by lia.
    f_equal. lia.
Qed.

Lemma finditer_from_no_match r i x :
  (forall j, j <= length x -> match_at r (i + j) (drop j x) = None) ->
  finditer_from r i 0 x = [].
Proof.
  revert i. induction x as [|a x IH]; intros i Hno; simpl.
  - specialize (Hno 0). rewrite Nat.add_0_r in Hno. simpl in Hno.
    by rewrite Hno by lia.
  - pose proof (Hno 0) as H0. rewrite Nat.add_0_r in H0. simpl in H0.
    rewrite H0 by lia. apply IH. intros j Hj.
    specialize (Hno (S j)). simpl in Hno. rewrite <- Hno by lia.
    f_equal. lia.
Qed.

(** A pattern anchored with [^] matches at offset 0 only. *)
Lemma match_at_bos r i x : i <> 0 -> match_at (Cat Bos r) i x = None.
Proof.
  intros Hi. unfold match_at. simpl.
  by destruct (Nat.eqb_spec i 0).
Qed.

(** No pattern of the source matches the empty string. *)
Lemma consumes_accepts r : forall i x m,
  consumes r = true -> accepts r i x m -> m <> [].
Proof.
  induction r as [|p|r1 IH1 r2 IH2|r1 IH1 r2 IH2|g p|n r1 IH1|r1 IH1| |];
    intros i x m Hc; simpl in *; try done.
  - by intros (a & -> & _).
  - intros (m1 & m2 & -> & H1 & H2). apply orb_true_iff in Hc as [Hc|Hc].
    + apply (IH1 _ _ _ Hc) in H1. by destruct m1.
    + apply (IH2 _ _ _ Hc) in H2. by destruct m1, m2.
  - apply andb_true_iff in Hc as [Hc1 Hc2]. intros [H|H]; eauto.
  - eauto.
Qed.

Lemma match_at_consumes r i x len c :
  consumes r = true -> match_at r i x = Some (len, c) -> 0 < len.
Proof.
  intros Hc H. unfold match_at in H.
  apply rmatch_sound in H as (m & x' & c' & _ & Hm & H).
  apply (consumes_accepts _ _ _ _ Hc) in Hm. injection H as <- _.
  destruct m; [done|]. simpl. lia.
Qed.

Lemma source_patterns_consume :
  Forall (fun r => consumes r = true)
    [entry_pattern; field_pattern; re_braces; re_spaces; re_trailing_comma;
     re_quoted; re_braced].
Proof. by repeat constructor. Qed.

(** ** Trimming and whitespace: proofs *)

Lemma lstrip_stops x : stops is_space (lstrip x).
Proof.
  induction x as [|a x IH]; simpl; [done|].
  destruct (is_space a) eqn:E; [done|]. simpl. exact E.
Qed.

Lemma lstrip_id x : stops is_space x -> lstrip x = x.
Proof. destruct x as [|a x]; simpl; [done|]. by intros ->. Qed.

Lemma lstrip_decomp x :
  exists w, x = w ++ lstrip x /\ forallb is_space w = true.
Proof.
  induction x as [|a x (w & Hx & Hw)]; simpl.
  - by exists [].
  - destruct (is_space a) eqn:E.
    + exists (a :: w). simpl. rewrite E, Hw. by rewrite <- Hx.
    + by exists [].
Qed.

Lemma lstrip_app_space w x :
  forallb is_space w = true -> lstrip (w ++ x) = lstrip x.
Proof.
  induction w as [|a w IH]; simpl; [done|].
  intros [-> Hw]%andb_true_iff. by apply IH.
Qed.

Lemma rstrip_id x : stops is_space (rev x) -> rstrip x = x.
Proof. intros H. unfold rstrip. by rewrite lstrip_id, rev_involutive. Qed.

Lemma rstrip_stops x : stops is_space (rev (rstrip x)).
Proof. unfold rstrip. rewrite rev_involutive. apply lstrip_stops. Qed.

Lemma forallb_rev (p : ascii -> bool) w : forallb p (rev w) = forallb p w.
Proof.
  induction w as [|a w IH]; simpl; [done|].
  rewrite forallb_app, IH. simpl. rewrite andb_true_r. apply andb_comm.
Qed.

Lemma rstrip_decomp x :
  exists w, x = rstrip x ++ w /\ forallb is_space w = true.
Proof.
  destruct (lstrip_decomp (rev x)) as (w & Hx & Hw).
  exists (rev w). unfold rstrip. rewrite <- rev_app_distr, <- Hx.
  by rewrite rev_involutive, forallb_rev.
Qed.

Lemma rstrip_app_space x w :
  forallb is_space w = true -> rstrip (x ++ w) = rstrip x.
Proof.
  intros Hw. unfold rstrip. rewrite rev_app_distr.
  by rewrite lstrip_app_space by (by rewrite forallb_rev).
Qed.

Lemma stops_app p x y : x <> [] -> stops p x -> stops p (x ++ y).
Proof. by destruct x. Qed.

Lemma strip_id x :
  stops is_space x -> stops is_space (rev x) -> strip x = x.
Proof. intros H1 H2. unfold strip. by rewrite lstrip_id, rstrip_id. Qed.

Lemma strip_decomp x :
  exists w1 w2, x = w1 ++ strip x ++ w2 /\
    forallb is_space w1 = true /\ forallb is_space w2 = true.
Proof.
  destruct (lstrip_decomp x) as (w1 & H1 & Hw1).
  destruct (rstrip_decomp (lstrip x)) as (w2 & H2 & Hw2).
  exists w1, w2. unfold strip. by rewrite <- H2.
Qed.

Lemma strip_stops_l x : stops is_space (strip x).
Proof.
  unfold strip. pose proof (lstrip_stops x) as H.
  destruct (rstrip_decomp (lstrip x)) as (w & Hx & Hw).
  destruct (rstrip (lstrip x)) as [|a y] eqn:E; [done|].
  rewrite Hx in H. exact H.
Qed.

Lemma strip_stops_r x : stops is_space (rev (strip x)).
Proof. apply rstrip_stops. Qed.

Lemma strip_strip x : strip (strip x) = strip x.
Proof. apply strip_id; [apply strip_stops_l|apply strip_stops_r]. Qed.

Lemma strip_nil_all_space x : strip x = [] -> forallb is_space x = true.
Proof.
  intros H. destruct (strip_decomp x) as (w1 & w2 & Hx & H1 & H2).
  rewrite H in Hx. rewrite Hx. simpl. by rewrite forallb_app, H1, H2.
Qed.

Lemma stops_last_app p x a : p a = false -> stops p (rev (x ++ [a])).
Proof. intros H. by rewrite rev_app_distr. Qed.

(** *** The two substitutions of [get_title] *)

Lemma sub_braces x : Re.sub re_braces (const_repl []) x = remove_braces x.
Proof.
  unfold Re.sub.
  enough (H : forall i, sub_from re_braces (const_repl []) i 0 x
                        = remove_braces x) by apply H.
  induction x as [|a x IH]; intros i; simpl;
    unfold match_at, re_braces; simpl; [done|].
  unfold is_brace. replace (S i - i) with 1 by lia.
  destruct (eqc a "{" || eqc a "}")%bool; simpl; by rewrite IH.
Qed.

Lemma match_at_spaces i x :
  match_at re_spaces i x =
  match x with
  | a :: x' => if is_space a then Some (S (span is_space x'), []) else None
  | [] => None
  end.
Proof.
  unfold match_at. simpl. destruct x as [|a x]; [done|].
  destruct (is_space a); [|done].
  rewrite <- (take_drop (span is_space x) x) at 1.
  erewrite star_greedy_max; [done|apply span_take|apply span_drop|].
  f_equal. f_equal. rewrite length_take_le by apply span_le. lia.
Qed.

Lemma sub_spaces_from x : forall i,
  sub_from re_spaces (const_repl (s " ")) i 0 x = collapse_from false x /\
  sub_from re_spaces (const_repl (s " ")) i (span is_space x) x
  = collapse_from true x.
Proof.
  induction x as [|a x IH]; intros i.
  - split; [|done]. cbn [sub_from]. by rewrite match_at_spaces.
  - assert (H0 : sub_from re_spaces (const_repl (s " ")) i 0 (a :: x)
                 = collapse_from false (a :: x)).
    { cbn [sub_from]. rewrite match_at_spaces. simpl.
      destruct (is_space a).
      - f_equal. apply IH.
      - f_equal. apply IH. }
    split; [exact H0|]. simpl span. destruct (is_space a) eqn:E.
    + simpl. rewrite E. apply IH.
    + rewrite H0. simpl. by rewrite E.
Qed.

Lemma sub_spaces x :
  Re.sub re_spaces (const_repl (s " ")) x = collapse_spaces x.
Proof. apply sub_spaces_from. Qed.

Lemma collapse_from_no_runs x : forall b,
  no_runs (collapse_from b x) = true /\
  (b = true -> stops is_space (collapse_from b x)).
Proof.
  induction x as [|a x IH]; intros b; simpl; [done|].
  destruct (is_space a) eqn:E.
  - destruct b.
    + apply IH.
    + split; [|done]. simpl. destruct (IH true) as [-> Hs].
      specialize (Hs eq_refl).
      destruct (collapse_from true x) as [|c y]; [done|].
      simpl in Hs. by rewrite Hs.
  - split; [|by intros _]. simpl. rewrite E. apply IH.
Qed.

Lemma no_runs_split y l a r :
  no_runs y = true -> y = l ++ a :: r -> is_space a = true ->
  a = " " /\ stops is_space r.
Proof.
  revert y. induction l as [|b l IH]; intros y Hy -> Ha; simpl in *.
  - rewrite Ha in Hy. apply andb_true_iff in Hy as [Hy _].
    apply andb_true_iff in Hy as [->%eqc_true Hr]. split; [done|].
    destruct r; [done|]. simpl. by apply negb_true_iff.
  - apply andb_true_iff in Hy as [_ Hy]. by eapply IH.
Qed.

Lemma collapse_from_fixed x :
  no_runs x = true -> collapse_from false x = x.
Proof.
  induction x as [|a x IH]; simpl; [done|].
  intros [Ha Hx]%andb_true_iff. destruct (is_space a) eqn:E.
  - apply andb_true_iff in Ha as [->%eqc_true Hn]. f_equal.
    destruct x as [|b x]; [done|]. apply negb_true_iff in Hn.
    specialize (IH Hx). simpl in IH |- *. by rewrite Hn in IH |- *.
  - f_equal. by apply IH.
Qed.

(** ** Stepping the matcher through a text: proofs

    Each lemma advances the matcher over one element of a pattern, along
    the path that the backtracking search takes first. *)

Ltac char_eval :=
  repeat match goal with
  | |- context [is_space ?a] =>
      lazymatch a with Ascii _ _ _ _ _ _ _ _ =>
        let v := eval vm_compute in (is_space a) in
        change (is_space a) with v end
  | |- context [is_word ?a] =>
      lazymatch a with Ascii _ _ _ _ _ _ _ _ =>
        let v := eval vm_compute in (is_word a) in
        change (is_word a) with v end
  | |- context [dot_char ?a] =>
      lazymatch a with Ascii _ _ _ _ _ _ _ _ =>
        let v := eval vm_compute in (dot_char a) in
        change (dot_char a) with v end
  | |- context [not_comma_space ?a] =>
      lazymatch a with Ascii _ _ _ _ _ _ _ _ =>
        let v := eval vm_compute in (not_comma_space a) in
        change (not_comma_space a) with v end
  | |- context [is_quote ?a] =>
      lazymatch a with Ascii _ _ _ _ _ _ _ _ =>
        let v := eval vm_compute in (is_quote a) in
        change (is_quote a) with v end
  | |- context [lower_char ?a] =>
      lazymatch a with Ascii _ _ _ _ _ _ _ _ =>
        let v := eval vm_compute in (lower_char a) in
        change (lower_char a) with v end
  | |- context [eqc ?a ?b] =>
      lazymatch a with Ascii _ _ _ _ _ _ _ _ =>
        lazymatch b with Ascii _ _ _ _ _ _ _ _ =>
          let v := eval vm_compute in (eqc a b) in
          change (eqc a b) with v end end
  end.

Section Steps.

Context {A : Type}.
Implicit Types (k : cont A) (p : ascii -> bool) (rest : re).

Lemma step_lit a rest i x c k :
  rmatch (Cat (lit a) rest) A i (a :: x) c k = rmatch rest A (S i) x c k.
Proof. unfold lit. simpl. by rewrite eqc_refl. Qed.

Lemma step_lit_i a rest i x c k :
  rmatch (Cat (lit_i a) rest) A i (a :: x) c k = rmatch rest A (S i) x c k.
Proof. unfold lit_i. simpl. by rewrite eqc_refl. Qed.

Lemma step_chr p a rest i x c k :
  p a = true ->
  rmatch (Cat (Chr p) rest) A i (a :: x) c k = rmatch rest A (S i) x c k.
Proof. intros H. simpl. by rewrite H. Qed.

Lemma step_star_max p w x rest i c k v :
  forallb p w = true -> stops p x ->
  rmatch rest A (i + length w) x c k = Some v ->
  rmatch (Cat (Star true p) rest) A i (w ++ x) c k = Some v.
Proof. intros Hw Hx Hk. simpl. by apply star_greedy_max. Qed.

Lemma step_plus_max p w x rest i c k v :
  w <> [] -> forallb p w = true -> stops p x ->
  rmatch rest A (i + length w) x c k = Some v ->
  rmatch (Cat (plus p) rest) A i (w ++ x) c k = Some v.
Proof.
  intros Hne Hw Hx Hk. destruct w as [|a w]; [done|].
  simpl in Hw. apply andb_true_iff in Hw as [Ha Hw].
  unfold plus. simpl. rewrite Ha. apply star_greedy_max; [done..|].
  rewrite <- Hk. f_equal. simpl. lia.
Qed.

Lemma step_grp_plus_max n p w x rest i c k v :
  w <> [] -> forallb p w = true -> stops p x ->
  rmatch rest A (i + length w) x ((n, w) :: c) k = Some v ->
  rmatch (Cat (Grp n (plus p)) rest) A i (w ++ x) c k = Some v.
Proof.
  intros Hne Hw Hx Hk. destruct w as [|a w]; [done|].
  simpl in Hw. apply andb_true_iff in Hw as [Ha Hw].
  unfold plus. simpl. rewrite Ha. apply star_greedy_max; [done..|].
  replace (S i + length w - i) with (S (length w)) by lia.
  simpl. rewrite take_app_length. rewrite <- Hk. f_equal. simpl. lia.
Qed.

Lemma forallb_any_char w : forallb any_char w = true.
Proof. by induction w. Qed.

Lemma span_any_char x : span any_char x = length x.
Proof. induction x; simpl; [done|]. by f_equal. Qed.

(** The lazy group takes [w] when the rest of the pattern matches after
    [w] and after no shorter prefix of it. *)
Lemma step_grp_lazy_any n w x rest i c k v :
  rmatch rest A (i + length w) x ((n, w) :: c) k = Some v ->
  (forall j, j < length w ->
     rmatch rest A (i + j) (drop j w ++ x) ((n, take j w) :: c) k = None) ->
  rmatch (Cat (Grp n (Star false any_char)) rest) A i (w ++ x) c k = Some v.
Proof.
  intros Hk Hno. simpl.
  apply (star_lazy_pick any_char i (w ++ x) c _ (length w)).
  - rewrite span_any_char, length_app. lia.
  - rewrite drop_app_length. replace (i + length w - i) with (length w) by lia.
    by rewrite take_app_length.
  - intros j Hj. replace (i + j - i) with j by lia.
    rewrite drop_app_le, take_app_le by lia. by apply Hno.
Qed.

Lemma step_grp_plus_lazy_any n a w x rest i c k v :
  rmatch rest A (i + S (length w)) x ((n, a :: w) :: c) k = Some v ->
  (forall j, j < length w ->
     rmatch rest A (i + S j) (drop j w ++ x) ((n, a :: take j w) :: c) k
     = None) ->
  rmatch (Cat (Grp n (plus_lazy any_char)) rest) A i (a :: w ++ x) c k
  = Some v.
Proof.
  intros Hk Hno. unfold plus_lazy. simpl. unfold any_char at 1.
  apply (star_lazy_pick any_char (S i) (w ++ x) c _ (length w)).
  - rewrite span_any_char, length_app. lia.
  - rewrite drop_app_length.
    replace (S i + length w - i) with (S (length w)) by lia.
    simpl. rewrite take_app_length. rewrite <- Hk. f_equal. lia.
  - intros j Hj. replace (S i + j - i) with (S j) by lia. simpl.
    rewrite drop_app_le, take_app_le by lia.
    rewrite <- (Hno j Hj). f_equal. lia.
Qed.

Lemma step_ahead r1 rest i x c c1 k :
  rmatch r1 caps i x c (fun _ _ c' => Some c') = Some c1 ->
  rmatch (Cat (Ahead r1) rest) A i x c k = rmatch rest A i x c1 k.
Proof. intros H. simpl. by rewrite H. Qed.

Lemma step_ahead_none r1 rest i x c k :
  rmatch r1 caps i x c (fun _ _ c' => Some c') = None ->
  rmatch (Cat (Ahead r1) rest) A i x c k = None.
Proof. intros H. simpl. by rewrite H. Qed.

Lemma step_eps i x c k : rmatch Eps A i x c k = k i x c.
Proof. done. Qed.

End Steps.

(** Scanning forward from a match and from a failed attempt. *)
Lemma finditer_from_match r i m x c :
  m <> [] -> match_at r i (m ++ x) = Some (length m, c) ->
  finditer_from r i 0 (m ++ x) = (length m, c) :: finditer_from r (i + length m) 0 x.
Proof.
  intros Hne H. destruct m as [|a m]; [done|].
  cbn [finditer_from app]. change (a :: m ++ x) with ((a :: m) ++ x).
  rewrite H. f_equal. simpl length.
  replace (S (length m) - 1) with (length m + 0) by lia.
  rewrite finditer_from_skip. f_equal. lia.
Qed.

Lemma finditer_from_fail r i a x :
  match_at r i (a :: x) = None ->
  finditer_from r i 0 (a :: x) = finditer_from r (S i) 0 x.
Proof. intros H. cbn [finditer_from]. by rewrite H. Qed.

(** Facts about the character classes. *)
Lemma is_word_not_space a : is_word a = true -> is_space a = false.
Proof. by destruct a as [[] [] [] [] [] [] [] []]. Qed.

Lemma is_word_dot a : is_word a = true -> dot_char a = true.
Proof. by destruct a as [[] [] [] [] [] [] [] []]. Qed.

Lemma is_space_not_word a : is_space a = true -> is_word a = false.
Proof. by destruct a as [[] [] [] [] [] [] [] []]. Qed.

Lemma lit_i_newline a : eqc (lower_char "010") (lower_char a) = eqc "010" a.
Proof. by destruct a as [[] [] [] [] [] [] [] []]. Qed.

Lemma lit_i_close_word a :
  is_word a = true -> eqc (lower_char "}") (lower_char a) = false.
Proof. by destruct a as [[] [] [] [] [] [] [] []]. Qed.

Lemma not_comma_space_spec a :
  not_comma_space a = true <-> a <> "," /\ is_space a = false.
Proof.
  unfold not_comma_space. rewrite negb_true_iff, orb_false_iff, eqc_false.
  done.
Qed.

(** ** Brace balancing: proofs *)

Lemma count_char_app c x y :
  count_char c (x ++ y) = count_char c x + count_char c y.
Proof. unfold count_char. by rewrite List.filter_app, length_app. Qed.

Lemma brace_balance_app x y :
  brace_balance (x ++ y) = (brace_balance x + brace_balance y)%Z.
Proof. unfold brace_balance. rewrite !count_char_app. lia. Qed.

Lemma count_char_repeat_same c n : count_char c (repeat c n) = n.
Proof.
  induction n as [|n IH]; [done|]. unfold count_char in *. simpl.
  unfold eqc at 1. rewrite Ascii.eqb_refl. simpl. by rewrite IH.
Qed.

Lemma count_char_repeat_other c d n :
  c <> d -> count_char c (repeat d n) = 0.
Proof.
  intros Hne. induction n as [|n IH]; [done|]. unfold count_char in *. simpl.
  unfold eqc at 1. destruct (Ascii.eqb_spec c d) as [->|_]; [done|]. exact IH.
Qed.

Lemma brace_balance_single a :
  brace_balance [a] =
  if eqc a "{" then 1%Z else if eqc a "}" then (-1)%Z else 0%Z.
Proof.
  unfold brace_balance, count_char. cbn [List.filter].
  rewrite (eqc_sym "{" a), (eqc_sym "}" a).
  destruct (eqc a "{") eqn:E1.
  - apply eqc_true in E1 as ->. done.
  - destruct (eqc a "}"); done.
Qed.

Lemma take_repeat (a : ascii) n m : take n (repeat a m) = repeat a (min n m).
Proof.
  revert m. induction n as [|n IH]; intros [|m]; simpl; [done..|].
  by rewrite IH.
Qed.

Lemma prefixes_nonneg_nil : prefixes_nonneg [].
Proof. intros n. by rewrite take_nil. Qed.

Lemma prefixes_nonneg_snoc x a :
  prefixes_nonneg x -> (0 <= brace_balance (x ++ [a]))%Z ->
  prefixes_nonneg (x ++ [a]).
Proof.
  intros Hx Ha n. destruct (decide (n <= length x)) as [Hn|Hn].
  - rewrite take_app_le by done. apply Hx.
  - rewrite take_ge by (rewrite length_app; simpl; lia). done.
Qed.

Lemma prefixes_nonneg_closing x k :
  prefixes_nonneg x -> (Z.of_nat k <= brace_balance x)%Z ->
  prefixes_nonneg (x ++ repeat "}" k).
Proof.
  intros Hx Hk n. destruct (decide (n <= length x)) as [Hn|Hn].
  - rewrite take_app_le by done. apply Hx.
  - rewrite take_app_ge by lia. rewrite brace_balance_app.
    rewrite take_repeat. unfold brace_balance at 2.
    rewrite count_char_repeat_same, count_char_repeat_other by done.
    lia.
Qed.

Lemma balance_step_inv st a : balance_inv st -> balance_inv (balance_step st a).
Proof.
  destruct st as [res cnt]. intros [Hc Hp]. simpl in *. unfold balance_step.
  pose proof (Hp (length res)) as H0. rewrite take_ge in H0 by done.
  pose proof (brace_balance_single a) as Ha.
  destruct (eqc a "{") eqn:E1; [|destruct (eqc a "}") eqn:E2;
    [destruct (0 <? cnt)%Z eqn:E3|]]; split; simpl;
    rewrite ?brace_balance_app, ?Ha; try lia; try done;
    apply prefixes_nonneg_snoc; try done; rewrite brace_balance_app, Ha; lia.
Qed.

Lemma balance_loop_inv text st :
  balance_inv st -> balance_inv (fold_left balance_step text st).
Proof.
  revert st. induction text as [|a text IH]; intros st Hst; [done|].
  simpl. apply IH. by apply balance_step_inv.
Qed.

(** C3: the output of [_balance_braces] has as many opening as closing
    braces, and no prefix of it closes more braces than it opened. *)
Theorem balance_braces_balanced (text : str) :
  count_char "{" (_balance_braces text) = count_char "}" (_balance_braces text)
  /\ forall n, (0 <= brace_balance (take n (_balance_braces text)))%Z.
Proof.
  unfold _balance_braces.
  pose proof (balance_loop_inv (strip text) ([], 0%Z)) as H.
  destruct (fold_left balance_step (strip text) ([], 0%Z)) as [res cnt].
  destruct H as [Hc Hp]; [split; [done|apply prefixes_nonneg_nil]|].
  simpl in Hc, Hp.
  pose proof (Hp (length res)) as H0. rewrite take_ge in H0 by done.
  assert (Hb : forall y, brace_balance y = 0%Z -> count_char "{" y = count_char "}" y).
  { unfold brace_balance. intros y. lia. }
  destruct (0 <? cnt)%Z eqn:E.
  - split.
    + apply Hb. rewrite brace_balance_app. unfold brace_balance at 2.
      rewrite count_char_repeat_same, count_char_repeat_other by done. lia.
    + apply prefixes_nonneg_closing; [done|lia].
  - split; [apply Hb; lia|exact Hp].
Qed.

(** ** The search client: proofs *)

Lemma starts_with_iff pre x :
  starts_with pre x = true <-> exists r, x = pre ++ r.
Proof.
  revert x. induction pre as [|p pre IH]; intros x; simpl.
  - split; [eauto|done].
  - destruct x as [|c x].
    + split; [done|]. by intros [r Hr].
    + rewrite andb_true_iff, IH. unfold eqc. rewrite Ascii.eqb_eq. split.
      * intros [-> [r ->]]. eauto.
      * intros [r Hr]. simplify_eq/=. eauto.
Qed.

Lemma contains_iff sub x : contains sub x = true <-> substring sub x.
Proof.
  unfold substring. induction x as [|c x IH]; simpl.
  - rewrite orb_false_r, starts_with_iff. split.
    + intros [r Hr]. by exists [], r.
    + intros (l & r & H). destruct l; [eauto|done].
  - rewrite orb_true_iff, starts_with_iff, IH. split.
    + intros [[r Hr]|(l & r & Hr)]; [by exists [], r|].
      exists (c :: l), r. by rewrite Hr.
    + intros (l & r & Hr). destruct l as [|a l]; [left; eauto|].
      right. simplify_eq/=. eauto.
Qed.

Lemma is_arxiv_hit_iff hit : _is_arxiv_hit hit = true <-> preprint_venue hit.
Proof.
  unfold _is_arxiv_hit, preprint_venue, venue_text.
  destruct (default (VenueStr []) (info_venue (get_info hit))) as [t|t|].
  - rewrite orb_true_iff, !contains_iff. split.
    + intros H. by exists t.
    + by intros (? & [= <-] & H).
  - rewrite orb_true_iff, !contains_iff. split.
    + intros H. by exists (default [] t).
    + by intros (? & [= <-] & H).
  - split; [done|]. by intros (? & ? & _).
Qed.

Lemma select_hit_array hits :
  select_hit (HitsArray hits) =
  match _filter_arxiv_hits hits with
  | [h] => Some h
  | _ => None
  end.
Proof.
  unfold select_hit. by destruct (_filter_arxiv_hits hits) as [|h [|h' l]].
Qed.

Lemma lit_i_at_not_space a :
  is_space a = true -> eqc (lower_char "@") (lower_char a) = false.
Proof. by destruct a as [[] [] [] [] [] [] [] []]. Qed.

Lemma match_at_entry_all_space i x :
  forallb is_space x = true -> match_at entry_pattern i x = None.
Proof.
  unfold match_at, entry_pattern, lit_i. simpl. destruct x as [|a x]; [done|].
  simpl. intros [Ha _]%andb_true_iff. by rewrite lit_i_at_not_space.
Qed.

Lemma forallb_drop (p : ascii -> bool) j x :
  forallb p x = true -> forallb p (drop j x) = true.
Proof.
  intros H. rewrite <- (take_drop j x), forallb_app in H.
  by apply andb_true_iff in H as [_ H].
Qed.

(** A text of whitespace only has no entry. *)
Lemma parse_content_blank body : strip body = [] -> parse_content body = [].
Proof.
  intros H%strip_nil_all_space. unfold parse_content, finditer.
  rewrite finditer_from_no_match; [done|]. intros j _.
  by apply match_at_entry_all_space, forallb_drop.
Qed.

Section ClientProofs.

Context {World : Type}.
Variable http_search : str -> World -> option (option HitsField) * World.
Variable http_bib : str -> World -> option str * World.
Variable sleep : World -> World.
Variable quote_plus : str -> str.
Variable max_retries : nat.

Lemma search_attempt_sound title w r w' :
  search_attempt http_search sleep quote_plus title w = (Some (Some r), w') ->
  exists q w0 data w1,
    http_search q w0 = (Some data, w1) /\
    select_hit (extract_hit_list data) = Some r.
Proof.
  unfold search_attempt.
  destruct (http_search _ w) as [[data|] w1] eqn:E1; [|done].
  destruct (falsy (extract_hit_list data)) eqn:F1.
  - destruct (http_search (quote_plus title) w1) as [[data2|] w2] eqn:E2;
      [|done].
    destruct (falsy (extract_hit_list data2)); [done|].
    intros H. simplify_eq. by exists (quote_plus title), w1, data2, w2.
  - rewrite F1. intros H. simplify_eq. by eexists _, w, data, w1.
Qed.

Lemma search_loop_sound title attempts w r w' :
  search_loop http_search sleep quote_plus max_retries title attempts w
  = (Some r, w') ->
  exists q w0 data w1,
    http_search q w0 = (Some data, w1) /\
    select_hit (extract_hit_list data) = Some r.
Proof.
  revert w. induction attempts as [|a rest IH]; intros w; simpl; [done|].
  destruct (search_attempt _ _ _ title w) as [[res|] w1] eqn:E.
  - intros H. simplify_eq. by eapply search_attempt_sound.
  - destruct (Nat.ltb _ _); [apply IH|done].
Qed.

Lemma search_by_title_sound title w r w' :
  search_by_title http_search sleep quote_plus max_retries title w
  = (Some r, w') ->
  exists q w0 data w1,
    http_search q w0 = (Some data, w1) /\
    select_hit (extract_hit_list data) = Some r.
Proof.
  unfold search_by_title. destruct (strip title); [done|].
  apply search_loop_sound.
Qed.

Lemma search_by_title_first_response title w hits w1 :
  strip title <> [] -> 0 < max_retries -> hits <> [] ->
  http_search (["034"] ++ title ++ ["034"]) w
  = (Some (Some (HitsDict (Some (HitsArray hits)))), w1) ->
  search_by_title http_search sleep quote_plus max_retries title w
  = (select_hit (HitsArray hits), sleep w1).
Proof.
  intros Ht Hr Hh Hq. unfold search_by_title.
  destruct (strip title); [done|].
  destruct max_retries as [|n]; [lia|]. cbn [seq search_loop].
  unfold search_attempt. rewrite Hq. cbn [extract_hit_list default].
  simpl. by destruct hits.
Qed.

Lemma download_loop_sound bib_url key attempts w e w' :
  download_loop http_bib max_retries bib_url key attempts w = (Some e, w') ->
  exists w0 body first rest,
    http_bib bib_url w0 = (Some body, w') /\
    parse_content body = first :: rest /\
    e = mkEntry (entry_type first) key (fields first).
Proof.
  revert w. induction attempts as [|a l IH]; intros w; simpl; [done|].
  destruct (http_bib bib_url w) as [[body|] w1] eqn:E.
  - destruct (strip body); [done|].
    destruct (parse_content body) as [|first rest] eqn:P; [done|].
    intros H. simplify_eq. by exists w, body, first, rest.
  - destruct (Nat.ltb _ _); [apply IH|done].
Qed.

Lemma main_loop_acc entries upd failed w :
  exists outs failed' w',
    fold_left (main_step http_search http_bib sleep quote_plus max_retries)
      entries (upd, failed, w) = (upd ++ outs, failed', w') /\
    Forall2 (resolved_from http_bib max_retries) entries outs.
Proof.
  revert upd failed w.
  induction entries as [|entry entries IH]; intros upd failed w;
    cbn [fold_left].
  - exists [], failed, w. by rewrite app_nil_r.
  - assert (Hstep : exists out failed1 w1,
      main_step http_search http_bib sleep quote_plus max_retries
        (upd, failed, w) entry = (upd ++ [out], failed1, w1) /\
      resolved_from http_bib max_retries entry out).
    { unfold main_step, resolved_from. destruct (get_title entry); [eauto 10|].
      destruct (search_by_title _ _ _ _ _ w) as [[hit|] w1]; [|eauto 10].
      destruct (download_bibtex_from_dblp _ _ hit (cite_key entry) w1)
        as [[e|] w2] eqn:D; eauto 10. }
    destruct Hstep as (out & failed1 & w1 & -> & Hout).
    destruct (IH (upd ++ [out]) failed1 w1) as (outs & failed' & w' & -> & Houts).
    exists (out :: outs), failed', w'. split; [|by constructor].
    by rewrite <- app_assoc.
Qed.

End ClientProofs.

Lemma download_returns_first_record_rekeyed_aux {World : Type}
    (http_bib : str -> World -> option str * World) max_retries hit key
    (w : World) e w' :
  download_bibtex_from_dblp http_bib max_retries hit key w = (Some e, w') ->
  exists body first rest,
    parse_content body = first :: rest /\
    e = mkEntry (entry_type first) key (fields first).
Proof.
  unfold download_bibtex_from_dblp.
  destruct (default [] (info_url (get_info hit))) as [|c url]; [done|].
  intros H. apply download_loop_sound in H
    as (w0 & body & first & rest & H1 & H2 & ->). eauto.
Qed.

(** C1: among the hits of a list, [search_by_title] accepts a hit exactly
    when it is the only one that is left after the hits whose venue text
    mentions arXiv or CoRR are removed, and returns none otherwise; whatever
    a search returns was selected this way from a response of the
    service. *)
Theorem search_accepts_the_single_survivor (hits : list Hit) :
  (forall h, select_hit (HitsArray hits) = Some h <->
             _filter_arxiv_hits hits = [h]) /\
  (length (_filter_arxiv_hits hits) <> 1 -> select_hit (HitsArray hits) = None) /\
  (forall h, In h (_filter_arxiv_hits hits) <-> In h hits /\ ~ preprint_venue h) /\
  (forall (World : Type) http_search sleep quote_plus max_retries title
          (w w1 : World),
     strip title <> [] -> 0 < max_retries -> hits <> [] ->
     http_search (["034"] ++ title ++ ["034"]) w
     = (Some (Some (HitsDict (Some (HitsArray hits)))), w1) ->
     search_by_title http_search sleep quote_plus max_retries title w
     = (select_hit (HitsArray hits), sleep w1)) /\
  (forall (World : Type) http_search sleep quote_plus max_retries title
          (w w' : World) h,
     search_by_title http_search sleep quote_plus max_retries title w
     = (Some h, w') ->
     exists q w0 data w1,
       http_search q w0 = (Some data, w1) /\
       select_hit (extract_hit_list data) = Some h).
Proof.
  split; [|split; [|split; [|split]]].
  - intros h. rewrite select_hit_array.
    destruct (_filter_arxiv_hits hits) as [|h1 [|h2 l]]; split; congruence.
  - rewrite select_hit_array.
    destruct (_filter_arxiv_hits hits) as [|h1 [|h2 l]]; simpl; congruence.
  - intros h. unfold _filter_arxiv_hits. rewrite List.filter_In.
    rewrite <- is_arxiv_hit_iff. destruct (_is_arxiv_hit h); simpl;
      split; intros [? ?]; split; congruence.
  - intros. by apply search_by_title_first_response.
  - intros. by eapply search_by_title_sound.
Qed.

Lemma search_accepts_the_single_survivor_witness :
  let hits := [mock_hit "CoRR" "u1"; mock_hit "ICML" "u2";
               mock_hit "arXiv preprint" "u3"] in
  _filter_arxiv_hits hits = [mock_hit "ICML" "u2"] /\
  select_hit (HitsArray hits) = Some (mock_hit "ICML" "u2") /\
  fst (search_by_title (mock_search hits) S (fun q => q) 3 (s "A title") 0)
  = Some (mock_hit "ICML" "u2").
Proof.
  intros hits.
  pose proof (search_accepts_the_single_survivor hits) as (H & _ & _ & Hs & _).
  assert (Hf : _filter_arxiv_hits hits = [mock_hit "ICML" "u2"])
    by (vm_compute; reflexivity).
  split; [exact Hf|]. split; [apply H; exact Hf|].
  rewrite (Hs nat (mock_search hits) S (fun q => q) 3 (s "A title") 0 1);
    [apply H; exact Hf|done|lia|done|reflexivity].
Defined.

(** C2: the loop of [main] yields one output record per input record, in
    input order; the record at a position is the input record of that
    position or the record retrieved for its key; and the file that [main]
    writes has the serialization of each of them, in this order. *)
Theorem main_loop_one_output_per_entry {World : Type}
    (http_search : str -> World -> option (option HitsField) * World)
    (http_bib : str -> World -> option str * World)
    (sleep : World -> World) (quote_plus : str -> str) (max_retries : nat)
    (entries : list BibtexEntry) (w : World) :
  let updated_entries :=
    fst (fst (main_loop http_search http_bib sleep quote_plus max_retries
                entries w)) in
  length updated_entries = length entries /\
  Forall2 (resolved_from http_bib max_retries) entries updated_entries /\
  forall content,
    parse_content content = entries -> entries <> [] ->
    main http_search http_bib sleep quote_plus max_retries content w
    = Some (updated_entries,
            concat (map (fun entry => to_bibtex entry ++ ["010"; "010"])
                        updated_entries)).
Proof.
  unfold main_loop.
  destruct (main_loop_acc http_search http_bib sleep quote_plus max_retries
              entries [] [] w) as (outs & failed & w' & Hloop & H).
  rewrite Hloop. simpl. split; [|split; [done|]].
  - symmetry. by eapply Forall2_length.
  - intros content Hc Hne. unfold main. rewrite Hc.
    destruct entries as [|e0 es]; [done|].
    unfold main_loop. by rewrite Hloop.
Qed.

Lemma main_loop_one_output_per_entry_witness :
  let entries :=
    [BibtexEntry_init (s "misc") (s "a") (<[s "title" := s "T"]> ∅);
     BibtexEntry_init (s "misc") (s "b") ∅] in
  let content :=
    s "@misc{a," ++ ["010"] ++ s "  title = {T}" ++ ["010"] ++ s "}"
    ++ ["010"; "010"] ++ s "@misc{b," ++ ["010"] ++ s "}" in
  main (mock_search [mock_hit "CoRR" "u"]) (mock_bib []) S (fun q => q) 3
    content 0
  = Some (entries,
          concat (map (fun entry => to_bibtex entry ++ ["010"; "010"]) entries)).
Proof.
  intros entries content.
  destruct (main_loop_one_output_per_entry
    (mock_search [mock_hit "CoRR" "u"]) (mock_bib []) S (fun q => q) 3
    entries 0) as (_ & _ & Hmain).
  rewrite (Hmain content); [|vm_compute; reflexivity|done].
  vm_compute. reflexivity.
Defined.

(** C9: a successful retrieval returns the first record parsed from the
    downloaded text, with the key replaced by the given one and the kind
    and fields as parsed; and a download whose text parses to at least one
    record succeeds in this way. *)
Theorem download_returns_first_record_rekeyed {World : Type}
    (http_bib : str -> World -> option str * World) (max_retries : nat)
    (hit : Hit) (key : str) (w : World) :
  (forall e w',
     download_bibtex_from_dblp http_bib max_retries hit key w = (Some e, w') ->
     exists bib_url w0 body first rest,
       http_bib bib_url w0 = (Some body, w') /\
       parse_content body = first :: rest /\
       e = set_cite_key first key /\
       cite_key e = key /\ entry_type e = entry_type first /\
       fields e = fields first) /\
  (forall url body w1 first rest,
     info_url (get_info hit) = Some url -> url <> [] -> 0 < max_retries ->
     http_bib (url ++ s ".bib?param=1") w = (Some body, w1) ->
     parse_content body = first :: rest ->
     download_bibtex_from_dblp http_bib max_retries hit key w
     = (Some (set_cite_key first key), w1)).
Proof.
  split.
  - intros e w'. unfold download_bibtex_from_dblp.
    destruct (default [] (info_url (get_info hit))) as [|c url]; [done|].
    intros H. apply download_loop_sound in H
      as (w0 & body & first & rest & H1 & H2 & ->).
    by exists ((c :: url) ++ s ".bib?param=1"), w0, body, first, rest.
  - intros url body w1 first rest Hu Hne Hr Hb Hp.
    unfold download_bibtex_from_dblp. rewrite Hu. simpl.
    destruct url as [|c url]; [done|].
    destruct max_retries as [|n]; [lia|]. simpl in *. rewrite Hb.
    destruct (strip body) eqn:Hs; [|by rewrite Hp].
    apply parse_content_blank in Hs. congruence.
Qed.

Lemma download_returns_first_record_rekeyed_witness :
  fst (download_bibtex_from_dblp
         (mock_bib (s "@InProceedings{DBLP:conf/x," ++ ["010"]
                      ++ s "  year = {2020}" ++ ["010"] ++ s "}"))
         3 (mock_hit "ICML" "https://dblp.org/rec/conf/x") (s "mine") 0)
  = Some (mkEntry (s "inproceedings") (s "mine") (<[s "year" := s "2020"]> ∅)).
Proof.
  pose proof (download_returns_first_record_rekeyed
    (mock_bib (s "@InProceedings{DBLP:conf/x," ++ ["010"]
                 ++ s "  year = {2020}" ++ ["010"] ++ s "}"))
    3 (mock_hit "ICML" "https://dblp.org/rec/conf/x") (s "mine") 0)
    as [_ H].
  rewrite (H (s "https://dblp.org/rec/conf/x")
             (s "@InProceedings{DBLP:conf/x," ++ ["010"]
                ++ s "  year = {2020}" ++ ["010"] ++ s "}") 1
             (mkEntry (s "inproceedings") (s "DBLP:conf/x")
                (<[s "year" := s "2020"]> ∅)) []);
    [reflexivity|reflexivity|done|lia|reflexivity|vm_compute; reflexivity].
Defined.

(** ** Title extraction: proofs *)

Lemma forallb_filter_self (p : ascii -> bool) x :
  forallb p (List.filter p x) = true.
Proof.
  induction x as [|a x IH]; simpl; [done|].
  destruct (p a) eqn:E; simpl; [by rewrite E|done].
Qed.

Lemma forallb_collapse_from (p : ascii -> bool) b x :
  p " " = true -> forallb p x = true -> forallb p (collapse_from b x) = true.
Proof.
  intros Hsp. revert b. induction x as [|a x IH]; intros b; simpl; [done|].
  intros [Ha Hx]%andb_true_iff.
  destruct (is_space a), b; simpl; rewrite ?Ha, ?Hsp; simpl; by apply IH.
Qed.

Lemma forallb_strip (p : ascii -> bool) x :
  forallb p x = true -> forallb p (strip x) = true.
Proof.
  destruct (strip_decomp x) as (w1 & w2 & Hx & _). rewrite Hx at 1.
  rewrite !forallb_app. intros H.
  apply andb_true_iff in H as [_ H]. by apply andb_true_iff in H as [H _].
Qed.

Lemma filter_not_space_all_space w :
  forallb is_space w = true -> List.filter not_space w = [].
Proof.
  induction w as [|a w IH]; simpl; [done|].
  intros [Ha Hw]%andb_true_iff. unfold not_space at 1. rewrite Ha. simpl.
  by apply IH.
Qed.

Lemma filter_not_space_strip x :
  List.filter not_space (strip x) = List.filter not_space x.
Proof.
  destruct (strip_decomp x) as (w1 & w2 & Hx & H1 & H2).
  transitivity (List.filter not_space (w1 ++ strip x ++ w2));
    [|by rewrite <- Hx].
  rewrite !List.filter_app, (filter_not_space_all_space w1 H1),
    (filter_not_space_all_space w2 H2).
  by rewrite app_nil_r.
Qed.

Lemma filter_not_space_collapse b x :
  List.filter not_space (collapse_from b x) = List.filter not_space x.
Proof.
  revert b. induction x as [|a x IH]; intros b; simpl; [done|].
  unfold not_space at 2. destruct (is_space a) eqn:E; simpl.
  - destruct b; simpl; [apply IH|]. unfold not_space at 1.
    replace (is_space " ") with true by reflexivity. simpl. apply IH.
  - unfold not_space at 1. rewrite E. simpl. by rewrite IH.
Qed.

Lemma filter_not_space_remove_braces x :
  List.filter not_space (remove_braces x) =
  List.filter (fun a => (not_space a && not_brace a)%bool) x.
Proof.
  unfold remove_braces. induction x as [|a x IH]; simpl; [done|].
  unfold not_brace. destruct (is_brace a); simpl.
  - by rewrite andb_false_r.
  - rewrite andb_true_r. destruct (not_space a); by rewrite IH.
Qed.

Lemma get_title_eq e :
  get_title e = strip (collapse_spaces (remove_braces (strip (title_of e)))).
Proof. unfold get_title. by rewrite sub_braces, sub_spaces. Qed.

(** C8: [get_title] returns the title without brace characters, with every
    run of whitespace turned into one space and none left at the ends; it
    is the empty string when the record has no title.  Being a total
    function, it has a result for every record. *)
Theorem get_title_strips_braces_collapses_spaces (e : BibtexEntry) :
  get_title e = strip (collapse_spaces (remove_braces (strip (title_of e))))
  /\ (fields e !! s "title" = None -> get_title e = [])
  /\ forallb not_brace (get_title e) = true
  /\ (forall l a r, get_title e = l ++ a :: r -> is_space a = true ->
        a = " " /\ l <> [] /\ r <> [] /\ stops is_space r)
  /\ List.filter not_space (get_title e)
     = List.filter (fun a => (not_space a && not_brace a)%bool) (title_of e).
Proof.
  pose proof (get_title_eq e) as Heq. split; [exact Heq|]. split; [|split; [|split]].
  - intros Hnone. rewrite Heq. unfold title_of. by rewrite Hnone.
  - rewrite Heq. apply forallb_strip, forallb_collapse_from; [done|].
    apply forallb_filter_self.
  - intros l a r Hsplit Ha.
    set (y := collapse_spaces (remove_braces (strip (title_of e)))) in *.
    assert (Hl : l <> []).
    { intros ->. pose proof (strip_stops_l y) as H. rewrite <- Heq, Hsplit in H.
      simpl in H. congruence. }
    assert (Hr : r <> []).
    { intros ->. pose proof (strip_stops_r y) as H. rewrite <- Heq, Hsplit in H.
      rewrite rev_app_distr in H. simpl in H. congruence. }
    destruct (strip_decomp y) as (w1 & w2 & Hy & _).
    rewrite <- Heq, Hsplit in Hy.
    destruct (no_runs_split y (w1 ++ l) a (r ++ w2)) as [-> Hs].
    + apply collapse_from_no_runs.
    + by rewrite Hy, <- !app_assoc.
    + done.
    + repeat split; try done. by destruct r.
  - rewrite Heq, filter_not_space_strip. unfold collapse_spaces.
    rewrite filter_not_space_collapse, filter_not_space_remove_braces.
    destruct (strip_decomp (title_of e)) as (w1 & w2 & Hx & H1 & H2).
    assert (Hw : forall w, forallb is_space w = true ->
      List.filter (fun a => (not_space a && not_brace a)%bool) w = []).
    { induction w as [|c w IH]; simpl; [done|].
      intros [Hc Hw]%andb_true_iff. unfold not_space at 1. rewrite Hc.
      simpl. by apply IH. }
    transitivity (List.filter (fun a => (not_space a && not_brace a)%bool)
                    (w1 ++ strip (title_of e) ++ w2)); [|by rewrite <- Hx].
    by rewrite !List.filter_app, (Hw w1 H1), (Hw w2 H2), app_nil_r.
Qed.

Lemma get_title_strips_braces_collapses_spaces_witness :
  let e := BibtexEntry_init (s "Article") (s "k")
             (<[s "title" := s " {D}eep   {L}earning, a  {survey} "]> ∅) in
  get_title e = s "Deep Learning, a survey" /\
  get_title (BibtexEntry_init (s "misc") (s "k") ∅) = [].
Proof.
  intros e.
  pose proof (get_title_strips_braces_collapses_spaces e) as (H & _).
  pose proof (get_title_strips_braces_collapses_spaces
                (BibtexEntry_init (s "misc") (s "k") ∅)) as (_ & H0 & _).
  split; [rewrite H; vm_compute; reflexivity|apply H0; reflexivity].
Defined.

(** ** Cleaning a captured field value: proofs *)

Lemma drop_comma_snoc v a :
  drop_comma (v ++ [a]) = if eqc a "," then v else v ++ [a].
Proof.
  induction v as [|b v IH]; simpl; [done|].
  rewrite IH. destruct (v ++ [a]) eqn:E; [by destruct v|].
  by destruct (eqc a ",").
Qed.

Lemma drop_comma_id v :
  stops (eqc ",") (rev v) -> drop_comma v = v.
Proof.
  destruct v as [|a v] using rev_ind; [done|].
  rewrite rev_app_distr, drop_comma_snoc. simpl. rewrite eqc_sym.
  by intros ->.
Qed.

Lemma sub_from_bos r repl : forall x i n,
  i <> 0 -> sub_from (Cat Bos r) repl i n x = drop n x.
Proof.
  induction x as [|a x IH]; intros i n Hi.
  - destruct n; simpl; [|done]. by rewrite match_at_bos.
  - destruct n as [|n]; cbn [sub_from].
    + rewrite match_at_bos by done. simpl. f_equal.
      rewrite IH by lia. done.
    + by rewrite IH by lia.
Qed.

Lemma sub_bos r repl v :
  Re.sub (Cat Bos r) repl v =
  match match_at (Cat Bos r) 0 v with
  | Some (len, c) => repl c ++ drop len v
  | None => v
  end.
Proof.
  unfold Re.sub. destruct v as [|a v]; cbn [sub_from].
  - destruct (match_at _ 0 []) as [[len c]|]; [|done]. by destruct len.
  - destruct (match_at _ 0 (a :: v)) as [[len c]|].
    + destruct len as [|len]; rewrite sub_from_bos by lia; done.
    + rewrite sub_from_bos by lia. done.
Qed.

Lemma span_ge_prefix p m y : forallb p m = true -> length m <= span p (m ++ y).
Proof.
  induction m as [|a m IH]; simpl; [lia|].
  intros [-> Hm]%andb_true_iff. specialize (IH Hm). lia.
Qed.

Lemma close_at_end_sound closing x m rest :
  close_at_end closing x = Some (m, rest) ->
  exists b, x = m ++ b :: rest /\ closing b = true /\ at_end rest = true /\
            forallb dot_char m = true.
Proof.
  revert m. induction x as [|b x IH]; intros m; simpl; [done|].
  destruct (closing b && at_end x)%bool eqn:E.
  - intros [= <- <-]. apply andb_true_iff in E as [E1 E2]. by exists b.
  - destruct (dot_char b) eqn:D; [|done].
    destruct (close_at_end closing x) as [[m' rest']|]; [|done].
    intros [= <- <-]. destruct (IH m' eq_refl) as (b' & -> & ? & ? & ?).
    exists b'. simpl. by rewrite D.
Qed.

Lemma at_end_app_closing closing m b rest :
  closing "010" = false -> closing b = true ->
  at_end (m ++ b :: rest) = false.
Proof.
  intros Hnl Hb. destruct m as [|a [|a' m]]; simpl.
  - destruct rest; [|done]. apply eqc_false. congruence.
  - by destruct rest.
  - done.
Qed.

Lemma close_at_end_complete closing m b rest :
  closing "010" = false -> closing b = true -> at_end rest = true ->
  forallb dot_char m = true ->
  close_at_end closing (m ++ b :: rest) = Some (m, rest).
Proof.
  intros Hnl Hb Hr. induction m as [|a m IH]; simpl.
  - intros _. by rewrite Hb, Hr.
  - intros [Ha Hm]%andb_true_iff.
    rewrite (at_end_app_closing closing) by done.
    by rewrite andb_false_r, Ha, IH.
Qed.

Lemma at_end_drop rest j : at_end rest = true -> 0 < j -> drop j rest = [].
Proof.
  destruct rest as [|a [|b rest]]; intros Hr Hj; [by rewrite drop_nil| |done].
  destruct j; [lia|]. simpl. by rewrite drop_nil.
Qed.

Lemma match_at_wrapped opening closing a x :
  closing "010" = false ->
  match_at (re_wrapped opening closing) 0 (a :: x) =
  if opening a then
    match close_at_end closing x with
    | Some (m, rest) => Some (S (S (length m)), [(1, m)])
    | None => None
    end
  else None.
Proof.
  intros Hnl. unfold match_at, re_wrapped. simpl.
  destruct (opening a); [|done].
  set (k := fun (i' : nat) (x' : str) (c' : caps) => _).
  destruct (close_at_end closing x) as [[m rest]|] eqn:E.
  - apply close_at_end_sound in E as (b & -> & Hb & Hr & Hm).
    apply (star_greedy_pick dot_char 1 _ [] k (length m)).
    + by apply span_ge_prefix.
    + rewrite drop_app_length. unfold k. rewrite Hb.
      rewrite take_app_length'
        by (rewrite Nat.add_comm, Nat.add_sub; reflexivity).
      destruct rest as [|n [|n' rest]]; simpl in Hr; [|rewrite Hr|done];
        do 2 f_equal; lia.
    + intros j' [Hj1 Hj2]. unfold k.
      replace j' with (length m + (S (j' - S (length m)))) by lia.
      rewrite drop_app_add'; [|done]. simpl.
      destruct (j' - S (length m)) as [|d] eqn:Ed.
      * simpl. destruct rest as [|n [|n' rest]]; simpl in Hr; [done| |done].
        apply eqc_true in Hr as ->. simpl. by rewrite Hnl.
      * rewrite (at_end_drop rest (S d)) by (done || lia). done.
  - apply star_greedy_none. intros j Hj. unfold k.
    destruct (drop j x) as [|b rest] eqn:D; [done|].
    destruct (closing b) eqn:Hb; [|done].
    assert (Hx : x = take j x ++ b :: rest) by (by rewrite <- D, take_drop).
    assert (at_end rest = true -> False) as Hr.
    { intros Hr. rewrite Hx in E.
      rewrite (close_at_end_complete closing) in E; [done..|].
      by apply span_prefix. }
    destruct rest as [|n [|n' rest]]; [by destruct Hr| |done].
    destruct (eqc n "010") eqn:En; [|done]. by destruct Hr.
Qed.

Lemma sub_wrapped opening closing v :
  closing "010" = false ->
  Re.sub (re_wrapped opening closing) (group 1) v = unwrap opening closing v.
Proof.
  intros Hnl. unfold re_wrapped at 1. cbn [cat fold_right].
  rewrite sub_bos. change (Cat Bos _) with (re_wrapped opening closing).
  destruct v as [|a x]; [done|].
  rewrite match_at_wrapped by done. unfold unwrap.
  destruct (opening a); [|done].
  destruct (close_at_end closing x) as [[m rest]|] eqn:E; [|done].
  apply close_at_end_sound in E as (b & -> & _). simpl. f_equal.
  replace (m ++ b :: rest) with ((m ++ [b]) ++ rest) by (by rewrite <- app_assoc).
  rewrite drop_app_length'; [done|]. rewrite length_app. simpl. lia.
Qed.

Lemma at_end_all_space x : at_end x = true -> forallb is_space x = true.
Proof.
  destruct x as [|a [|b x]]; simpl; [done| |done].
  intros ->%eqc_true. done.
Qed.

Lemma all_space_not_stops y z :
  y <> [] -> forallb is_space y = true -> stops is_space (rev y ++ z) -> False.
Proof.
  intros Hne Hy. rewrite <- forallb_rev in Hy.
  destruct (rev y) as [|a r] eqn:E.
  - apply (f_equal (@rev ascii)) in E. rewrite rev_involutive in E. done.
  - simpl in *. apply andb_true_iff in Hy as [Ha _]. congruence.
Qed.

Lemma match_at_trailing_comma i a x :
  stops is_space (rev (a :: x)) ->
  match_at re_trailing_comma i (a :: x) =
  if eqc "," a then match x with [] => Some (1, []) | _ => None end
  else None.
Proof.
  intros Hlast. unfold match_at, re_trailing_comma, lit. simpl.
  destruct (eqc "," a); [|done].
  destruct x as [|b x]; [simpl; do 2 f_equal; lia|].
  apply star_greedy_none. intros j Hj.
  assert (Hne : at_end (drop j (b :: x)) = false).
  { destruct (at_end (drop j (b :: x))) eqn:E; [exfalso|done].
    apply at_end_all_space in E. apply span_prefix in Hj.
    apply (all_space_not_stops (b :: x) [a]); [done| |exact Hlast].
    rewrite <- (take_drop j (b :: x)), forallb_app. by rewrite Hj, E. }
  destruct (drop j (b :: x)) as [|n [|n' y]]; simpl in Hne; [done| |done].
  by rewrite Hne.
Qed.

Lemma sub_trailing_comma_from x : forall i,
  x <> [] -> stops is_space (rev x) ->
  sub_from re_trailing_comma (const_repl []) i 0 x = drop_comma x.
Proof.
  induction x as [|a x IH]; intros i Hne Hlast; [done|].
  cbn [sub_from]. rewrite match_at_trailing_comma by done.
  destruct x as [|b x].
  - simpl. rewrite (eqc_sym a). destruct (eqc "," a); [|done].
    unfold match_at, re_trailing_comma, lit. by simpl.
  - assert (Hx : sub_from re_trailing_comma (const_repl []) (S i) 0 (b :: x)
                 = drop_comma (b :: x)).
    { apply IH; [done|]. simpl in Hlast |- *.
      destruct (rev x ++ [b]) eqn:E; [by destruct (rev x)|]. exact Hlast. }
    destruct (eqc "," a); by rewrite Hx.
Qed.

Lemma sub_trailing_comma v :
  stops is_space (rev v) ->
  Re.sub re_trailing_comma (const_repl []) v = drop_comma v.
Proof.
  intros H. destruct v as [|a v].
  - by unfold Re.sub, match_at, re_trailing_comma, lit.
  - by apply sub_trailing_comma_from.
Qed.

(** The closed form of [clean_value]. *)
Lemma clean_value_eq raw :
  clean_value raw = unwrap_braces (unwrap_quotes (drop_comma (strip raw))).
Proof.
  unfold clean_value. rewrite sub_trailing_comma by apply strip_stops_r.
  change re_quoted with (re_wrapped is_quote is_quote).
  change re_braced with (re_wrapped (eqc "{") (eqc "}")).
  by rewrite !sub_wrapped.
Qed.

Lemma unwrap_wrapped opening closing a m b rest :
  closing "010" = false ->
  opening a = true -> closing b = true -> forallb dot_char m = true ->
  at_end rest = true ->
  unwrap opening closing (a :: m ++ b :: rest) = m ++ rest.
Proof.
  intros Hnl Ha Hb Hm Hr. unfold unwrap. rewrite Ha.
  by rewrite close_at_end_complete.
Qed.

Lemma unwrap_cases opening closing v :
  unwrap opening closing v = v \/
  exists a m b rest,
    v = a :: m ++ b :: rest /\ opening a = true /\ closing b = true /\
    forallb dot_char m = true /\ at_end rest = true /\
    unwrap opening closing v = m ++ rest.
Proof.
  unfold unwrap. destruct v as [|a x]; [by left|].
  destruct (opening a) eqn:Ha; [|by left].
  destruct (close_at_end closing x) as [[m rest]|] eqn:E; [|by left].
  apply close_at_end_sound in E as (b & -> & Hb & Hr & Hm).
  right. by exists a, m, b, rest.
Qed.

Lemma close_at_end_last closing x b :
  closing "010" = false -> forallb dot_char (x ++ [b]) = true ->
  close_at_end closing (x ++ [b]) =
  if closing b then Some (x, []) else None.
Proof.
  intros Hnl Hd. rewrite forallb_app in Hd.
  apply andb_true_iff in Hd as [Hx Hb].
  destruct (closing b) eqn:Eb; [by apply close_at_end_complete|].
  destruct (close_at_end closing (x ++ [b])) as [[m rest]|] eqn:E; [|done].
  apply close_at_end_sound in E as (b' & Heq & Hb' & Hr & _).
  destruct rest as [|n [|n' rest]]; [| |done].
  - apply app_inj_tail in Heq as [_ ->]. congruence.
  - simpl in Hr. apply eqc_true in Hr as ->.
    change (m ++ [b'; "010"]) with (m ++ [b'] ++ ["010"]) in Heq.
    rewrite app_assoc in Heq. apply app_inj_tail in Heq as [_ ->].
    simpl in Hb. done.
Qed.

(** On a value without line feed the removal of a pair looks at the first
    and the last character only. *)
Lemma unwrap_eq_pair opening closing v :
  closing "010" = false -> forallb dot_char v = true ->
  unwrap opening closing v = unwrap_pair opening closing v.
Proof.
  intros Hnl Hd. destruct v as [|a x]; [done|]. simpl in Hd.
  apply andb_true_iff in Hd as [_ Hx]. unfold unwrap, unwrap_pair.
  destruct (rev x) as [|b m] eqn:E.
  - apply (f_equal (@rev ascii)) in E. rewrite rev_involutive in E.
    subst x. by destruct (opening a).
  - apply (f_equal (@rev ascii)) in E. rewrite rev_involutive in E.
    simpl in E. subst x. rewrite close_at_end_last by done.
    destruct (opening a), (closing b); simpl; by rewrite ?app_nil_r.
Qed.

Lemma forallb_drop_comma (p : ascii -> bool) v :
  forallb p v = true -> forallb p (drop_comma v) = true.
Proof.
  destruct v as [|a v] using rev_ind; [done|].
  rewrite drop_comma_snoc, forallb_app.
  intros [Hv Ha]%andb_true_iff. destruct (eqc a ","); [done|].
  by rewrite forallb_app, Hv, Ha.
Qed.

Lemma forallb_strip_any (p : ascii -> bool) x :
  forallb p x = true -> forallb p (strip x) = true.
Proof.
  destruct (strip_decomp x) as (w1 & w2 & Hx & _). rewrite Hx at 1.
  rewrite !forallb_app. intros H.
  apply andb_true_iff in H as [_ H]. by apply andb_true_iff in H as [H _].
Qed.

Lemma forallb_unwrap_pair (p : ascii -> bool) opening closing v :
  forallb p v = true -> forallb p (unwrap_pair opening closing v) = true.
Proof.
  intros Hv. destruct v as [|a x]; [done|]. unfold unwrap_pair.
  destruct (rev x) as [|b m] eqn:E; [done|].
  destruct (opening a && closing b)%bool; [|done].
  simpl in Hv. apply andb_true_iff in Hv as [_ Hx].
  rewrite <- forallb_rev, E in Hx. simpl in Hx.
  apply andb_true_iff in Hx as [_ Hm]. by rewrite forallb_rev.
Qed.

Lemma unwrap_pair_wrapped opening closing a m b :
  opening a = true -> closing b = true ->
  unwrap_pair opening closing (a :: m ++ [b]) = m.
Proof.
  intros Ha Hb. unfold unwrap_pair. rewrite rev_app_distr. simpl.
  by rewrite Ha, Hb, rev_involutive.
Qed.

Lemma unwrap_pair_cases opening closing v :
  unwrap_pair opening closing v = v \/
  exists a m b, v = a :: m ++ [b] /\ opening a = true /\ closing b = true /\
                unwrap_pair opening closing v = m.
Proof.
  destruct v as [|a x]; [by left|]. unfold unwrap_pair.
  destruct (rev x) as [|b m] eqn:E; [by left|].
  destruct (opening a) eqn:Ha; [|by left].
  destruct (closing b) eqn:Hb; [|by left]. right.
  apply (f_equal (@rev ascii)) in E. rewrite rev_involutive in E.
  simpl in E. subst x. by exists a, (rev m), b.
Qed.

(** C7 (amended): a captured value without line feed is trimmed, loses
    one trailing comma, then an enclosing pair of quote characters, and then
    an enclosing pair of braces; each pair is removed only when it is the
    first and the last character, and at most once.  The two removals are
    applied one after the other, so a quoted value whose content is braced
    loses both pairs. *)
Theorem clean_value_unwraps_quotes_then_braces (raw : str) :
  forallb dot_char raw = true ->
  clean_value raw
  = unwrap_pair is_open_brace is_close_brace
      (unwrap_pair is_quote is_quote (drop_comma (strip raw)))
  /\ (forall v a, drop_comma (v ++ [a]) = if eqc a "," then v else v ++ [a])
  /\ (forall v, unwrap_pair is_quote is_quote v = v \/
        exists a m b,
          v = a :: m ++ [b] /\ is_quote a = true /\ is_quote b = true /\
          unwrap_pair is_quote is_quote v = m)
  /\ (forall v, unwrap_pair is_open_brace is_close_brace v = v \/
        exists m, v = "{" :: m ++ ["}"] /\
                  unwrap_pair is_open_brace is_close_brace v = m)
  /\ (forall m, unwrap_pair is_open_brace is_close_brace ("{" :: m ++ ["}"]) = m).
Proof.
  intros Hd. split; [|split; [apply drop_comma_snoc|split; [|split]]].
  - rewrite clean_value_eq. unfold unwrap_quotes, unwrap_braces.
    assert (H1 : forallb dot_char (drop_comma (strip raw)) = true)
      by by apply forallb_drop_comma, forallb_strip_any.
    rewrite (unwrap_eq_pair is_quote is_quote) by done.
    rewrite unwrap_eq_pair; [done..|]. by apply forallb_unwrap_pair.
  - apply unwrap_pair_cases.
  - intros v. destruct (unwrap_pair_cases is_open_brace is_close_brace v)
      as [H|(a & m & b & -> & Ha & Hb & H)]; [by left|right].
    unfold is_open_brace in Ha. unfold is_close_brace in Hb.
    apply eqc_true in Ha as <-. apply eqc_true in Hb as <-. by exists m.
  - intros m. by apply unwrap_pair_wrapped.
Qed.

Lemma clean_value_unwraps_quotes_then_braces_witness :
  clean_value (s " {Deep Learning}, ") = s "Deep Learning".
Proof.
  destruct (clean_value_unwraps_quotes_then_braces (s " {Deep Learning}, "))
    as (H & _); [reflexivity|].
  rewrite H. vm_compute. reflexivity.
Defined.

(** C7 as stated fails: from a quoted value whose content is braced the
    code removes the quote pair and the brace pair, where the statement
    allows one of them only. *)
Lemma clean_value_removes_quotes_and_braces :
  let raw := ["034"] ++ s "{abc}" ++ ["034"] in
  clean_value raw = s "abc" /\
  clean_value_spec raw = s "{abc}" /\
  clean_value raw <> clean_value_spec raw.
Proof. vm_compute. repeat split; congruence. Qed.

(** ** Minimal serialization: proofs *)

Lemma to_bibtex_loop e keys lines :
  fold_left (to_bibtex_step e) keys lines =
  lines ++ map (field_line e) (List.filter (present e) keys).
Proof.
  revert lines. induction keys as [|key keys IH]; intros lines; simpl.
  - by rewrite app_nil_r.
  - rewrite IH. unfold to_bibtex_step, present, field_line.
    destruct (fields e !! key) as [[|a v]|] eqn:E; simpl; try done.
    rewrite E. by rewrite <- app_assoc.
Qed.

Lemma to_bibtex_lines_eq e :
  to_bibtex_lines e =
  [header_line e] ++ map (field_line e) (emitted_fields e) ++ [s "}"].
Proof.
  unfold to_bibtex_lines. rewrite to_bibtex_loop. by rewrite <- app_assoc.
Qed.

Lemma filter_sublist {A} (p : A -> bool) (l : list A) :
  sublist (List.filter p l) l.
Proof.
  induction l as [|a l IH]; simpl; [constructor|].
  destruct (p a); by constructor.
Qed.

(** C5: the serialization has its field lines for names of the fixed list
    only, in the order of that list, and for exactly those names of the
    list that the record maps to a non-empty value. *)
Theorem to_bibtex_emits_allow_listed_fields (e : BibtexEntry) :
  to_bibtex e =
    join ["010"]
      ([header_line e] ++ map (field_line e) (emitted_fields e) ++ [s "}"])
  /\ sublist (emitted_fields e)
       [s "author"; s "title"; s "booktitle"; s "journal"; s "year";
        s "pages"; s "volume"; s "number"]
  /\ (forall key,
        In key (emitted_fields e) <->
        In key essential_fields /\
        exists v, fields e !! key = Some v /\ v <> [])
  /\ (forall key, exists value,
        field_line e key = s "  " ++ key ++ s " = " ++ value ++ s ",").
Proof.
  split; [unfold to_bibtex; by rewrite to_bibtex_lines_eq|].
  split; [apply (filter_sublist (present e) essential_fields)|]. split.
  - intros key. unfold emitted_fields. rewrite List.filter_In. unfold present.
    split.
    + intros [Hin Hp]. split; [done|].
      destruct (fields e !! key) as [[|a v]|]; [done| |done]. by eexists.
    + intros [Hin (v & -> & Hv)]. split; [done|]. by destruct v.
  - intros key. by eexists.
Qed.

Lemma to_bibtex_emits_allow_listed_fields_witness :
  let e := BibtexEntry_init (s "Article") (s "k1")
             (<[s "title" := s "T"]> (<[s "venue" := s "noise"]>
                (<[s "year" := []]> (<[s "author" := s "A B"]> ∅)))) in
  emitted_fields e = [s "author"; s "title"] /\ In (s "title") (emitted_fields e).
Proof.
  intros e. split; [vm_compute; reflexivity|].
  apply (to_bibtex_emits_allow_listed_fields e). split.
  - unfold essential_fields. simpl. tauto.
  - exists (s "T"). split; [vm_compute; reflexivity|done].
Defined.

Lemma lower_char_idem a : lower_char (lower_char a) = lower_char a.
Proof. by destruct a as [[] [] [] [] [] [] [] []]. Qed.

Lemma lower_char_no_upper a : no_upper (lower_char a) = true.
Proof. by destruct a as [[] [] [] [] [] [] [] []]. Qed.

Lemma lower_idem x : lower (lower x) = lower x.
Proof.
  unfold lower. rewrite map_map. apply map_ext. apply lower_char_idem.
Qed.

Lemma lower_no_upper x : forallb no_upper (lower x) = true.
Proof.
  induction x as [|a x IH]; simpl; [done|].
  by rewrite lower_char_no_upper, IH.
Qed.

Lemma parse_content_loop ms acc :
  fold_left parse_content_step ms acc =
  acc ++ map (fun m => BibtexEntry_init (group 1 (snd m)) (group 2 (snd m))
                         (_parse_fields (group 3 (snd m)))) ms.
Proof.
  revert acc. induction ms as [|m ms IH]; intros acc; simpl.
  - by rewrite app_nil_r.
  - rewrite IH. unfold parse_content_step. by rewrite <- app_assoc.
Qed.

Lemma parse_content_lowercase content :
  Forall (fun e => is_lowercase (entry_type e)) (parse_content content).
Proof.
  unfold parse_content. rewrite parse_content_loop. simpl.
  apply Forall_map, Forall_forall. intros m _. apply lower_idem.
Qed.

(** C10: the constructor lowers the kind; every parsed record and every
    retrieved record has a lowercase kind, whatever the case of the header
    in the text; the serialization opens with [@] and the kind. *)
Theorem kind_is_lowercase :
  (forall t k f,
     entry_type (BibtexEntry_init t k f) = lower t /\
     is_lowercase (lower t) /\ forallb no_upper (lower t) = true)
  /\ (forall content,
        Forall (fun e => is_lowercase (entry_type e)) (parse_content content))
  /\ (forall (World : Type) (http_bib : str -> World -> option str * World)
             max_retries hit key w e w',
        download_bibtex_from_dblp http_bib max_retries hit key w = (Some e, w') ->
        is_lowercase (entry_type e))
  /\ (forall e, exists rest, to_bibtex e = s "@" ++ entry_type e ++ s "{" ++ rest)
  /\ map entry_type
       (parse_content (s "@ARTICLE{Key1," ++ ["010"] ++ s "  title = {T}"
                         ++ ["010"] ++ s "}"))
     = [s "article"].
Proof.
  split; [|split; [|split; [|split]]].
  - intros t k f. split; [done|]. split; [apply lower_idem|apply lower_no_upper].
  - apply parse_content_lowercase.
  - intros World http_bib max_retries hit key w e w' H.
    apply download_returns_first_record_rekeyed_aux in H
      as (body & first & rest & Hp & ->).
    pose proof (parse_content_lowercase body) as Hl. rewrite Hp in Hl.
    by apply Forall_cons in Hl as [Hl _].
  - intros e. unfold to_bibtex. rewrite to_bibtex_lines_eq.
    destruct (map (field_line e) (emitted_fields e) ++ [s "}"])
      as [|l ls] eqn:E.
    + by destruct (map (field_line e) (emitted_fields e)).
    + exists (cite_key e ++ s "," ++ ["010"] ++ join ["010"] (l :: ls)).
      cbn [app join]. unfold header_line. by rewrite <- !app_assoc.
  - vm_compute. reflexivity.
Qed.

Lemma kind_is_lowercase_witness :
  is_lowercase
    (entry_type
       (set_cite_key (BibtexEntry_init (s "InProceedings") (s "dblp") ∅)
          (s "mine"))).
Proof.
  destruct kind_is_lowercase as (_ & _ & H & _).
  apply (H nat (mock_bib (s "@InProceedings{dblp," ++ ["010"] ++ s "}")) 3
           (mock_hit "ICML" "https://dblp.org/rec/x") (s "mine") 0 _ 1).
  vm_compute. reflexivity.
Defined.

(** ** The worked example: proofs *)

Lemma parse_example_input : parse_content example_input = [example_entry].
Proof. vm_compute. reflexivity. Qed.

Lemma parse_example_retrieved :
  parse_content example_retrieved
  = [set_cite_key example_updated (s "newkey")].
Proof. vm_compute. reflexivity. Qed.

Lemma to_bibtex_example_updated : to_bibtex example_updated = example_output.
Proof. vm_compute. reflexivity. Qed.

Lemma search_by_title_mock_single hit a title (w : nat) :
  strip (a :: title) = a :: title -> _is_arxiv_hit hit = false ->
  search_by_title (mock_search [hit]) S (fun q => q) 3 (a :: title) w
  = (Some hit, S (S w)).
Proof.
  intros Hs Hh. unfold search_by_title. rewrite Hs.
  change (seq 0 3) with [0; 1; 2]. cbn [search_loop].
  replace (search_attempt (mock_search [hit]) S (fun q => q) (a :: title) w)
    with (Some (select_hit (HitsArray [hit])), S (S w)) by reflexivity.
  rewrite select_hit_array. unfold _filter_arxiv_hits. cbn [List.filter].
  by rewrite Hh.
Qed.

Lemma download_mock hit url key body first rest (w : nat) :
  info_url (get_info hit) = Some url -> url <> [] ->
  strip body <> [] -> parse_content body = first :: rest ->
  download_bibtex_from_dblp (mock_bib body) 3 hit key w
  = (Some (set_cite_key first key), S w).
Proof.
  intros Hu Hne Hb Hp. unfold download_bibtex_from_dblp. rewrite Hu.
  destruct url as [|c url]; [done|]. cbn [default from_option id].
  change (seq 0 3) with [0; 1; 2]. cbn [download_loop]. unfold mock_bib.
  destruct (strip body); [done|]. by rewrite Hp.
Qed.

(** C6 (amended): with the records laid out on lines, a search that
    returns one candidate that is no preprint and a retrieval that yields
    the canonical text, the pipeline writes the canonical record under the
    key [ab12], with the allow-listed fields in the fixed order and the
    year, which has no space and none of [- : / .], without braces. *)
Theorem pipeline_example (hit : Hit) (url : str) :
  _is_arxiv_hit hit = false ->
  info_url (get_info hit) = Some url -> url <> [] ->
  main (mock_search [hit]) (mock_bib example_retrieved) S (fun q => q) 3
    example_input 0
  = Some ([example_updated], example_output ++ nl ++ nl)
  /\ cite_key example_updated = s "ab12"
  /\ emitted_fields example_updated = [s "author"; s "title"; s "year"]
  /\ to_bibtex example_updated = example_output.
Proof.
  intros Harxiv Hurl Hne. split; [|by vm_compute].
  unfold main. rewrite parse_example_input.
  unfold main_loop. cbn [fold_left]. unfold main_step.
  replace (get_title example_entry) with ("D" :: s "eep Learning")
    by (vm_compute; reflexivity).
  rewrite search_by_title_mock_single by (done || by vm_compute).
  rewrite (download_mock hit url _ example_retrieved
             (set_cite_key example_updated (s "newkey")) [])
    by (done || by vm_compute).
  unfold write_entries. cbn [map concat app].
  change (set_cite_key (set_cite_key example_updated (s "newkey"))
            (cite_key example_entry)) with example_updated.
  rewrite to_bibtex_example_updated. by rewrite app_nil_r.
Qed.

Lemma pipeline_example_witness :
  main (mock_search [mock_hit "ICML" "https://dblp.org/rec/conf/x"])
    (mock_bib example_retrieved) S (fun q => q) 3 example_input 0
  = Some ([example_updated], example_output ++ nl ++ nl).
Proof.
  apply (pipeline_example (mock_hit "ICML" "https://dblp.org/rec/conf/x")
           (s "https://dblp.org/rec/conf/x")); [reflexivity..|done].
Defined.

(** C6 as stated fails.  The one-line text of the example has no line
    feed before its closing brace, so nothing is parsed and nothing is
    written; and with the records laid out on lines the year is written
    without braces. *)
Lemma pipeline_example_as_stated_fails :
  let hit := mock_hit "ICML" "https://dblp.org/rec/conf/x" in
  parse_content example_input_one_line = [] /\
  parse_content example_retrieved_one_line = [] /\
  main (mock_search [hit]) (mock_bib example_retrieved_one_line) S
    (fun q => q) 3 example_input_one_line 0 = None /\
  (forall out,
     main (mock_search [hit]) (mock_bib example_retrieved) S (fun q => q) 3
       example_input 0 = Some out ->
     snd out <> example_output_one_line /\
     contains (s "year = 2020,") (snd out) = true /\
     contains (s "year = {2020}") (snd out) = false).
Proof.
  intros hit. split; [by vm_compute|]. split; [by vm_compute|].
  split; [by vm_compute|]. intros out.
  replace (main _ _ _ _ _ example_input 0)
    with (Some ([example_updated], example_output ++ nl ++ nl))
    by (vm_compute; reflexivity).
  intros [= <-]. by vm_compute.
Qed.

(** ** Serializing and parsing back: proofs *)

Lemma stops_app_l p x y : x <> [] -> stops p x -> stops p (x ++ y).
Proof. by destruct x. Qed.

Lemma has_char_app a x y :
  has_char a (x ++ y) = (has_char a x || has_char a y)%bool.
Proof. unfold has_char. apply existsb_app. Qed.

Lemma has_char_false_drop a j x :
  has_char a x = false -> has_char a (drop j x) = false.
Proof.
  intros H. rewrite <- (take_drop j x), has_char_app in H.
  by apply orb_false_elim in H as [_ H].
Qed.

Lemma split_safe_drop j E : split_safe E -> split_safe (drop j E).
Proof. intros [H|H]; [left|right]; by apply has_char_false_drop. Qed.

Lemma next_field_match i n R c :
  name_ok n ->
  rmatch next_field caps i
    ("," :: "010" :: " " :: " " :: n ++ " " :: "=" :: R) c
    (fun _ _ c' => Some c') = Some c.
Proof.
  intros [Hne Hn]. unfold next_field. cbn [cat fold_right].
  rewrite step_lit.
  apply (step_star_max is_space ["010"; " "; " "]); [done| |].
  { destruct n as [|a n]; [done|]. simpl in *.
    apply andb_true_iff in Hn as [Ha _]. by apply is_word_not_space. }
  apply step_plus_max; [done..|].
  apply (step_star_max is_space [" "]); [done..|].
  by rewrite step_lit.
Qed.

(** A word run with spaces around it never reaches over a comma. *)
Lemma no_equals_before_comma e R P x' :
  has_char "=" e = false ->
  forallb (fun a => (is_space a || is_word a)%bool) P = true ->
  e ++ "," :: R = P ++ "=" :: x' -> False.
Proof.
  revert P. induction e as [|a e IH]; intros P He HP H.
  - destruct P as [|b P]; simpl in *; [congruence|].
    injection H as <- _. by apply andb_true_iff in HP as [HP _].
  - destruct P as [|b P]; simpl in *.
    + injection H as -> _. done.
    + injection H as _ H. apply orb_false_elim in He as [_ He].
      apply andb_true_iff in HP as [_ HP]. by eapply IH.
Qed.

Lemma forallb_weaken (p q : ascii -> bool) x :
  (forall a, p a = true -> q a = true) ->
  forallb p x = true -> forallb q x = true.
Proof.
  intros Hpq. induction x as [|a x IH]; simpl; [done|].
  intros [Ha Hx]%andb_true_iff. by rewrite (Hpq a Ha), IH.
Qed.

Lemma next_field_none {A} i e R c (k : cont A) :
  e <> [] -> split_safe e ->
  rmatch next_field A i (e ++ "," :: R) c k = None.
Proof.
  intros Hne Hsafe. apply rmatch_none. intros m x' Hx.
  unfold next_field, lit, plus. cbn [cat fold_right accepts].
  intros (m1 & m2 & -> & (a1 & -> & Ha1%eqc_true) & m3 & m4 & -> & Hm3 & H).
  destruct H as (m5 & m6 & -> & (m7 & m8 & -> & (a7 & -> & Ha7) & Hm8) & H).
  destruct H as (m9 & m10 & -> & Hm9 & m11 & m12 & -> & (a11 & -> & Ha11%eqc_true) & ->).
  subst a1 a11. destruct e as [|a e]; [done|]. simpl in Hx.
  injection Hx as -> Hx. destruct Hsafe as [Hs|Hs].
  - apply (has_char_false_drop _ 1) in Hs. simpl in Hs.
    apply (no_equals_before_comma e R (m3 ++ (a7 :: m8) ++ m9) x' Hs).
    + rewrite !forallb_app. simpl. rewrite Ha7, orb_true_r. simpl.
      rewrite (forallb_weaken is_space _ m3), (forallb_weaken is_word _ m8),
        (forallb_weaken is_space _ m9); try done.
      * intros b ->. done.
      * intros b ->. apply orb_true_r.
      * intros b ->. done.
    + rewrite Hx. rewrite <- !app_assoc. simpl. by rewrite <- !app_assoc.
  - by vm_compute in Hs.
Qed.

Lemma eos_none_long {A} i a b x c (k : cont A) :
  b <> "010" \/ x <> [] -> rmatch Eos A i (a :: b :: x) c k = None.
Proof. by destruct x. Qed.

(** Inside a value the lookahead of [field_pattern] fails. *)
Lemma lookahead_none_inside i e R c :
  e <> [] -> split_safe e ->
  rmatch (Alt next_field Eos) caps i (e ++ "," :: R) c (fun _ _ c' => Some c')
  = None.
Proof.
  intros Hne Hsafe. cbn [rmatch]. rewrite next_field_none by done.
  destruct e as [|a [|b e]]; [done|by destruct R|done].
Qed.

Lemma lookahead_next i n R c :
  name_ok n ->
  rmatch (Alt next_field Eos) caps i
    ("," :: "010" :: " " :: " " :: n ++ " " :: "=" :: R) c
    (fun _ _ c' => Some c') = Some c.
Proof. intros Hn. cbn [rmatch]. by rewrite next_field_match. Qed.

Lemma field_pattern_eq :
  field_pattern =
  cat [Grp 1 (plus is_word); Star true is_space; lit "="; Star true is_space;
       Grp 2 (plus_lazy any_char); Ahead (Alt next_field Eos)].
Proof. reflexivity. Qed.

(** The match of [field_pattern] on a field that another field follows. *)
Lemma match_at_field_inner i n E n2 R :
  name_ok n -> value_ok E -> name_ok n2 ->
  match_at field_pattern i
    (n ++ " " :: "=" :: " " :: E ++
     "," :: "010" :: " " :: " " :: n2 ++ " " :: "=" :: R)
  = Some (length (n ++ " " :: "=" :: " " :: E), [(2, E); (1, n)]).
Proof.
  intros [Hne Hn] (HEne & HEs & HEd & HEsafe) Hn2.
  unfold match_at. rewrite field_pattern_eq. cbn [cat fold_right].
  apply step_grp_plus_max; [done..|].
  apply (step_star_max is_space [" "]); [done..|].
  rewrite step_lit.
  apply (step_star_max is_space [" "]); [done|by apply stops_app_l|].
  destruct E as [|e0 E]; [done|]. cbn [app].
  apply step_grp_plus_lazy_any.
  - rewrite (step_ahead _ _ _ _ _ _ _ (lookahead_next _ _ _ _ Hn2)).
    rewrite step_eps. f_equal. f_equal.
    rewrite length_app. simpl. lia.
  - intros j Hj. apply step_ahead_none. apply lookahead_none_inside.
    + intros H. apply (f_equal length) in H. rewrite length_drop in H.
      simpl in H. lia.
    + apply (split_safe_drop (S j) (e0 :: E)). done.
Qed.

(** The match of [field_pattern] on the last field. *)
Lemma match_at_field_last i n E :
  name_ok n -> value_ok E ->
  match_at field_pattern i (n ++ " " :: "=" :: " " :: E ++ [","])
  = Some (length (n ++ " " :: "=" :: " " :: E ++ [","]),
          [(2, E ++ [","]); (1, n)]).
Proof.
  intros [Hne Hn] (HEne & HEs & HEd & HEsafe).
  unfold match_at. rewrite field_pattern_eq. cbn [cat fold_right].
  apply step_grp_plus_max; [done..|].
  apply (step_star_max is_space [" "]); [done..|].
  rewrite step_lit.
  apply (step_star_max is_space [" "]); [done|by apply stops_app_l|].
  destruct E as [|e0 E]; [done|]. cbn [app].
  replace (E ++ [","]) with ((E ++ [","]) ++ []) by apply app_nil_r.
  apply step_grp_plus_lazy_any.
  - assert (Hl : forall p c, rmatch (Alt next_field Eos) caps p [] c
                                (fun _ _ c' => Some c') = Some c) by done.
    rewrite (step_ahead _ _ _ _ _ _ _ (Hl _ _)), step_eps.
    rewrite app_nil_r. f_equal. f_equal.
    repeat (rewrite !length_app; simpl). lia.
  - intros j Hj. apply step_ahead_none. rewrite app_nil_r.
    rewrite length_app in Hj. simpl in Hj.
    destruct (decide (j = length E)) as [->|Hlt].
    + rewrite drop_app_length. done.
    + rewrite drop_app_le by lia. apply lookahead_none_inside.
      * intros H. apply (f_equal length) in H. rewrite length_drop in H.
        simpl in H. lia.
      * apply (split_safe_drop (S j) (e0 :: E)). done.
Qed.

Lemma match_at_field_not_word i a x :
  is_word a = false -> match_at field_pattern i (a :: x) = None.
Proof.
  intros H. unfold match_at. rewrite field_pattern_eq. unfold plus.
  cbn [cat fold_right rmatch]. by rewrite H.
Qed.

Lemma match_at_field_nil i : match_at field_pattern i [] = None.
Proof. done. Qed.

(** The matches of [field_pattern] in the text of the field lines. *)
Lemma finditer_body ls : forall i,
  Forall (fun l => name_ok (fst l) /\ value_ok (snd l)) ls ->
  finditer_from field_pattern i 0 (body ls) = field_matches ls.
Proof.
  induction ls as [|[n E] ls IH]; intros i Hls.
  - cbn [body finditer_from]. by rewrite match_at_field_nil.
  - apply Forall_cons in Hls as [[Hn HE] Hls]. simpl in Hn, HE.
    destruct ls as [|[n2 E2] ls].
    + cbn [body field_matches].
      replace (n ++ " " :: "=" :: " " :: E ++ [","])
        with ((n ++ " " :: "=" :: " " :: E ++ [","]) ++ [])
        by apply app_nil_r.
      rewrite (finditer_from_match _ _ _ _ [(2, E ++ [","]); (1, n)]).
      * cbn [finditer_from]. rewrite match_at_field_nil.
        repeat (rewrite !length_app; simpl). do 2 f_equal. lia.
      * by destruct n.
      * rewrite app_nil_r. by apply match_at_field_last.
    + pose proof Hls as Hls'. apply Forall_cons in Hls' as [[Hn2 _] _].
      simpl in Hn2.
      change (body ((n, E) :: (n2, E2) :: ls))
        with (n ++ " " :: "=" :: " " :: E ++
              "," :: "010" :: " " :: " " :: body ((n2, E2) :: ls)).
      change (field_matches ((n, E) :: (n2, E2) :: ls))
        with ((length n + 3 + length E, [(2, E); (1, n)])
              :: field_matches ((n2, E2) :: ls)).
      replace (n ++ " " :: "=" :: " " :: E ++
               "," :: "010" :: " " :: " " :: body ((n2, E2) :: ls))
        with ((n ++ " " :: "=" :: " " :: E) ++
              "," :: "010" :: " " :: " " :: body ((n2, E2) :: ls))
        by (by rewrite <- app_assoc).
      rewrite (finditer_from_match _ _ _ _ [(2, E); (1, n)]).
      * rewrite !finditer_from_fail by (by apply match_at_field_not_word).
        rewrite IH by done. do 2 f_equal. rewrite length_app. simpl. lia.
      * by destruct n.
      * rewrite <- app_assoc. cbn [app body].
        by apply match_at_field_inner.
Qed.

Lemma nl_guard_drop j : forall y, nl_guard y = true -> nl_guard (drop j y) = true.
Proof.
  induction j as [|j IH]; intros [|a y]; simpl; try done.
  intros [_ H]%andb_true_iff. by apply IH.
Qed.

Lemma nl_guard_app_dot x y :
  forallb dot_char x = true -> nl_guard (x ++ y) = nl_guard y.
Proof.
  induction x as [|a x IH]; simpl; [done|].
  intros [Ha Hx]%andb_true_iff. unfold dot_char in Ha.
  apply negb_true_iff in Ha. rewrite eqc_sym, Ha. simpl. by apply IH.
Qed.

Lemma forallb_word_dot n : forallb is_word n = true -> forallb dot_char n = true.
Proof. apply forallb_weaken, is_word_dot. Qed.

Lemma nl_guard_body ls : fields_ok ls -> nl_guard (body ls) = true.
Proof.
  induction ls as [|[n E] ls IH]; intros Hls; [done|].
  apply Forall_cons in Hls as [[[Hne Hn] (HEne & HEs & HEd & HEsafe)] Hls].
  simpl in *. rewrite nl_guard_app_dot by by apply forallb_word_dot.
  change (" " :: "=" :: " " :: E ++ ?r) with ([" "; "="; " "] ++ E ++ r).
  rewrite nl_guard_app_dot by done. rewrite nl_guard_app_dot by done.
  destruct ls as [|[n2 E2] ls]; [done|].
  specialize (IH Hls). apply Forall_cons in Hls as [[[Hne2 Hn2] _] _].
  simpl in Hne2, Hn2. cbn [nl_guard]. char_eval. cbn [andb].
  change (nl_guard (body ((n2, E2) :: ls))) with (nl_guard (body ((n2, E2) :: ls))).
  rewrite IH. destruct n2 as [|b n2]; [done|]. simpl in Hn2 |- *.
  apply andb_true_iff in Hn2 as [-> _]. done.
Qed.

Lemma entry_close_none {A} i y z c (k : cont A) :
  y <> [] -> nl_guard y = true -> rmatch entry_close A i (y ++ z) c k = None.
Proof.
  intros Hne Hy. destruct y as [|a y]; [done|].
  unfold entry_close, lit_i. cbn [cat fold_right rmatch app].
  rewrite lit_i_newline. simpl in Hy.
  destruct (eqc "010" a); [|done].
  destruct y as [|b1 [|b2 [|b3 y]]]; try done.
  apply andb_true_iff in Hy as [Hy _].
  apply andb_true_iff in Hy as [Hy Hb3].
  apply andb_true_iff in Hy as [->%eqc_true ->%eqc_true].
  apply star_greedy_none. cbn [app span]. char_eval. cbv iota.
  rewrite (is_word_not_space _ Hb3). intros j Hj.
  destruct j as [|[|[|j]]]; [| | |lia]; cbn [drop]; char_eval; try done.
  by rewrite lit_i_close_word.
Qed.

Lemma body_head_word n E ls :
  name_ok n -> stops is_space (body ((n, E) :: ls)).
Proof.
  intros [Hne Hn]. destruct n as [|a n]; [done|]. simpl in *.
  apply andb_true_iff in Hn as [Ha _]. by apply is_word_not_space.
Qed.

Lemma entry_pattern_eq :
  entry_pattern =
  cat [lit_i "@"; Grp 1 (plus is_word); Star true is_space; lit_i "{";
       Star true is_space; Grp 2 (plus not_comma_space); Star true is_space;
       lit_i ","; Star true is_space; Grp 3 (Star false any_char);
       lit_i "010"; Star true is_space; lit_i "}"].
Proof. reflexivity. Qed.

(** The match of [entry_pattern] on a serialized record. *)
Lemma match_at_entry_text K X ls :
  name_ok K -> key_ok X -> fields_ok ls ->
  match_at entry_pattern 0 (entry_text K X ls)
  = Some (length (entry_text K X ls), [(3, body ls); (2, X); (1, K)]).
Proof.
  intros [HKne HK] [HXne HX] Hls.
  unfold match_at, entry_text. rewrite entry_pattern_eq.
  cbn [cat fold_right].
  rewrite step_lit_i.
  apply step_grp_plus_max; [done..|].
  apply (step_star_max is_space []); [done..|].
  rewrite step_lit_i.
  apply (step_star_max is_space []); [done| |].
  { destruct X as [|a X]; [done|]. simpl in *.
    apply andb_true_iff in HX as [Ha _].
    by apply not_comma_space_spec in Ha as [_ Ha]. }
  apply step_grp_plus_max; [done..|].
  apply (step_star_max is_space []); [done..|].
  rewrite step_lit_i.
  destruct ls as [|[n E] ls].
  - cbn [entry_tail body rmatch star_greedy star_lazy length app].
    unfold lit_i. char_eval. cbv iota. cbn [rmatch star_greedy star_lazy].
    char_eval. unfold any_char. cbv iota. rewrite Nat.sub_diag. cbn [take].
    f_equal. f_equal.
    repeat first [rewrite length_app|progress cbn [length]]. lia.
  - pose proof Hls as Hls'. apply Forall_cons in Hls' as [[Hn _] _].
    simpl in Hn. cbn [entry_tail].
    apply (step_star_max is_space ["010"; " "; " "]); [done| |].
    { apply stops_app_l; [by destruct n|by apply body_head_word]. }
    apply step_grp_lazy_any.
    + rewrite step_lit_i.
      apply (step_star_max is_space []); [done..|].
      rewrite step_lit_i, step_eps. f_equal. f_equal.
      repeat first [rewrite length_app|progress cbn [length]]. lia.
    + intros j Hj. apply (entry_close_none _ (drop j (body ((n, E) :: ls)))).
      * intros H. apply (f_equal length) in H. rewrite length_drop in H.
        cbn [length] in H. lia.
      * by apply nl_guard_drop, nl_guard_body.
Qed.

(** ** The cleaned book title: proofs *)

Lemma balance_fold_scan y : forall r d d',
  scan d y = Some d' -> fold_left balance_step y (r, d) = (r ++ y, d').
Proof.
  induction y as [|a y IH]; intros r d d'; simpl.
  - intros [= ->]. by rewrite app_nil_r.
  - destruct (eqc a "{"); [|destruct (eqc a "}"); [destruct (0 <? d)%Z|]];
      try done; intros H; rewrite (IH _ _ _ H); by rewrite <- app_assoc.
Qed.

Lemma balance_fold_out text : forall r d,
  (0 <= d)%Z ->
  exists out d', fold_left balance_step text (r, d) = (r ++ out, d') /\
                 scan d out = Some d' /\ (0 <= d')%Z.
Proof.
  induction text as [|a text IH]; intros r d Hd; simpl.
  - exists [], d. by rewrite app_nil_r.
  - destruct (eqc a "{") eqn:E1; [|destruct (eqc a "}") eqn:E2;
      [destruct (0 <? d)%Z eqn:E3|]].
    + destruct (IH (r ++ [a]) (d + 1)%Z) as (out & d' & -> & Hs & Hd');
        [lia|]. exists (a :: out), d'. simpl. rewrite E1.
      by rewrite <- app_assoc.
    + apply Z.ltb_lt in E3 as E3'.
      destruct (IH (r ++ [a]) (d - 1)%Z) as (out & d' & -> & Hs & Hd');
        [lia|]. exists (a :: out), d'. simpl. rewrite E1, E2, E3.
      by rewrite <- app_assoc.
    + destruct (IH r d) as (out & d' & -> & Hs & Hd'); [lia|].
      by exists out, d'.
    + destruct (IH (r ++ [a]) d) as (out & d' & -> & Hs & Hd'); [lia|].
      exists (a :: out), d'. simpl. rewrite E1, E2. by rewrite <- app_assoc.
Qed.

Lemma scan_app x : forall d y,
  scan d (x ++ y) = match scan d x with Some d1 => scan d1 y | None => None end.
Proof.
  induction x as [|a x IH]; intros d y; simpl; [done|].
  destruct (eqc a "{"); [|destruct (eqc a "}"); [destruct (0 <? d)%Z|]];
    by rewrite ?IH.
Qed.

Lemma scan_repeat_close n : forall d,
  d = Z.of_nat n -> scan d (repeat "}" n) = Some 0%Z.
Proof.
  induction n as [|n IH]; intros d Hd; simpl.
  - by rewrite Hd.
  - char_eval. cbv iota. destruct (Z.ltb_spec 0 d) as [_|?]; [|lia].
    apply IH. lia.
Qed.

Lemma scan_balance_braces text : scan 0 (_balance_braces text) = Some 0%Z.
Proof.
  unfold _balance_braces.
  destruct (balance_fold_out (strip text) [] 0%Z) as (out & d & -> & Hs & Hd);
    [lia|]. simpl.
  destruct (Z.ltb_spec 0 d) as [?|?].
  - rewrite scan_app, Hs. apply scan_repeat_close. lia.
  - rewrite Hs. f_equal. lia.
Qed.

Lemma is_space_not_brace a :
  is_space a = true -> eqc a "{" = false /\ eqc a "}" = false.
Proof. by destruct a as [[] [] [] [] [] [] [] []]. Qed.

Lemma scan_all_space w d : forallb is_space w = true -> scan d w = Some d.
Proof.
  revert d. induction w as [|a w IH]; intros d; simpl; [done|].
  intros [Ha Hw]%andb_true_iff. destruct (is_space_not_brace a Ha) as [-> ->].
  by apply IH.
Qed.

Lemma scan_strip d y : scan d (strip y) = scan d y.
Proof.
  destruct (strip_decomp y) as (w1 & w2 & Hy & H1 & H2).
  rewrite Hy at 2. rewrite scan_app, (scan_all_space w1) by done.
  rewrite scan_app. destruct (scan d (strip y)) as [d1|]; [|done].
  by rewrite scan_all_space.
Qed.

Lemma scan_collapse_from y : forall b d, scan d (collapse_from b y) = scan d y.
Proof.
  induction y as [|a y IH]; intros b d; simpl; [done|].
  destruct (is_space a) eqn:E.
  - destruct (is_space_not_brace a E) as [-> ->].
    destruct b; simpl; [apply IH|]. char_eval. cbv iota. apply IH.
  - simpl. destruct (eqc a "{"); [|destruct (eqc a "}");
      [destruct (0 <? d)%Z|]]; by rewrite ?IH.
Qed.

Lemma balance_braces_fixed c :
  strip c = c -> scan 0 c = Some 0%Z -> _balance_braces c = c.
Proof.
  intros Hs Hc. unfold _balance_braces. rewrite Hs.
  by rewrite (balance_fold_scan c [] 0%Z 0%Z Hc).
Qed.

Lemma no_runs_app_r x y : no_runs (x ++ y) = true -> no_runs y = true.
Proof.
  induction x as [|a x IH]; simpl; [done|].
  intros [_ H]%andb_true_iff. by apply IH.
Qed.

Lemma no_runs_app_l x y : no_runs (x ++ y) = true -> no_runs x = true.
Proof.
  induction x as [|a x IH]; simpl; [done|].
  intros [Ha H]%andb_true_iff. rewrite (IH H), andb_true_r.
  destruct (is_space a); [|done].
  apply andb_true_iff in Ha as [-> Ha]. simpl.
  destruct x as [|b x]; [done|]. exact Ha.
Qed.

Lemma no_runs_strip y : no_runs y = true -> no_runs (strip y) = true.
Proof.
  destruct (strip_decomp y) as (w1 & w2 & Hy & _). rewrite Hy at 1.
  intros H. apply no_runs_app_r in H. by apply no_runs_app_l in H.
Qed.

Lemma no_runs_dot y : no_runs y = true -> forallb dot_char y = true.
Proof.
  induction y as [|a y IH]; simpl; [done|].
  intros [Ha H]%andb_true_iff. rewrite (IH H), andb_true_r.
  destruct (is_space a) eqn:E.
  - apply andb_true_iff in Ha as [->%eqc_true _]. done.
  - unfold dot_char. destruct (eqc a "010") eqn:En; [|done].
    apply eqc_true in En as ->. done.
Qed.

Lemma find_nonneg a x : (-1 <= find a x)%Z.
Proof.
  induction x as [|b x IH]; simpl; [done|].
  destruct (eqc a b); [lia|]. destruct (find a x =? -1)%Z; lia.
Qed.

Lemma find_none a x : find a x = (-1)%Z <-> has_char a x = false.
Proof.
  induction x as [|b x IH]; simpl; [done|].
  destruct (eqc a b); simpl; [done|].
  destruct (find a x =? -1)%Z eqn:E.
  - apply Z.eqb_eq in E. split; [intros _; by apply IH|done].
  - apply Z.eqb_neq in E. pose proof (find_nonneg a x).
    split; [lia|]. intros H0%IH. done.
Qed.

Lemma take_find_no_char a x :
  has_char a (take (Z.to_nat (find a x)) x) = false.
Proof.
  induction x as [|b x IH]; simpl; [done|].
  destruct (eqc a b) eqn:E; [done|].
  destruct (find a x =? -1)%Z eqn:E1; [done|].
  apply Z.eqb_neq in E1. pose proof (find_nonneg a x).
  replace (Z.to_nat (find a x + 1)) with (S (Z.to_nat (find a x))) by lia.
  simpl. by rewrite E, IH.
Qed.

Lemma has_char_forallb a x :
  has_char a x = false <-> forallb (fun b => negb (eqc a b)) x = true.
Proof.
  induction x as [|b x IH]; simpl; [done|].
  rewrite orb_false_iff, andb_true_iff, IH, negb_true_iff. done.
Qed.

Lemma forallb_balance_braces (p : ascii -> bool) text :
  p "}" = true -> forallb p text = true ->
  forallb p (_balance_braces text) = true.
Proof.
  intros Hp Ht. apply forallb_strip in Ht. unfold _balance_braces.
  assert (H : forall y r d, forallb p y = true -> forallb p r = true ->
    forallb p (fst (fold_left balance_step y (r, d))) = true).
  { induction y as [|a y IH]; intros r d Hy Hr; simpl; [done|].
    simpl in Hy. apply andb_true_iff in Hy as [Ha Hy].
    destruct (eqc a "{"); [|destruct (eqc a "}"); [destruct (0 <? d)%Z|]];
      apply IH; try done; by rewrite forallb_app, Hr; simpl; rewrite Ha. }
  specialize (H (strip text) [] 0%Z Ht eq_refl).
  destruct (fold_left balance_step (strip text) ([], 0%Z)) as [res cnt].
  simpl in H. destruct (0 <? cnt)%Z; [|done].
  rewrite forallb_app, H. simpl.
  induction (Z.to_nat cnt) as [|n IH]; simpl; [done|]. by rewrite Hp.
Qed.

(** The cleaned book title has no comma and no line feed, and cleaning it
    again changes nothing. *)
Lemma clean_booktitle_no_comma v : has_char "," (clean_booktitle v) = false.
Proof.
  unfold clean_booktitle. rewrite sub_spaces. apply has_char_forallb.
  apply forallb_strip, forallb_collapse_from; [done|].
  apply forallb_balance_braces; [done|].
  destruct (find "," v =? -1)%Z eqn:E; simpl.
  - apply Z.eqb_eq, find_none in E. by apply has_char_forallb.
  - apply forallb_strip, has_char_forallb, take_find_no_char.
Qed.

Lemma clean_booktitle_no_runs v : no_runs (clean_booktitle v) = true.
Proof.
  unfold clean_booktitle. rewrite sub_spaces.
  apply no_runs_strip, collapse_from_no_runs.
Qed.

Lemma clean_booktitle_idem v :
  clean_booktitle (clean_booktitle v) = clean_booktitle v.
Proof.
  set (c := clean_booktitle v).
  assert (Hstrip : strip c = c).
  { unfold c, clean_booktitle. apply strip_strip. }
  assert (Hscan : scan 0 c = Some 0%Z).
  { unfold c, clean_booktitle. rewrite sub_spaces, scan_strip.
    unfold collapse_spaces. rewrite scan_collapse_from.
    apply scan_balance_braces. }
  unfold clean_booktitle at 1. fold c.
  pose proof (clean_booktitle_no_comma v) as Hc. fold c in Hc.
  apply find_none in Hc. rewrite Hc. simpl.
  rewrite balance_braces_fixed by done. rewrite sub_spaces.
  unfold collapse_spaces. rewrite collapse_from_fixed; [done|].
  apply clean_booktitle_no_runs.
Qed.

(** ** Serialize, parse, serialize: proofs *)

Lemma join_tail ls :
  join ["010"] (map line_of ls ++ [s "}"]) = entry_tail ls.
Proof.
  induction ls as [|[n E] ls IH]; [done|].
  cbn [map app]. destruct ls as [|l2 ls].
  - cbn [map app join entry_tail body line_of fst snd].
    simpl. by repeat (rewrite <- !app_assoc; simpl).
  - change (join ["010"] (line_of (n, E) :: map line_of (l2 :: ls) ++ [s "}"]))
      with (line_of (n, E) ++ ["010"]
            ++ join ["010"] (map line_of (l2 :: ls) ++ [s "}"])).
    rewrite IH. destruct l2 as [n2 E2].
    cbn [entry_tail body line_of fst snd]. simpl.
    by repeat (rewrite <- !app_assoc; simpl).
Qed.

Lemma to_bibtex_entry_text e :
  to_bibtex e = entry_text (entry_type e) (cite_key e) (field_values e).
Proof.
  unfold to_bibtex. rewrite to_bibtex_lines_eq.
  assert (Hl : map (field_line e) (emitted_fields e)
               = map line_of (field_values e)).
  { unfold field_values. rewrite map_map. done. }
  rewrite Hl.
  assert (Hj : forall h t, t <> [] -> join ["010"] ([h] ++ t)
                                       = h ++ ["010"] ++ join ["010"] t).
  { intros h [|a t] Ht; done. }
  rewrite Hj by (by destruct (map line_of (field_values e))).
  rewrite join_tail. unfold header_line, entry_text. simpl.
  by repeat (rewrite <- !app_assoc; simpl).
Qed.

Lemma match_at_entry_nil i : match_at entry_pattern i [] = None.
Proof. done. Qed.

(** Parsing a serialized record yields one record, with the fields that
    [_parse_fields] reads from the field lines. *)
Lemma parse_entry_text K X ls :
  name_ok K -> key_ok X -> fields_ok ls ->
  parse_content (entry_text K X ls)
  = [BibtexEntry_init K X (_parse_fields (body ls))].
Proof.
  intros HK HX Hls. unfold parse_content, finditer.
  replace (entry_text K X ls) with (entry_text K X ls ++ [])
    by apply app_nil_r.
  rewrite (finditer_from_match _ _ _ _ [(3, body ls); (2, X); (1, K)]);
    [|done|rewrite app_nil_r; by apply match_at_entry_text].
  cbn [finditer_from]. rewrite match_at_entry_nil. done.
Qed.

Lemma strip_name n : name_ok n -> strip n = n.
Proof.
  intros [Hne Hn]. apply strip_id.
  - destruct n as [|a n]; [done|]. simpl in *.
    apply andb_true_iff in Hn as [Ha _]. by apply is_word_not_space.
  - rewrite <- forallb_rev in Hn. destruct (rev n) as [|a r]; [done|].
    simpl in *. apply andb_true_iff in Hn as [Ha _].
    by apply is_word_not_space.
Qed.

Lemma clean_value_tidy E :
  value_ok E -> tidy E ->
  clean_value E = unwrap_braces (unwrap_quotes E) /\
  clean_value (E ++ [","]) = unwrap_braces (unwrap_quotes E).
Proof.
  intros (Hne & Hs & _) [Hr Hc]. rewrite !clean_value_eq. split.
  - by rewrite strip_id, drop_comma_id.
  - rewrite strip_id.
    + by rewrite drop_comma_snoc.
    + by apply stops_app_l.
    + by rewrite rev_app_distr.
Qed.

Lemma parse_fields_fold ls : forall m0,
  fields_ok ls -> Forall (fun l => tidy (snd l)) ls ->
  fold_left parse_fields_step (field_matches ls) m0
  = fold_left insert_cleaned ls m0.
Proof.
  induction ls as [|[n E] ls IH]; intros m0 Hls Ht; [done|].
  apply Forall_cons in Hls as [[Hn HE] Hls].
  apply Forall_cons in Ht as [HtE Ht]. simpl in Hn, HE, HtE.
  destruct (clean_value_tidy E HE HtE) as [H1 H2].
  destruct ls as [|l2 ls].
  - cbn [field_matches fold_left]. unfold parse_fields_step, insert_cleaned.
    cbn [snd fst group Nat.eqb]. by rewrite strip_name, H2 by done.
  - change (field_matches ((n, E) :: l2 :: ls))
      with ((length n + 3 + length E, [(2, E); (1, n)])
            :: field_matches (l2 :: ls)).
    change (fold_left insert_cleaned ((n, E) :: l2 :: ls) m0)
      with (fold_left insert_cleaned (l2 :: ls) (insert_cleaned m0 (n, E))).
    change (fold_left parse_fields_step (?a :: ?l) m0)
      with (fold_left parse_fields_step l (parse_fields_step m0 a)).
    rewrite IH by done.
    assert (Hstep : parse_fields_step m0
                      (length n + 3 + length E, [(2, E); (1, n)])
                    = insert_cleaned m0 (n, E)).
    { unfold parse_fields_step, insert_cleaned. cbn [snd fst group Nat.eqb].
      by rewrite strip_name, H1 by done. }
    by rewrite Hstep.
Qed.

Lemma fold_insert_cleaned_notin ls : forall m0 k,
  ~ In k (map fst ls) -> fold_left insert_cleaned ls m0 !! k = m0 !! k.
Proof.
  induction ls as [|[n E] ls IH]; intros m0 k Hk; [done|].
  simpl in *. rewrite IH by tauto. unfold insert_cleaned. simpl.
  apply lookup_insert_ne. tauto.
Qed.

Lemma fold_insert_cleaned_in ls : forall m0 k E,
  NoDup (map fst ls) -> In (k, E) ls ->
  fold_left insert_cleaned ls m0 !! k
  = Some (unwrap_braces (unwrap_quotes E)).
Proof.
  induction ls as [|[n F] ls IH]; intros m0 k E Hnd Hin; [done|].
  simpl in *. apply NoDup_cons in Hnd as [Hn Hnd].
  destruct Hin as [[= -> ->]|Hin].
  - rewrite fold_insert_cleaned_notin.
    + unfold insert_cleaned. simpl. apply lookup_insert_eq.
    + by rewrite <- list_elem_of_In.
  - by apply IH.
Qed.

Lemma parse_fields_body ls :
  fields_ok ls -> Forall (fun l => tidy (snd l)) ls ->
  _parse_fields (body ls) = fold_left insert_cleaned ls ∅.
Proof.
  intros Hls Ht. unfold _parse_fields, finditer.
  rewrite finditer_body by done. by apply parse_fields_fold.
Qed.

Lemma wrap_round_trip v :
  v <> [] -> plain v ->
  value_ok (wrap_braces v) /\ tidy (wrap_braces v) /\
  unwrap_braces (unwrap_quotes (wrap_braces v)) = v.
Proof.
  intros Hne [Hd Hs]. unfold wrap_braces. change (s "{" ++ v ++ s "}")
    with ("{" :: v ++ ["}"]). split; [|split].
  - split; [done|]. split; [done|]. split.
    + simpl. rewrite forallb_app, Hd. done.
    + destruct Hs as [Hs|Hs]; [left|right];
        simpl; rewrite has_char_app, Hs; done.
  - unfold tidy. simpl. rewrite rev_app_distr. done.
  - change (unwrap_quotes ("{" :: v ++ ["}"])) with ("{" :: v ++ ["}"]).
    unfold unwrap_braces. rewrite unwrap_wrapped by done. apply app_nil_r.
Qed.

Lemma bare_round_trip v :
  v <> [] -> plain v -> bare_ok v ->
  value_ok v /\ tidy v /\ unwrap_braces (unwrap_quotes v) = v.
Proof.
  intros Hne [Hd Hs] [Hh Hl]. destruct v as [|a v]; [done|].
  simpl in Hh. apply orb_false_elim in Hh as [Hh Hbrace].
  apply orb_false_elim in Hh as [Hsp Hq].
  split; [|split].
  - by repeat split.
  - unfold tidy. destruct (rev (a :: v)) as [|b r] eqn:E; [done|].
    simpl in Hl.
    apply orb_false_elim in Hl as [Hb1 Hb2]. split; simpl; [done|].
    by rewrite eqc_sym.
  - unfold unwrap_quotes, unwrap_braces, unwrap. by rewrite Hq, Hbrace.
Qed.

Lemma format_value_title_like k v :
  In k [s "author"; s "title"; s "journal"] ->
  format_value k v = wrap_braces v.
Proof. intros [<-|[<-|[<-|[]]]]; reflexivity. Qed.

Lemma format_value_booktitle v :
  format_value (s "booktitle") v = wrap_braces (clean_booktitle v).
Proof. reflexivity. Qed.

Lemma format_value_other k v :
  In k [s "year"; s "pages"; s "volume"; s "number"] ->
  format_value k v = if needs_braces v then wrap_braces v else v.
Proof. intros [<-|[<-|[<-|[<-|[]]]]]; reflexivity. Qed.

Lemma essential_fields_cases k :
  In k essential_fields ->
  In k [s "author"; s "title"; s "journal"] \/ k = s "booktitle" \/
  In k [s "year"; s "pages"; s "volume"; s "number"].
Proof. unfold essential_fields. simpl. intuition. Qed.

Lemma essential_name_ok k : In k essential_fields -> name_ok k.
Proof.
  unfold essential_fields. simpl. intros H.
  repeat (destruct H as [<-|H]; [by split|]). done.
Qed.

(** A formatted value is read back as a value that formats to it again. *)
Lemma field_round_trip k v :
  In k essential_fields -> v <> [] -> value_round_trips k v ->
  value_ok (format_value k v) /\ tidy (format_value k v) /\
  exists v', unwrap_braces (unwrap_quotes (format_value k v)) = v' /\
             v' <> [] /\ format_value k v' = format_value k v.
Proof.
  intros Hk Hne Hv.
  destruct (essential_fields_cases k Hk) as [Ht|[->|Ho]].
  - rewrite format_value_title_like by done.
    assert (Hp : plain v).
    { destruct Ht as [<-|[<-|[<-|[]]]]; apply Hv. }
    destruct (wrap_round_trip v Hne Hp) as (H1 & H2 & H3).
    split; [done|]. split; [done|]. exists v.
    by rewrite format_value_title_like.
  - rewrite format_value_booktitle.
    change (value_round_trips (s "booktitle") v)
      with (clean_booktitle v <> []) in Hv.
    assert (Hp : plain (clean_booktitle v)).
    { split; [apply no_runs_dot, clean_booktitle_no_runs|].
      right. apply clean_booktitle_no_comma. }
    destruct (wrap_round_trip _ Hv Hp) as (H1 & H2 & H3).
    split; [done|]. split; [done|]. exists (clean_booktitle v).
    by rewrite format_value_booktitle, clean_booktitle_idem.
  - rewrite format_value_other by done.
    assert (Hp : plain v /\ (needs_braces v = true \/ bare_ok v)).
    { destruct Ho as [<-|[<-|[<-|[<-|[]]]]];
        (split; [apply Hv|destruct Hv as [_ [?|[?|?]]]; [done|by left|by right]]). }
    destruct Hp as [Hp Hb]. destruct (needs_braces v) eqn:En.
    + destruct (wrap_round_trip v Hne Hp) as (H1 & H2 & H3).
      split; [done|]. split; [done|]. exists v.
      by rewrite format_value_other, En.
    + destruct Hb as [?|Hb]; [done|].
      destruct (bare_round_trip v Hne Hp Hb) as (H1 & H2 & H3).
      split; [done|]. split; [done|]. exists v.
      by rewrite format_value_other, En.
Qed.

Lemma NoDup_essential_fields : NoDup essential_fields.
Proof.
  unfold essential_fields.
  repeat (constructor; [rewrite list_elem_of_In; simpl; intuition discriminate|]).
  constructor.
Qed.

Lemma present_emitted e k :
  In k essential_fields -> present e k = true <-> In k (emitted_fields e).
Proof.
  intros Hk. unfold emitted_fields. rewrite List.filter_In. tauto.
Qed.

Lemma present_value e k :
  present e k = true -> exists v, fields e !! k = Some v /\ v <> [].
Proof.
  unfold present. destruct (fields e !! k) as [[|a v]|]; try done.
  intros _. by eexists.
Qed.

Lemma map_fst_field_values e : map fst (field_values e) = emitted_fields e.
Proof.
  unfold field_values. rewrite map_map. simpl. apply map_id.
Qed.

Section RoundTrip.

Variable e : BibtexEntry.
Hypothesis ready : round_trip_ready e.

Lemma emitted_round_trip k :
  In k (emitted_fields e) ->
  exists v, fields e !! k = Some v /\ v <> [] /\
    value_ok (format_value k v) /\ tidy (format_value k v) /\
    exists v', unwrap_braces (unwrap_quotes (format_value k v)) = v' /\
               v' <> [] /\ format_value k v' = format_value k v.
Proof using ready.
  intros Hin. destruct ready as (_ & _ & _ & Hv).
  unfold emitted_fields in Hin. apply List.filter_In in Hin as [Hk Hp].
  destruct (present_value e k Hp) as (v & Hf & Hne).
  exists v. split; [done|]. split; [done|].
  by apply field_round_trip; [|done|apply Hv].
Qed.

Lemma field_values_ok :
  fields_ok (field_values e) /\ Forall (fun l => tidy (snd l)) (field_values e).
Proof using ready.
  unfold fields_ok, field_values. rewrite !Forall_map.
  split; apply Forall_forall; intros k Hk%list_elem_of_In;
    destruct (emitted_round_trip k Hk) as (v & Hf & Hne & H1 & H2 & _);
    simpl; rewrite Hf; simpl; [split; [|done]|done].
  apply essential_name_ok. unfold emitted_fields in Hk.
  by apply List.filter_In in Hk as [Hk _].
Qed.

Lemma parsed_lookup k :
  In k essential_fields ->
  fold_left insert_cleaned (field_values e) ∅ !! k =
  if present e k
  then Some (unwrap_braces
               (unwrap_quotes (format_value k (default [] (fields e !! k)))))
  else None.
Proof using ready.
  intros Hk. destruct (present e k) eqn:Hp.
  - apply fold_insert_cleaned_in.
    + rewrite map_fst_field_values. unfold emitted_fields.
      apply NoDup_ListNoDup, List.NoDup_filter, NoDup_ListNoDup.
      apply NoDup_essential_fields.
    + unfold field_values.
      apply (in_map (fun k => (k, format_value k (default [] (fields e !! k))))).
      by apply present_emitted.
  - rewrite fold_insert_cleaned_notin; [done|].
    rewrite map_fst_field_values. intros Hin%present_emitted; [|done].
    congruence.
Qed.

Lemma round_trip_field_values :
  field_values
    (BibtexEntry_init (entry_type e) (cite_key e)
       (fold_left insert_cleaned (field_values e) ∅))
  = field_values e.
Proof using ready.
  set (e' := BibtexEntry_init _ _ _).
  assert (Hpres : forall k, In k essential_fields -> present e' k = present e k).
  { intros k Hk. unfold present at 1. unfold e'. cbn [fields BibtexEntry_init].
    rewrite parsed_lookup by done. destruct (present e k) eqn:Hp; [|done].
    apply present_emitted in Hp; [|done].
    destruct (emitted_round_trip k Hp) as (v & Hf & _ & _ & _ & v' & Hu & Hne & _).
    rewrite Hf. simpl. rewrite Hu. by destruct v'. }
  unfold field_values, emitted_fields.
  rewrite (List.filter_ext_in _ _ _ Hpres).
  apply map_ext_in. intros k Hk. f_equal.
  destruct (emitted_round_trip k Hk) as (v & Hf & _ & _ & _ & v' & Hu & Hne & Hfmt).
  apply List.filter_In in Hk as [Hk Hp].
  unfold e'. cbn [fields BibtexEntry_init].
  rewrite parsed_lookup, Hp by done. rewrite Hf. simpl. by rewrite Hu.
Qed.

End RoundTrip.

(** C4 (amended): for a record whose kind is a non-empty lowercase word,
    whose key is non-empty without comma or whitespace, and whose non-empty
    allow-listed values have no line feed and not both a comma and an
    equals sign (the book title instead has a non-empty cleaned form, and a
    value written without braces neither begins with whitespace, a quote or
    an opening brace nor ends with whitespace or a comma), parsing the
    serialization yields one record whose serialization is the same
    text. *)
Theorem serialize_parse_serialize (e : BibtexEntry) :
  round_trip_ready e ->
  exists e', parse_content (to_bibtex e) = [e'] /\ to_bibtex e' = to_bibtex e.
Proof.
  intros ready. pose proof ready as (HK & Hlow & HX & _).
  destruct (field_values_ok e ready) as [Hls Ht].
  exists (BibtexEntry_init (entry_type e) (cite_key e)
            (fold_left insert_cleaned (field_values e) ∅)).
  split.
  - rewrite to_bibtex_entry_text, parse_entry_text by done.
    by rewrite parse_fields_body.
  - rewrite !to_bibtex_entry_text. rewrite round_trip_field_values by done.
    cbn [entry_type cite_key BibtexEntry_init]. by rewrite Hlow.
Qed.

Lemma serialize_parse_serialize_witness :
  let e := BibtexEntry_init (s "InProceedings") (s "knuth:84")
             (<[s "author" := s "Knuth, Donald E."]>
                (<[s "title" := s "Literate {P}rogramming"]>
                   (<[s "booktitle" := s "Proc. of {X}, 1984"]>
                      (<[s "year" := s "1984"]>
                         (<[s "pages" := s "97--111"]>
                            (<[s "note" := s "a=b, c"]> ∅)))))) in
  exists e', parse_content (to_bibtex e) = [e'] /\ to_bibtex e' = to_bibtex e.
Proof.
  intros e. apply (serialize_parse_serialize e).
  split; [by split|]. split; [reflexivity|]. split; [by split|].
  intros k v Hk Hf Hne. unfold essential_fields in Hk. simpl in Hk.
  repeat (destruct Hk as [<-|Hk];
    [vm_compute in Hf; try discriminate Hf; injection Hf as <-;
     first [by vm_compute
           |split; [split; [reflexivity|by (left + right)]|
                    first [by left|right; left; reflexivity
                          |right; right; by split]]]|]).
  done.
Defined.

(** C4 as stated fails: a comma inside a title, followed by a word and an
    equals sign, is read as the start of another field, so the record that
    is parsed back has another title and serializes to another text. *)
Lemma serialize_parse_serialize_comma_equals :
  (forall k, is_Some (fields comma_equals_title !! k) -> In k essential_fields)
  /\ exists e', parse_content (to_bibtex comma_equals_title) = [e'] /\
                fields e' !! s "title" = Some (s "{Energy") /\
                to_bibtex e' <> to_bibtex comma_equals_title.
Proof.
  split.
  - intros k [v Hv]. unfold comma_equals_title in Hv.
    cbn [fields BibtexEntry_init] in Hv.
    destruct (decide (s "title" = k)) as [<-|Hne].
    + unfold essential_fields. simpl. tauto.
    + by rewrite lookup_insert_ne, lookup_empty in Hv.
  - eexists. split; [vm_compute; reflexivity|]. by vm_compute.
Qed.

(** ** What the parser accepts: proofs *)

Section Inversion.

Context {A : Type}.
Implicit Types (k : cont A) (p : ascii -> bool) (rest : re).

Lemma inv_chr p rest i x c k v :
  rmatch (Cat (Chr p) rest) A i x c k = Some v ->
  exists a x', x = a :: x' /\ p a = true /\
               rmatch rest A (S i) x' c k = Some v.
Proof.
  simpl. destruct x as [|a x]; [done|]. destruct (p a) eqn:E; [|done].
  intros H. by exists a, x.
Qed.

Lemma inv_star g p rest i x c k v :
  rmatch (Cat (Star g p) rest) A i x c k = Some v ->
  exists w x', x = w ++ x' /\ forallb p w = true /\
               rmatch rest A (i + length w) x' c k = Some v.
Proof.
  simpl. intros H.
  assert (Hj : exists j, j <= span p x /\
            rmatch rest A (i + j) (drop j x) c k = Some v).
  { destruct g; [by apply star_greedy_sound in H|by apply star_lazy_sound in H]. }
  destruct Hj as (j & Hj & Hk). exists (take j x), (drop j x).
  rewrite take_drop. split; [done|]. split; [by apply span_prefix|].
  rewrite length_take_le by (pose proof (span_le p x); lia). done.
Qed.

Lemma inv_grp_star n g p rest i x c k v :
  rmatch (Cat (Grp n (Star g p)) rest) A i x c k = Some v ->
  exists w x', x = w ++ x' /\ forallb p w = true /\
               rmatch rest A (i + length w) x' ((n, w) :: c) k = Some v.
Proof.
  simpl. intros H.
  assert (Hj : exists j, j <= span p x /\
            rmatch rest A (i + j) (drop j x) ((n, take (i + j - i) x) :: c) k
            = Some v).
  { destruct g; [by apply star_greedy_sound in H|by apply star_lazy_sound in H]. }
  destruct Hj as (j & Hj & Hk). exists (take j x), (drop j x).
  rewrite take_drop. split; [done|]. split; [by apply span_prefix|].
  rewrite length_take_le by (pose proof (span_le p x); lia).
  by replace (i + j - i) with j in Hk by lia.
Qed.

Lemma inv_grp_plus n g p rest i x c k v :
  rmatch (Cat (Grp n (Cat (Chr p) (Star g p))) rest) A i x c k = Some v ->
  exists w x', x = w ++ x' /\ w <> [] /\ forallb p w = true /\
               rmatch rest A (i + length w) x' ((n, w) :: c) k = Some v.
Proof.
  simpl. destruct x as [|a x]; [done|]. destruct (p a) eqn:E; [|done].
  intros H.
  assert (Hj : exists j, j <= span p x /\
            rmatch rest A (S i + j) (drop j x)
              ((n, take (S i + j - i) (a :: x)) :: c) k = Some v).
  { destruct g; [by apply star_greedy_sound in H|by apply star_lazy_sound in H]. }
  destruct Hj as (j & Hj & Hk). exists (a :: take j x), (drop j x).
  simpl. rewrite take_drop. split; [done|]. split; [done|].
  rewrite E, (span_prefix _ _ _ Hj). split; [done|].
  rewrite length_take_le by (pose proof (span_le p x); lia).
  replace (S i + j - i) with (S j) in Hk by lia.
  rewrite <- Hk. f_equal. lia.
Qed.

Lemma inv_ahead r1 rest i x c k v :
  rmatch (Cat (Ahead r1) rest) A i x c k = Some v ->
  exists c1, rmatch r1 caps i x c (fun _ _ c' => Some c') = Some c1 /\
             rmatch rest A i x c1 k = Some v.
Proof.
  simpl. destruct (rmatch r1 caps i x c _) as [c1|] eqn:E; [|done].
  intros H. by exists c1.
Qed.

End Inversion.

(** A pattern without groups hands the captures on unchanged. *)
Lemma rmatch_no_groups r : forall A i x c (k : cont A) v,
  no_groups r = true -> rmatch r A i x c k = Some v ->
  exists i' x', k i' x' c = Some v.
Proof.
  induction r as [|p|r1 IH1 r2 IH2|r1 IH1 r2 IH2|g p|n r1 IH1|r1 IH1| |];
    intros A i x c k v Hg; simpl in *; try done.
  - eauto.
  - destruct x as [|a x]; [done|]. destruct (p a); [eauto|done].
  - apply andb_true_iff in Hg as [H1 H2]. intros H.
    apply (IH1 _ _ _ _ _ _ H1) in H as (i1 & x1 & H).
    by apply (IH2 _ _ _ _ _ _ H2) in H.
  - apply andb_true_iff in Hg as [H1 H2].
    destruct (rmatch r1 A i x c k) eqn:E.
    + intros [= <-]. by apply (IH1 _ _ _ _ _ _ H1) in E.
    + by apply IH2.
  - destruct g; intros H;
      [apply star_greedy_sound in H|apply star_lazy_sound in H];
      destruct H as (j & _ & H); eauto.
  - destruct (rmatch r1 caps i x c _) as [c1|] eqn:E; [|done].
    apply (IH1 _ _ _ _ _ _ Hg) in E as (i1 & x1 & [= <-]). eauto.
  - destruct (Nat.eqb i 0); [eauto|done].
  - destruct x as [|a [|b x]]; [eauto| |done].
    destruct (eqc a "010"); [eauto|done].
Qed.

(** Every match that the scan reports is a match at some position. *)
Lemma finditer_from_elem r m : forall x i skip,
  In m (finditer_from r i skip x) ->
  exists j y, match_at r j y = Some m.
Proof.
  induction x as [|a x IH]; intros i skip; destruct skip as [|n];
    cbn [finditer_from]; try done.
  - destruct (match_at r i []) as [[len c]|] eqn:E; [|done].
    intros [<-|[]]. eauto.
  - destruct (match_at r i (a :: x)) as [[len c]|] eqn:E.
    + intros [<-|H]; [eauto|by eapply IH].
    + apply IH.
  - apply IH.
Qed.




(** The groups of a match of [field_pattern]. *)
Lemma match_at_field_groups i x len c :
  match_at field_pattern i x = Some (len, c) ->
  name_ok (group 1 c) /\ group 2 c <> [].
Proof.
  unfold match_at. rewrite field_pattern_eq. cbn [cat fold_right]. intros H.
  apply inv_grp_plus in H as (w1 & x1 & -> & Hne1 & Hw1 & H).
  apply inv_star in H as (s1 & x2 & -> & _ & H).
  unfold lit at 1 in H. apply inv_chr in H as (a1 & x3 & -> & _ & H).
  apply inv_star in H as (s2 & x4 & -> & _ & H).
  apply inv_grp_plus in H as (w2 & x5 & -> & Hne2 & _ & H).
  apply inv_ahead in H as (c1 & E & H).
  apply rmatch_no_groups in E as (i1 & y1 & [= <-]); [|done].
  rewrite step_eps in H. injection H as _ <-. by repeat split.
Qed.

Lemma lit_i_exact c a :
  In c ["@"; "{"; ","; "010"; "}"] ->
  eqc (lower_char c) (lower_char a) = true -> a = c.
Proof.
  intros Hc H. apply eqc_true in H.
  repeat (destruct Hc as [<-|Hc];
          [by destruct a as [[] [] [] [] [] [] [] []]|]).
  done.
Qed.

Lemma has_char_here a x : has_char a (a :: x) = true.
Proof. unfold has_char. simpl. by rewrite eqc_refl. Qed.

Lemma has_char_cons a b x : has_char a x = true -> has_char a (b :: x) = true.
Proof. unfold has_char. simpl. intros ->. apply orb_true_r. Qed.

Lemma has_char_app_r a w x :
  has_char a x = true -> has_char a (w ++ x) = true.
Proof. rewrite has_char_app. intros ->. apply orb_true_r. Qed.

Ltac find_char :=
  repeat first [apply has_char_here | apply has_char_cons
               | apply has_char_app_r].

(** A match of [entry_pattern] contains each of its five literals. *)
Lemma match_at_entry_chars i x m c :
  match_at entry_pattern i x = Some m ->
  In c ["@"; "{"; ","; "010"; "}"] -> has_char c x = true.
Proof.
  unfold match_at. rewrite entry_pattern_eq. cbn [cat fold_right]. intros H.
  unfold lit_i at 1 in H. apply inv_chr in H as (a0 & x0 & -> & E0 & H).
  apply inv_grp_plus in H as (w1 & x1 & -> & _ & _ & H).
  apply inv_star in H as (s1 & x2 & -> & _ & H).
  unfold lit_i at 1 in H. apply inv_chr in H as (a1 & x3 & -> & E1 & H).
  apply inv_star in H as (s2 & x4 & -> & _ & H).
  apply inv_grp_plus in H as (w2 & x5 & -> & _ & _ & H).
  apply inv_star in H as (s3 & x6 & -> & _ & H).
  unfold lit_i at 1 in H. apply inv_chr in H as (a2 & x7 & -> & E2 & H).
  apply inv_star in H as (s4 & x8 & -> & _ & H).
  apply inv_grp_star in H as (w3 & x9 & -> & _ & H).
  unfold lit_i at 1 in H. apply inv_chr in H as (a3 & x10 & -> & E3 & H).
  apply inv_star in H as (s5 & x11 & -> & _ & H).
  unfold lit_i at 1 in H. apply inv_chr in H as (a4 & x12 & -> & E4 & H).
  apply lit_i_exact in E0, E1, E2, E3, E4; simpl; try tauto. subst.
  intros Hc. repeat (destruct Hc as [<-|Hc]; [find_char|]). done.
Qed.

Lemma parse_content_eq content :
  parse_content content =
  map (fun m => BibtexEntry_init (group 1 (snd m)) (group 2 (snd m))
                  (_parse_fields (group 3 (snd m))))
      (finditer entry_pattern content).
Proof. unfold parse_content. by rewrite parse_content_loop. Qed.


(** X2: every field name of a parsed field map is a non-empty run of word
    characters. *)
Theorem parsed_field_names_are_words (fields_str k : str) :
  is_Some (_parse_fields fields_str !! k) ->
  k <> [] /\ forallb is_word k = true.
Proof.
  unfold _parse_fields.
  assert (H : forall ms (m0 : gmap str str),
    (forall m, In m ms -> name_ok (group 1 (snd m))) ->
    (forall k, is_Some (m0 !! k) -> name_ok k) ->
    forall k, is_Some (fold_left parse_fields_step ms m0 !! k) -> name_ok k).
  { induction ms as [|m ms IH]; intros m0 Hms Hm0 k'; [apply Hm0|].
    cbn [fold_left]. apply IH; [intros; apply Hms; by right|].
    intros k2. unfold parse_fields_step.
    destruct (decide (strip (group 1 (snd m)) = k2)) as [<-|Hne].
    - intros _. rewrite strip_name; apply Hms; by left.
    - rewrite lookup_insert_ne by done. apply Hm0. }
  apply H.
  - intros [len c] Hin. apply finditer_from_elem in Hin as (j & y & Hm).
    by apply match_at_field_groups in Hm as [Hn _].
  - intros k' [v Hv]. by rewrite lookup_empty in Hv.
Qed.

Lemma parsed_field_names_are_words_witness :
  s "Title" <> [] /\ forallb is_word (s "Title") = true.
Proof.
  apply (parsed_field_names_are_words
           (s "Title = {A}, year = 2020") (s "Title")).
  exists (s "A"). vm_compute. reflexivity.
Defined.

(** X3: a text that lacks one of the characters [@], [{], [,], line feed
    and [}] has no entry; in particular an entry whose closing brace is not
    preceded by a line feed is not parsed. *)
Theorem parse_content_needs_literals (content : str) (c : ascii) :
  In c ["@"; "{"; ","; "010"; "}"] -> has_char c content = false ->
  parse_content content = [].
Proof.
  intros Hc Hno. rewrite parse_content_eq. unfold finditer.
  rewrite finditer_from_no_match; [done|]. intros j _.
  destruct (match_at entry_pattern (0 + j) (drop j content)) as [m|] eqn:E;
    [|done].
  apply (match_at_entry_chars _ _ _ c) in E; [|done].
  by rewrite has_char_false_drop in E.
Qed.

Lemma parse_content_needs_literals_witness :
  parse_content example_input_one_line = [].
Proof.
  apply (parse_content_needs_literals example_input_one_line "010");
    [simpl; tauto|reflexivity].
Defined.

Lemma fold_insert_cleaned_lookup ls : forall m0 n,
  fold_left insert_cleaned ls m0 !! n =
  match last_value n ls with
  | Some E => Some (cleaned E)
  | None => m0 !! n
  end.
Proof.
  induction ls as [|[m E] ls IH]; intros m0 n; [done|].
  cbn [fold_left last_value]. rewrite IH.
  destruct (last_value n ls); [done|].
  unfold insert_cleaned, str_eqb. cbn [fst snd]. case_bool_decide.
  - subst. by rewrite lookup_insert_eq.
  - by rewrite lookup_insert_ne.
Qed.

(** X4: a text that lays a record out as header, one line [name = value,]
    per field and a closing brace parses to one record with the lowered
    kind, the key, and for every name the cleaned value of the last line
    that assigns it. *)
Theorem parse_entry_layout (K X : str) (ls : list (str * str)) :
  name_ok K -> key_ok X -> fields_ok ls ->
  Forall (fun l => tidy (snd l)) ls ->
  exists e, parse_content (entry_text K X ls) = [e] /\
            entry_type e = lower K /\ cite_key e = X /\
            forall n, fields e !! n = cleaned <$> last_value n ls.
Proof.
  intros HK HX Hls Ht. eexists. split; [by apply parse_entry_text|].
  cbn [entry_type cite_key fields BibtexEntry_init]. repeat split.
  intros n. rewrite parse_fields_body, fold_insert_cleaned_lookup by done.
  by destruct (last_value n ls).
Qed.

Lemma parse_entry_layout_witness :
  exists e,
    parse_content
      (s "@Misc{k1," ++ nl ++ s "  note = {first}," ++ nl
       ++ s "  year = 2020," ++ nl ++ s "  note = 'second'," ++ nl ++ s "}")
    = [e] /\
    fields e !! s "note" = Some (s "second") /\
    fields e !! s "year" = Some (s "2020").
Proof.
  destruct (parse_entry_layout (s "Misc") (s "k1")
              [(s "note", s "{first}"); (s "year", s "2020");
               (s "note", s "'second'")])
    as (e & Hp & _ & _ & Hf).
  - by split.
  - by split.
  - repeat constructor; simpl; try done; by left.
  - repeat constructor.
  - exists e. split; [exact Hp|]. by rewrite !Hf.
Defined.

(** ** Reading back the file that [main] writes: proofs *)

Lemma entry_text_app K X l ls z :
  entry_text K X (l :: ls) ++ z =
  "@" :: K ++ "{" :: X ++ "," :: ["010"; " "; " "] ++ body (l :: ls)
      ++ "010" :: "}" :: z.
Proof.
  unfold entry_text, entry_tail. cbn [app].
  rewrite <- !app_assoc. cbn [app]. f_equal. f_equal.
  rewrite <- !app_assoc. cbn [app]. by rewrite <- !app_assoc.
Qed.

(** The match of [entry_pattern] on a serialized record with at least one
    field line ends at its closing brace, whatever follows. *)
Lemma match_at_entry_text_app i K X l ls z :
  name_ok K -> key_ok X -> fields_ok (l :: ls) ->
  match_at entry_pattern i (entry_text K X (l :: ls) ++ z)
  = Some (length (entry_text K X (l :: ls)),
          [(3, body (l :: ls)); (2, X); (1, K)]).
Proof.
  intros [HKne HK] [HXne HX] Hls. rewrite entry_text_app.
  unfold match_at. rewrite entry_pattern_eq. cbn [cat fold_right].
  rewrite step_lit_i.
  apply step_grp_plus_max; [done..|].
  apply (step_star_max is_space []); [done..|].
  rewrite step_lit_i.
  apply (step_star_max is_space []); [done| |].
  { destruct X as [|a X]; [done|]. simpl in *.
    apply andb_true_iff in HX as [Ha _].
    by apply not_comma_space_spec in Ha as [_ Ha]. }
  apply step_grp_plus_max; [done..|].
  apply (step_star_max is_space []); [done..|].
  rewrite step_lit_i.
  destruct l as [n E]. pose proof Hls as Hls'.
  apply Forall_cons in Hls' as [[Hn _] _]. simpl in Hn.
  apply (step_star_max is_space ["010"; " "; " "]); [done| |].
  { apply stops_app_l; [by destruct n|by apply body_head_word]. }
  apply step_grp_lazy_any.
  - rewrite step_lit_i.
    apply (step_star_max is_space []); [done..|].
    rewrite step_lit_i, step_eps. f_equal. f_equal.
    unfold entry_text, entry_tail.
    repeat first [rewrite length_app|progress cbn [length]]. lia.
  - intros j Hj. apply (entry_close_none _ (drop j (body ((n, E) :: ls)))).
    + intros H. apply (f_equal length) in H. rewrite length_drop in H.
      cbn [length] in H. lia.
    + by apply nl_guard_drop, nl_guard_body.
Qed.

Lemma match_at_entry_newline i x :
  match_at entry_pattern i ("010" :: x) = None.
Proof. done. Qed.

Lemma field_values_nonempty e :
  emitted_fields e <> [] -> exists l ls, field_values e = l :: ls.
Proof.
  unfold field_values. destruct (emitted_fields e); [done|]. eauto.
Qed.

(** The matches of [entry_pattern] in the written file. *)
Lemma finditer_write_entries es : forall i,
  Forall (fun e => round_trip_ready e /\ emitted_fields e <> []) es ->
  finditer_from entry_pattern i 0 (write_entries es)
  = map (fun e => (length (to_bibtex e),
                   [(3, body (field_values e)); (2, cite_key e);
                    (1, entry_type e)])) es.
Proof.
  induction es as [|e es IH]; intros i Hes; [done|].
  apply Forall_cons in Hes as [[Hr Hne] Hes].
  pose proof Hr as (HK & _ & HX & _).
  destruct (field_values_ok e Hr) as [Hls _].
  destruct (field_values_nonempty e Hne) as (l & ls & El).
  unfold write_entries. cbn [map concat]. fold (write_entries es).
  rewrite <- app_assoc.
  rewrite (finditer_from_match _ _ _ _
             [(3, body (field_values e)); (2, cite_key e); (1, entry_type e)]).
  - cbn [app]. rewrite !finditer_from_fail by apply match_at_entry_newline.
    by rewrite IH.
  - rewrite to_bibtex_entry_text. done.
  - rewrite to_bibtex_entry_text, El.
    rewrite match_at_entry_text_app; [done|done|done|by rewrite <- El].
Qed.

Lemma parse_write_entries es :
  Forall (fun e => round_trip_ready e /\ emitted_fields e <> []) es ->
  parse_content (write_entries es) = map reparsed es.
Proof.
  intros Hes. rewrite parse_content_eq. unfold finditer.
  rewrite finditer_write_entries by done. by rewrite map_map.
Qed.

Lemma to_bibtex_reparsed e :
  round_trip_ready e -> to_bibtex (reparsed e) = to_bibtex e.
Proof.
  intros ready. pose proof ready as (HK & Hlow & HX & _).
  destruct (field_values_ok e ready) as [Hls Ht].
  unfold reparsed. rewrite parse_fields_body by done.
  rewrite !to_bibtex_entry_text. rewrite round_trip_field_values by done.
  cbn [entry_type cite_key BibtexEntry_init]. by rewrite Hlow.
Qed.

(** X5: when every record is fit for the round trip and has at least one
    allow-listed field, the file that [main] writes parses to one record
    per written record, in order: the record that the text of each parses
    to on its own, with the same key and kind; and writing these records
    again gives the same file. *)
Theorem written_file_parses_back (es : list BibtexEntry) :
  Forall (fun e => round_trip_ready e /\ emitted_fields e <> []) es ->
  let es' := parse_content (write_entries es) in
  es' = concat (map (fun e => parse_content (to_bibtex e)) es) /\
  map cite_key es' = map cite_key es /\
  map entry_type es' = map entry_type es /\
  write_entries es' = write_entries es.
Proof.
  intros Hes es'. unfold es'. rewrite parse_write_entries by done.
  split; [|split; [|split]].
  - induction Hes as [|e es [Hr _] _ IH]; [done|].
    pose proof Hr as (HK & _ & HX & _).
    destruct (field_values_ok e Hr) as [Hls _].
    cbn [map concat]. rewrite <- IH.
    by rewrite to_bibtex_entry_text, parse_entry_text.
  - rewrite map_map. done.
  - rewrite map_map. apply map_ext_in. intros e He%list_elem_of_In.
    rewrite Forall_forall in Hes. destruct (Hes e He) as [(_ & Hl & _) _].
    cbn [reparsed entry_type BibtexEntry_init]. apply Hl.
  - unfold write_entries. rewrite map_map. f_equal.
    apply map_ext_in. intros e He%list_elem_of_In.
    rewrite Forall_forall in Hes. destruct (Hes e He) as [Hr _].
    by rewrite to_bibtex_reparsed.
Qed.

Lemma written_file_parses_back_witness :
  let es := [BibtexEntry_init (s "Article") (s "a1")
               (<[s "title" := s "On {T}rees"]> (<[s "year" := s "2020"]> ∅));
             BibtexEntry_init (s "InProceedings") (s "b2")
               (<[s "author" := s "Knuth, Donald E."]>
                  (<[s "pages" := s "97--111"]> ∅))] in
  map cite_key (parse_content (write_entries es)) = [s "a1"; s "b2"] /\
  write_entries (parse_content (write_entries es)) = write_entries es.
Proof.
  intros es.
  destruct (written_file_parses_back es) as (_ & Hk & _ & Hw);
    [|split; [exact Hk|exact Hw]].
  repeat constructor; try done;
    intros k v Hk Hf Hne; unfold essential_fields in Hk; simpl in Hk;
    repeat (destruct Hk as [<-|Hk];
      [vm_compute in Hf; try discriminate Hf; injection Hf as <-;
       first [by vm_compute
             |split; [split; [reflexivity|by (left + right)]|
                      first [by left|right; left; reflexivity
                            |right; right; by split]]]|]);
    done.
Defined.

(** ** A record without field lines in the written file: proofs *)

Section Absorb.

Context {A : Type}.
Variables (c : caps) (k : cont A).

Local Abbreviation no_close := (no_close c k).

Lemma no_close_app y1 y2 t :
  (forall j, j < length y1 -> no_close (drop j y1 ++ y2 ++ t)) ->
  (forall j, j < length y2 -> no_close (drop j y2 ++ t)) ->
  forall j, j < length (y1 ++ y2) -> no_close (drop j (y1 ++ y2) ++ t).
Proof.
  intros H1 H2 j Hj. rewrite length_app in Hj.
  destruct (decide (j < length y1)) as [Hlt|Hge].
  - rewrite drop_app_le by lia. rewrite <- app_assoc. by apply H1.
  - rewrite drop_app_ge by lia. apply H2. lia.
Qed.

Lemma no_close_not_newline a x : eqc "010" a = false -> no_close (a :: x).
Proof.
  intros Ha i. unfold entry_close, lit_i. cbn [cat fold_right rmatch].
  by rewrite lit_i_newline, Ha.
Qed.

Lemma no_close_dot y t :
  forallb dot_char y = true ->
  forall j, j < length y -> no_close (drop j y ++ t).
Proof.
  intros Hy j Hj. apply (forallb_drop _ j) in Hy.
  destruct (drop j y) as [|a y'] eqn:E.
  - apply (f_equal length) in E. rewrite length_drop in E. simpl in E. lia.
  - simpl in Hy. apply andb_true_iff in Hy as [Ha _].
    apply no_close_not_newline. unfold dot_char in Ha.
    apply negb_true_iff in Ha. by rewrite eqc_sym.
Qed.

Lemma no_close_guarded y t :
  nl_guard y = true -> forall j, j < length y -> no_close (drop j y ++ t).
Proof.
  intros Hy j Hj i. apply entry_close_none.
  - intros E. apply (f_equal length) in E. rewrite length_drop in E.
    simpl in E. lia.
  - by apply nl_guard_drop.
Qed.

(** After the closing brace of the record and the two line feeds that
    [main] writes, the header of the next record follows. *)
Lemma no_close_gap x :
  forall j, j < 3 -> no_close (drop j ["}"; "010"; "010"] ++ "@" :: x).
Proof.
  intros j Hj i. destruct j as [|[|[|j]]]; [| | |lia]; cbn [drop app].
  - by apply no_close_not_newline.
  - unfold entry_close, lit_i. cbn [cat fold_right rmatch].
    char_eval. cbv iota. apply star_greedy_none. cbn [span]. char_eval.
    cbv iota. intros j Hj'.
    destruct j as [|[|j]]; [| |lia]; cbn [drop rmatch]; by char_eval.
  - unfold entry_close, lit_i. cbn [cat fold_right rmatch].
    char_eval. cbv iota. apply star_greedy_none. cbn [span]. char_eval.
    cbv iota. intros j Hj'.
    destruct j as [|j]; [|lia]; cbn [drop rmatch]; by char_eval.
Qed.

Lemma header_dot K X :
  name_ok K -> key_ok X ->
  forallb dot_char ("@" :: K ++ "{" :: X ++ [","]) = true.
Proof.
  intros [_ HK] [_ HX]. cbn [forallb]. rewrite forallb_app. cbn [forallb].
  rewrite forallb_app. cbn [forallb]. char_eval.
  rewrite (forallb_word_dot K HK).
  assert (Hx : forallb dot_char X = true).
  { eapply forallb_weaken; [|exact HX]. intros a Ha.
    apply not_comma_space_spec in Ha as [_ Ha]. unfold dot_char.
    destruct (eqc a "010") eqn:E; [|done].
    apply eqc_true in E as ->. done. }
  by rewrite Hx.
Qed.

Lemma nl_guard_lines l ls :
  fields_ok (l :: ls) -> nl_guard (["010"; " "; " "] ++ body (l :: ls)) = true.
Proof.
  intros Hls. pose proof (nl_guard_body (l :: ls) Hls) as Hb.
  destruct l as [n E]. apply Forall_cons in Hls as [[[Hne Hn] _] _].
  simpl in Hne, Hn. cbn [app nl_guard]. char_eval. cbv iota. cbn [andb].
  rewrite Hb, andb_true_r. destruct n as [|a n]; [done|].
  simpl in Hn. apply andb_true_iff in Hn as [Ha _]. cbn [body app].
  by rewrite Ha.
Qed.

Lemma no_close_absorbed K2 X2 l ls t :
  name_ok K2 -> key_ok X2 -> fields_ok (l :: ls) ->
  forall j, j < length (absorbed K2 X2 (l :: ls)) ->
            no_close (drop j (absorbed K2 X2 (l :: ls)) ++ t).
Proof.
  intros HK HX Hls. unfold absorbed. apply no_close_app.
  - intros j Hj. apply no_close_gap. simpl in Hj. lia.
  - apply no_close_app.
    + by apply no_close_dot, header_dot.
    + by apply no_close_guarded, nl_guard_lines.
Qed.

End Absorb.

Lemma absorbed_text K1 X1 K2 X2 l ls z :
  (entry_text K1 X1 [] ++ ["010"; "010"] ++ entry_text K2 X2 (l :: ls)) ++ z
  = "@" :: K1 ++ "{" :: X1 ++ "," :: ["010"] ++ absorbed K2 X2 (l :: ls)
        ++ "010" :: "}" :: z.
Proof.
  unfold entry_text, entry_tail, absorbed. cbn [app].
  repeat (rewrite <- ?app_assoc; cbn [app]; f_equal).
Qed.

Lemma absorbed_length K1 X1 K2 X2 l ls :
  length (entry_text K1 X1 [] ++ ["010"; "010"] ++ entry_text K2 X2 (l :: ls))
  = length K1 + length X1 + length (absorbed K2 X2 (l :: ls)) + 6.
Proof.
  unfold entry_text, entry_tail, absorbed.
  repeat first [rewrite length_app|progress cbn [length app]]. lia.
Qed.

(** The match of [entry_pattern] at a header without field lines runs to
    the end of the next record. *)
Lemma match_at_absorbing i K1 X1 K2 X2 l ls z :
  name_ok K1 -> key_ok X1 -> name_ok K2 -> key_ok X2 -> fields_ok (l :: ls) ->
  match_at entry_pattern i
    ((entry_text K1 X1 [] ++ ["010"; "010"] ++ entry_text K2 X2 (l :: ls))
     ++ z)
  = Some (length (entry_text K1 X1 [] ++ ["010"; "010"]
                  ++ entry_text K2 X2 (l :: ls)),
          [(3, absorbed K2 X2 (l :: ls)); (2, X1); (1, K1)]).
Proof.
  intros [HKne HK] [HXne HX] HK2 HX2 Hls.
  rewrite absorbed_text, absorbed_length.
  unfold match_at. rewrite entry_pattern_eq. cbn [cat fold_right].
  rewrite step_lit_i.
  apply step_grp_plus_max; [done..|].
  apply (step_star_max is_space []); [done..|].
  rewrite step_lit_i.
  apply (step_star_max is_space []); [done| |].
  { destruct X1 as [|a X]; [done|]. simpl in *.
    apply andb_true_iff in HX as [Ha _].
    by apply not_comma_space_spec in Ha as [_ Ha]. }
  apply step_grp_plus_max; [done..|].
  apply (step_star_max is_space []); [done..|].
  rewrite step_lit_i.
  apply (step_star_max is_space ["010"]); [done|done|].
  apply step_grp_lazy_any.
  - rewrite step_lit_i.
    apply (step_star_max is_space []); [done..|].
    rewrite step_lit_i, step_eps. f_equal. f_equal.
    repeat first [rewrite length_app|progress cbn [length]]. lia.
  - intros j Hj. by apply no_close_absorbed.
Qed.

(** X25: in the file that [main] writes, a record that has none of the
    allow-listed fields takes the record after it with it when the file is
    read again: the two are parsed as one record, with the kind and key of
    the first. *)
Theorem fieldless_record_absorbs_the_next (e1 e2 : BibtexEntry) :
  name_ok (entry_type e1) -> key_ok (cite_key e1) -> emitted_fields e1 = [] ->
  round_trip_ready e2 -> emitted_fields e2 <> [] ->
  exists e, parse_content (write_entries [e1; e2]) = [e] /\
            entry_type e = lower (entry_type e1) /\
            cite_key e = cite_key e1.
Proof.
  intros HK1 HX1 He1 Hr2 He2. pose proof Hr2 as (HK2 & _ & HX2 & _).
  destruct (field_values_ok e2 Hr2) as [Hls _].
  destruct (field_values_nonempty e2 He2) as (l & ls & El).
  rewrite El in Hls.
  assert (Ht1 : to_bibtex e1 = entry_text (entry_type e1) (cite_key e1) []).
  { rewrite to_bibtex_entry_text. unfold field_values. by rewrite He1. }
  assert (Ht2 : to_bibtex e2
                = entry_text (entry_type e2) (cite_key e2) (l :: ls)).
  { by rewrite to_bibtex_entry_text, El. }
  assert (Hw : write_entries [e1; e2]
    = (entry_text (entry_type e1) (cite_key e1) [] ++ ["010"; "010"]
       ++ entry_text (entry_type e2) (cite_key e2) (l :: ls))
      ++ ["010"; "010"]).
  { unfold write_entries. cbn [map concat]. rewrite Ht1, Ht2, app_nil_r.
    by rewrite <- !app_assoc. }
  eexists. split.
  - rewrite parse_content_eq, Hw. unfold finditer.
    rewrite (finditer_from_match _ _ _ _
               [(3, absorbed (entry_type e2) (cite_key e2) (l :: ls));
                (2, cite_key e1); (1, entry_type e1)]).
    + rewrite !finditer_from_fail by apply match_at_entry_newline.
      cbn [finditer_from]. rewrite match_at_entry_nil. cbn [map snd].
      reflexivity.
    + unfold entry_text. done.
    + by apply match_at_absorbing.
  - done.
Qed.

Lemma fieldless_record_absorbs_the_next_witness :
  let e1 := BibtexEntry_init (s "misc") (s "a") (<[s "url" := s "u"]> ∅) in
  let e2 := BibtexEntry_init (s "article") (s "b")
              (<[s "title" := s "T"]> ∅) in
  exists e, parse_content (write_entries [e1; e2]) = [e] /\
            entry_type e = s "misc" /\ cite_key e = s "a".
Proof.
  intros e1 e2.
  apply (fieldless_record_absorbs_the_next e1 e2);
    [by split|by split|reflexivity| |by vm_compute].
  split; [by split|]. split; [reflexivity|]. split; [by split|].
  intros k v Hk Hf Hne. unfold essential_fields in Hk. simpl in Hk.
  repeat (destruct Hk as [<-|Hk];
    [vm_compute in Hf; try discriminate Hf; injection Hf as <-;
     first [by vm_compute
           |split; [split; [reflexivity|by (left + right)]|
                    first [by left|right; left; reflexivity
                          |right; right; by split]]]|]).
  done.
Defined.

(** ** Requests, pauses and bookkeeping of the client: proofs *)

Section ClientExtra.

Context {World : Type}.
Variable http_search : str -> World -> option (option HitsField) * World.
Variable http_bib : str -> World -> option str * World.
Variable sleep : World -> World.
Variable quote_plus : str -> str.
Variable max_retries : nat.

Local Abbreviation attempt := (search_attempt http_search sleep quote_plus).
Local Abbreviation loop := (search_loop http_search sleep quote_plus max_retries).
Local Abbreviation search := (search_by_title http_search sleep quote_plus max_retries).
Local Abbreviation download := (download_bibtex_from_dblp http_bib max_retries).
Local Abbreviation step := (main_step http_search http_bib sleep quote_plus max_retries).

Section Counting.

Variables requests pauses : World -> nat.
Hypothesis search_counts :
  forall q w, requests (snd (http_search q w)) = S (requests w).
Hypothesis sleep_no_request : forall w, requests (sleep w) = requests w.
Hypothesis search_no_pause :
  forall q w, pauses (snd (http_search q w)) = pauses w.
Hypothesis sleep_counts : forall w, pauses (sleep w) = S (pauses w).

Lemma search_attempt_counts title w :
  let r := attempt title w in
  requests w < requests (snd r) <= requests w + 2 /\
  match fst r with
  | Some (Some _) => pauses (snd r) = S (pauses w)
  | Some None => pauses w <= pauses (snd r) <= S (pauses w)
  | None => pauses (snd r) = pauses w
  end.
Proof using search_counts sleep_no_request search_no_pause sleep_counts.
  unfold search_attempt.
  pose proof (search_counts (["034"] ++ title ++ ["034"]) w) as R1.
  pose proof (search_no_pause (["034"] ++ title ++ ["034"]) w) as P1.
  destruct (http_search _ w) as [[data|] w1]; simpl in *; [|lia].
  destruct (falsy (extract_hit_list data)) eqn:F1.
  - pose proof (search_counts (quote_plus title) w1) as R2.
    pose proof (search_no_pause (quote_plus title) w1) as P2.
    destruct (http_search (quote_plus title) w1) as [[data2|] w2];
      simpl in *; [|lia].
    destruct (falsy (extract_hit_list data2)); simpl; [lia|].
    rewrite sleep_no_request, sleep_counts.
    destruct (select_hit _); lia.
  - rewrite F1. simpl. rewrite sleep_no_request, sleep_counts.
    destruct (select_hit _); lia.
Qed.

Lemma search_loop_counts title attempts : forall w,
  let r := loop title attempts w in
  requests w <= requests (snd r) <= requests w + 2 * length attempts /\
  pauses w <= pauses (snd r) <= pauses w + length attempts /\
  (is_Some (fst r) -> pauses w < pauses (snd r)).
Proof using search_counts sleep_no_request search_no_pause sleep_counts.
  induction attempts as [|a rest IH]; intros w; cbn zeta;
    cbn [search_loop length].
  - simpl. split; [lia|]. split; [lia|]. by intros [? ?].
  - pose proof (search_attempt_counts title w) as [R P]. cbn zeta in R, P.
    destruct (attempt title w) as [[res|] w1]; cbn [fst snd] in *.
    + destruct res; (split; [lia|]; split; [lia|]); [intros _; lia|by intros [? ?]].
    + destruct (Nat.ltb _ _).
      * specialize (IH (sleep w1)). cbn zeta in IH.
        rewrite sleep_no_request, sleep_counts in IH.
        destruct IH as (IH1 & IH2 & IH3). split; [lia|]. split; [lia|].
        intros H'. specialize (IH3 H'). lia.
      * simpl. split; [lia|]. split; [lia|]. by intros [? ?].
Qed.

Hypothesis search_down : forall q w, fst (http_search q w) = None.

Lemma search_attempt_down title w :
  attempt title w = (None, snd (http_search (["034"] ++ title ++ ["034"]) w)).
Proof using search_down.
  unfold search_attempt.
  pose proof (search_down (["034"] ++ title ++ ["034"]) w) as D.
  by destruct (http_search _ w) as [[data|] w1].
Qed.

Lemma search_loop_down title n : forall a w,
  a + n = max_retries ->
  let r := loop title (seq a n) w in
  fst r = None /\ requests (snd r) = requests w + n /\
  pauses (snd r) = pauses w + (n - 1).
Proof using search_counts sleep_no_request search_no_pause sleep_counts
  search_down.
  induction n as [|n IH]; intros a w Han; cbn [seq search_loop].
  - simpl. split; [done|]. lia.
  - rewrite search_attempt_down.
    pose proof (search_counts (["034"] ++ title ++ ["034"]) w) as R1.
    pose proof (search_no_pause (["034"] ++ title ++ ["034"]) w) as P1.
    set (w1 := snd (http_search _ w)) in *.
    destruct (Nat.ltb (a + 1) max_retries) eqn:L.
    + apply Nat.ltb_lt in L.
      specialize (IH (S a) (sleep w1) ltac:(lia)). simpl in IH.
      rewrite sleep_no_request, sleep_counts in IH.
      destruct IH as (? & ? & ?). split; [done|]. lia.
    + apply Nat.ltb_ge in L. simpl. split; [done|]. lia.
Qed.

End Counting.

Lemma search_attempt_paused title w h w' :
  attempt title w = (Some (Some h), w') -> exists w0, w' = sleep w0.
Proof.
  unfold search_attempt.
  destruct (http_search _ w) as [[data|] w1]; [|done].
  destruct (falsy (extract_hit_list data)) eqn:F1.
  - destruct (http_search (quote_plus title) w1) as [[data2|] w2]; [|done].
    destruct (falsy (extract_hit_list data2)); [done|].
    intros H. simplify_eq. eauto.
  - rewrite F1. intros H. simplify_eq. eauto.
Qed.

Lemma search_loop_paused title attempts : forall w h w',
  loop title attempts w = (Some h, w') -> exists w0, w' = sleep w0.
Proof.
  induction attempts as [|a rest IH]; intros w h w'; simpl; [done|].
  destruct (attempt title w) as [[res|] w1] eqn:E.
  - intros H. simplify_eq. by eapply search_attempt_paused.
  - destruct (Nat.ltb _ _); [apply IH|done].
Qed.

Lemma search_loop_none_down title attempts : forall w,
  (forall q w, fst (http_search q w) = None) ->
  fst (loop title attempts w) = None.
Proof.
  intros w D. revert w. induction attempts as [|a rest IH]; intros w;
    cbn [search_loop]; [done|].
  rewrite search_attempt_down by done. destruct (Nat.ltb _ _); [apply IH|done].
Qed.

Lemma search_down_none title w :
  (forall q w, fst (http_search q w) = None) -> fst (search title w) = None.
Proof.
  intros D. unfold search_by_title. destruct (strip title); [done|].
  by apply search_loop_none_down.
Qed.

Lemma download_loop_counts (requests : World -> nat) bib_url key attempts :
  (forall u w, requests (snd (http_bib u w)) = S (requests w)) ->
  forall w,
  requests w <=
  requests (snd (download_loop http_bib max_retries bib_url key attempts w))
  <= requests w + length attempts.
Proof.
  intros Hc. induction attempts as [|a rest IH]; intros w;
    cbn [download_loop length]; [simpl; lia|].
  pose proof (Hc bib_url w) as R.
  destruct (http_bib bib_url w) as [[body|] w1]; simpl in R.
  - destruct (strip body); [simpl; lia|].
    destruct (parse_content body); simpl; lia.
  - destruct (Nat.ltb _ _); [|simpl; lia].
    specialize (IH w1). simpl in *. lia.
Qed.

Lemma download_loop_down (requests : World -> nat) bib_url key n :
  (forall u w, requests (snd (http_bib u w)) = S (requests w)) ->
  (forall u w, fst (http_bib u w) = None) ->
  forall a w, a + n = max_retries ->
  let r := download_loop http_bib max_retries bib_url key (seq a n) w in
  fst r = None /\ requests (snd r) = requests w + n.
Proof.
  intros Hc Hd. induction n as [|n IH]; intros a w Han;
    cbn [seq download_loop]; [simpl; split; [done|lia]|].
  pose proof (Hc bib_url w) as R. pose proof (Hd bib_url w) as D.
  destruct (http_bib bib_url w) as [[body|] w1]; simpl in R, D; [done|].
  destruct (Nat.ltb (a + 1) max_retries) eqn:L.
  - apply Nat.ltb_lt in L. specialize (IH (S a) w1 ltac:(lia)).
    simpl in IH. destruct IH. split; [done|]. lia.
  - apply Nat.ltb_ge in L. simpl. split; [done|]. lia.
Qed.

(** One step of the loop of [main] and what it appends. *)
Lemma main_step_cases upd failed w entry :
  exists out w1,
    cite_key out = cite_key entry /\
    (step (upd, failed, w) entry = (upd ++ [out], failed, w1) \/
     out = entry /\
     step (upd, failed, w) entry
     = (upd ++ [entry], failed ++ [cite_key entry], w1)).
Proof.
  unfold main_step. destruct (get_title entry); [eauto 10|].
  destruct (search _ w) as [[hit|] w1]; [|eauto 10].
  destruct (download hit (cite_key entry) w1) as [[e|] w2] eqn:D; [|eauto 10].
  exists e, w2. split; [|by left].
  apply download_returns_first_record_rekeyed_aux in D
    as (body & first & rest & _ & ->). done.
Qed.

Lemma main_loop_keys entries : forall upd failed w,
  exists outs kept w',
    fold_left step entries (upd, failed, w)
    = (upd ++ outs, failed ++ map cite_key kept, w') /\
    map cite_key outs = map cite_key entries /\
    sublist kept entries /\ sublist kept outs.
Proof.
  induction entries as [|entry entries IH]; intros upd failed w;
    cbn [fold_left].
  - exists [], [], w. by rewrite !app_nil_r.
  - destruct (main_step_cases upd failed w entry)
      as (out & w1 & Hk & [->|[-> ->]]).
    + destruct (IH (upd ++ [out]) failed w1)
        as (outs & kept & w' & -> & Hks & S1 & S2).
      exists (out :: outs), kept, w'. rewrite <- app_assoc. split; [done|].
      split; [simpl; by rewrite Hk, Hks|].
      split; by apply sublist_cons.
    + destruct (IH (upd ++ [entry]) (failed ++ [cite_key entry]) w1)
        as (outs & kept & w' & -> & Hks & S1 & S2).
      exists (entry :: outs), (entry :: kept), w'. rewrite <- !app_assoc.
      split; [done|]. split; [simpl; by rewrite Hks|].
      split; by apply sublist_skip.
Qed.

Lemma main_loop_all_kept entries : forall upd failed w,
  (forall e w, In e entries -> get_title e <> [] ->
               fst (search (get_title e) w) = None) ->
  exists w',
    fold_left step entries (upd, failed, w)
    = (upd ++ entries, failed ++ map cite_key entries, w').
Proof.
  induction entries as [|entry entries IH]; intros upd failed w Hs;
    cbn [fold_left].
  - exists w. by rewrite !app_nil_r.
  - assert (Hstep : exists w1, step (upd, failed, w) entry
              = (upd ++ [entry], failed ++ [cite_key entry], w1)).
    { unfold main_step. destruct (get_title entry) eqn:T; [eauto|].
      specialize (Hs entry w (or_introl eq_refl)). rewrite T in Hs.
      destruct (search _ w) as [[hit|] w1]; [|eauto].
      by specialize (Hs ltac:(done)). }
    destruct Hstep as [w1 ->].
    destruct (IH (upd ++ [entry]) (failed ++ [cite_key entry]) w1) as [w' ->].
    { intros e w2 He. apply Hs. by right. }
    exists w'. by rewrite <- !app_assoc.
Qed.

Lemma main_loop_untitled entries : forall upd failed w,
  Forall (fun e => get_title e = []) entries ->
  fold_left step entries (upd, failed, w)
  = (upd ++ entries, failed ++ map cite_key entries, w).
Proof.
  induction entries as [|entry entries IH]; intros upd failed w Hs;
    cbn [fold_left].
  - by rewrite !app_nil_r.
  - apply Forall_cons in Hs as [T Hs]. unfold main_step at 2. rewrite T.
    rewrite IH by done. by rewrite <- !app_assoc.
Qed.

End ClientExtra.

(** X6: a search sends at most two requests per allowed attempt and pauses
    at most once per allowed attempt; a title of whitespace only sends
    nothing; and a search that returns a hit has paused at least once. *)
Theorem search_requests_and_pauses_bounded {World : Type}
    (http_search : str -> World -> option (option HitsField) * World)
    (sleep : World -> World) (quote_plus : str -> str) (max_retries : nat)
    (requests pauses : World -> nat) (title : str) (w : World) :
  (forall q w, requests (snd (http_search q w)) = S (requests w)) ->
  (forall w, requests (sleep w) = requests w) ->
  (forall q w, pauses (snd (http_search q w)) = pauses w) ->
  (forall w, pauses (sleep w) = S (pauses w)) ->
  let r := search_by_title http_search sleep quote_plus max_retries title w in
  requests w <= requests (snd r) <= requests w + 2 * max_retries /\
  pauses w <= pauses (snd r) <= pauses w + max_retries /\
  (is_Some (fst r) -> pauses w < pauses (snd r)) /\
  (strip title = [] -> r = (None, w)).
Proof.
  intros H1 H2 H3 H4 r. unfold r, search_by_title.
  destruct (strip title) as [|c t].
  - simpl. split; [lia|]. split; [lia|]. split; [by intros [? ?]|done].
  - pose proof (search_loop_counts http_search sleep quote_plus max_retries
                  requests pauses H1 H2 H3 H4 title (seq 0 max_retries) w)
      as H.
    cbn zeta in H. rewrite length_seq in H.
    destruct H as (Ha & Hb & Hc). split; [done|]. split; [done|]. by split.
Qed.

Lemma search_requests_and_pauses_bounded_witness :
  let hits := [mock_hit "ICML" "u"] in
  let r := search_by_title (counted_search hits) pause (fun q => q) 3
             (s "A title") (0, 0) in
  requests_of (snd r) <= 6 /\ pauses_of (snd r) <= 3 /\
  0 < pauses_of (snd r).
Proof.
  intros hits r.
  destruct (search_requests_and_pauses_bounded (counted_search hits) pause
              (fun q => q) 3 requests_of pauses_of (s "A title") (0, 0))
    as (Ha & Hb & Hc & _); try done.
  split; [exact (proj2 Ha)|]. split; [exact (proj2 Hb)|].
  apply Hc. eexists. vm_compute. reflexivity.
Defined.

(** X7: when every search request raises, a search for a title that is
    not blank returns nothing after exactly [max_retries] requests, with a
    pause between two of them and none after the last. *)
Theorem search_gives_up_after_max_retries {World : Type}
    (http_search : str -> World -> option (option HitsField) * World)
    (sleep : World -> World) (quote_plus : str -> str) (max_retries : nat)
    (requests pauses : World -> nat) (title : str) (w : World) :
  (forall q w, requests (snd (http_search q w)) = S (requests w)) ->
  (forall w, requests (sleep w) = requests w) ->
  (forall q w, pauses (snd (http_search q w)) = pauses w) ->
  (forall w, pauses (sleep w) = S (pauses w)) ->
  (forall q w, fst (http_search q w) = None) ->
  strip title <> [] ->
  let r := search_by_title http_search sleep quote_plus max_retries title w in
  fst r = None /\ requests (snd r) = requests w + max_retries /\
  pauses (snd r) = pauses w + (max_retries - 1).
Proof.
  intros H1 H2 H3 H4 H5 Ht r. unfold r, search_by_title.
  destruct (strip title) as [|c t]; [done|].
  by apply (search_loop_down http_search sleep quote_plus max_retries
              requests pauses H1 H2 H3 H4 H5 title max_retries 0 w).
Qed.

Lemma search_gives_up_after_max_retries_witness :
  search_by_title down_search pause (fun q => q) 3 (s "A title") (0, 0)
  = (None, (3, 2)).
Proof.
  destruct (search_gives_up_after_max_retries down_search pause
              (fun q => q) 3 requests_of pauses_of (s "A title") (0, 0))
    as (Ha & Hb & Hc); [done|done|done|done|done|done|].
  destruct (search_by_title _ _ _ _ _ _) as [r [n m]].
  unfold requests_of, pauses_of in *. simpl in Ha, Hb, Hc. by subst.
Defined.

(** X8: when the query in double quotes has no hit, the search asks again
    with the title passed through [quote_plus], and the answer to this
    second request decides: no hit again gives nothing, without a pause;
    otherwise the choice among its hits is returned after a pause. *)
Theorem search_falls_back_to_plain_query {World : Type}
    (http_search : str -> World -> option (option HitsField) * World)
    (sleep : World -> World) (quote_plus : str -> str) (max_retries : nat)
    (title : str) (w w1 w2 : World) (data1 data2 : option HitsField) :
  strip title <> [] -> 0 < max_retries ->
  http_search (["034"] ++ title ++ ["034"]) w = (Some data1, w1) ->
  falsy (extract_hit_list data1) = true ->
  http_search (quote_plus title) w1 = (Some data2, w2) ->
  search_by_title http_search sleep quote_plus max_retries title w
  = if falsy (extract_hit_list data2) then (None, w2)
    else (select_hit (extract_hit_list data2), sleep w2).
Proof.
  intros Ht Hr Hq1 Hf Hq2. unfold search_by_title.
  destruct (strip title); [done|].
  destruct max_retries as [|n]; [lia|]. cbn [seq search_loop].
  unfold search_attempt. rewrite Hq1, Hf, Hq2.
  by destruct (falsy (extract_hit_list data2)).
Qed.

Lemma search_falls_back_to_plain_query_witness :
  search_by_title (plain_only_search [mock_hit "ICML" "u"]) pause
    (fun q => q) 3 (s "A title") (0, 0)
  = (Some (mock_hit "ICML" "u"), (2, 1)).
Proof.
  rewrite (search_falls_back_to_plain_query
             (plain_only_search [mock_hit "ICML" "u"]) pause (fun q => q) 3
             (s "A title") (0, 0) (1, 0) (2, 0)
             (Some (HitsDict (Some (HitsArray []))))
             (Some (HitsDict (Some (HitsArray [mock_hit "ICML" "u"])))));
    [reflexivity|done|lia|reflexivity|reflexivity|reflexivity].
Defined.

(** X9: whatever the service answers, in a list or as a single object, a
    hit that a search returns has no venue text that mentions arXiv or
    CoRR, and the search has paused after the request that gave it. *)
Theorem search_never_returns_a_preprint {World : Type}
    (http_search : str -> World -> option (option HitsField) * World)
    (sleep : World -> World) (quote_plus : str -> str) (max_retries : nat)
    (title : str) (w w' : World) (h : Hit) :
  search_by_title http_search sleep quote_plus max_retries title w
  = (Some h, w') ->
  _is_arxiv_hit h = false /\ ~ preprint_venue h /\ exists w0, w' = sleep w0.
Proof.
  intros H.
  assert (Hh : _is_arxiv_hit h = false).
  { apply search_by_title_sound in H as (q & w0 & data & w1 & _ & Hsel).
    destruct (extract_hit_list data) as [l|h'| |]; try done.
    - rewrite select_hit_array in Hsel.
      destruct (_filter_arxiv_hits l) as [|h1 [|h2 t]] eqn:F; try done.
      simplify_eq. assert (Hin : In h (_filter_arxiv_hits l))
        by (rewrite F; by left).
      unfold _filter_arxiv_hits in Hin. apply List.filter_In in Hin as [_ Hn].
      by apply negb_true_iff in Hn.
    - simpl in Hsel. destruct (_is_arxiv_hit h') eqn:E; [done|].
      by simplify_eq. }
  split; [done|]. split.
  - rewrite <- is_arxiv_hit_iff. congruence.
  - unfold search_by_title in H. destruct (strip title); [done|].
    by eapply search_loop_paused.
Qed.

Lemma search_never_returns_a_preprint_witness :
  _is_arxiv_hit (mock_hit "ICML" "u") = false /\
  ~ preprint_venue (mock_hit "ICML" "u") /\
  exists w0, (1, 1) = pause w0.
Proof.
  apply (search_never_returns_a_preprint
           (counted_search [mock_hit "CoRR" "v"; mock_hit "ICML" "u"]) pause
           (fun q => q) 3 (s "A title") (0, 0) (1, 1) (mock_hit "ICML" "u")).
  reflexivity.
Defined.

(** X10: a retrieval sends at most [max_retries] requests, and none at all
    when the hit has no address or an empty one: it then returns nothing
    and leaves the session as it was. *)
Theorem download_requests_bounded {World : Type}
    (http_bib : str -> World -> option str * World) (max_retries : nat)
    (requests : World -> nat) (hit : Hit) (key : str) (w : World) :
  (forall u w, requests (snd (http_bib u w)) = S (requests w)) ->
  let r := download_bibtex_from_dblp http_bib max_retries hit key w in
  requests w <= requests (snd r) <= requests w + max_retries /\
  (default [] (info_url (get_info hit)) = [] -> r = (None, w)).
Proof.
  intros Hc r. unfold r, download_bibtex_from_dblp.
  destruct (default [] (info_url (get_info hit))) as [|c url].
  - simpl. split; [lia|done].
  - split; [|done].
    pose proof (download_loop_counts http_bib max_retries requests
                  ((c :: url) ++ s ".bib?param=1") key (seq 0 max_retries)
                  Hc w) as H.
    by rewrite length_seq in H.
Qed.

Lemma download_requests_bounded_witness :
  download_bibtex_from_dblp (counted_bib (s "@misc{k,")) 3
    (mkHit (Some (mkInfo None (Some [])))) (s "mine") (0, 0)
  = (None, (0, 0)) /\
  requests_of (snd (download_bibtex_from_dblp (counted_bib (s "@misc{k,")) 3
                      (mock_hit "ICML" "u") (s "mine") (0, 0))) <= 3.
Proof.
  split.
  - apply (download_requests_bounded (counted_bib (s "@misc{k,")) 3
             requests_of (mkHit (Some (mkInfo None (Some [])))) (s "mine")
             (0, 0)); done.
  - apply (download_requests_bounded (counted_bib (s "@misc{k,")) 3
             requests_of (mock_hit "ICML" "u") (s "mine") (0, 0)); done.
Defined.

(** X11: a response whose text has no record, blank or not, ends the
    retrieval at once with no result: the request is not repeated. *)
Theorem download_stops_on_unusable_content {World : Type}
    (http_bib : str -> World -> option str * World) (max_retries : nat)
    (hit : Hit) (key url body : str) (w w1 : World) :
  info_url (get_info hit) = Some url -> url <> [] -> 0 < max_retries ->
  http_bib (url ++ s ".bib?param=1") w = (Some body, w1) ->
  parse_content body = [] ->
  download_bibtex_from_dblp http_bib max_retries hit key w = (None, w1).
Proof.
  intros Hu Hne Hr Hb Hp. unfold download_bibtex_from_dblp. rewrite Hu.
  simpl. destruct url as [|c url]; [done|].
  destruct max_retries as [|n]; [lia|]. simpl in *. rewrite Hb.
  destruct (strip body); [done|]. by rewrite Hp.
Qed.

Lemma download_stops_on_unusable_content_witness :
  download_bibtex_from_dblp (counted_bib (s "<html>not found</html>")) 3
    (mock_hit "ICML" "u") (s "mine") (0, 0)
  = (None, (1, 0)).
Proof.
  apply (download_stops_on_unusable_content
           (counted_bib (s "<html>not found</html>")) 3
           (mock_hit "ICML" "u") (s "mine") (s "u")
           (s "<html>not found</html>") (0, 0) (1, 0));
    [reflexivity|done|lia|reflexivity|vm_compute; reflexivity].
Defined.

(** X12: when every request for the record raises, a retrieval from a hit
    with an address returns nothing after exactly [max_retries]
    requests. *)
Theorem download_gives_up_after_max_retries {World : Type}
    (http_bib : str -> World -> option str * World) (max_retries : nat)
    (requests : World -> nat) (hit : Hit) (key : str) (w : World) :
  (forall u w, requests (snd (http_bib u w)) = S (requests w)) ->
  (forall u w, fst (http_bib u w) = None) ->
  default [] (info_url (get_info hit)) <> [] ->
  let r := download_bibtex_from_dblp http_bib max_retries hit key w in
  fst r = None /\ requests (snd r) = requests w + max_retries.
Proof.
  intros Hc Hd Hu r. unfold r, download_bibtex_from_dblp.
  destruct (default [] (info_url (get_info hit))) as [|c url]; [done|].
  by apply (download_loop_down http_bib max_retries requests _ key
              max_retries Hc Hd 0 w).
Qed.

Lemma download_gives_up_after_max_retries_witness :
  let r := download_bibtex_from_dblp down_bib 3 (mock_hit "ICML" "u")
             (s "mine") (0, 0) in
  fst r = None /\ requests_of (snd r) = 3.
Proof.
  apply (download_gives_up_after_max_retries down_bib 3 requests_of
           (mock_hit "ICML" "u") (s "mine") (0, 0)); done.
Defined.

(** X13: the records that the loop of [main] collects carry the citation
    keys of the input records, in the same order, whether a record was
    replaced or kept. *)
Theorem main_keeps_citation_keys {World : Type}
    (http_search : str -> World -> option (option HitsField) * World)
    (http_bib : str -> World -> option str * World)
    (sleep : World -> World) (quote_plus : str -> str) (max_retries : nat)
    (entries : list BibtexEntry) (w : World) :
  map cite_key
    (fst (fst (main_loop http_search http_bib sleep quote_plus max_retries
                 entries w)))
  = map cite_key entries.
Proof.
  unfold main_loop.
  destruct (main_loop_keys http_search http_bib sleep quote_plus max_retries
              entries [] [] w) as (outs & kept & w' & -> & Hk & _).
  exact Hk.
Qed.

(** X14: the keys that the loop of [main] reports as failed are the keys
    of records that it has put into the output unchanged, in input order;
    so there are never more failures than output records. *)
Theorem main_failed_keys_are_kept_records {World : Type}
    (http_search : str -> World -> option (option HitsField) * World)
    (http_bib : str -> World -> option str * World)
    (sleep : World -> World) (quote_plus : str -> str) (max_retries : nat)
    (entries : list BibtexEntry) (w : World) :
  let st := main_loop http_search http_bib sleep quote_plus max_retries
              entries w in
  let updated_entries := fst (fst st) in
  let failed_entries := snd (fst st) in
  (exists kept, failed_entries = map cite_key kept /\
                sublist kept entries /\ sublist kept updated_entries) /\
  length failed_entries <= length updated_entries.
Proof.
  unfold main_loop.
  destruct (main_loop_keys http_search http_bib sleep quote_plus max_retries
              entries [] [] w) as (outs & kept & w' & -> & Hk & S1 & S2).
  simpl. split; [by exists kept|].
  rewrite length_map. by apply sublist_length.
Qed.

(** X15: when every search request raises, the loop of [main] keeps every
    record as it was and reports every key as failed, and the output file
    is the serialization of the parsed input. *)
Theorem main_with_search_down {World : Type}
    (http_search : str -> World -> option (option HitsField) * World)
    (http_bib : str -> World -> option str * World)
    (sleep : World -> World) (quote_plus : str -> str) (max_retries : nat)
    (content : str) (w : World) :
  (forall q w, fst (http_search q w) = None) ->
  let entries := parse_content content in
  fst (main_loop http_search http_bib sleep quote_plus max_retries entries w)
  = (entries, map cite_key entries) /\
  (entries <> [] ->
   main http_search http_bib sleep quote_plus max_retries content w
   = Some (entries, write_entries entries)).
Proof.
  intros Hd entries.
  destruct (main_loop_all_kept http_search http_bib sleep quote_plus
              max_retries entries [] [] w) as [w' Hl].
  { intros e w0 _ _. by apply search_down_none. }
  unfold main_loop. rewrite Hl. split; [done|].
  intros Hne. unfold main. fold entries.
  destruct entries as [|e0 es] eqn:E; [done|].
  unfold main_loop. by rewrite Hl.
Qed.

Lemma main_with_search_down_witness :
  let content := s "@Misc{a," ++ ["010"] ++ s "  title = {T}," ++ ["010"]
                 ++ s "  note = {n}" ++ ["010"] ++ s "}" in
  main down_search down_bib pause (fun q => q) 3 content (0, 0)
  = Some ([mkEntry (s "misc") (s "a")
             (<[s "note" := s "n"]> (<[s "title" := s "T"]> ∅))],
          s "@misc{a," ++ ["010"] ++ s "  title = {T}," ++ ["010"] ++ s "}"
          ++ ["010"; "010"]).
Proof.
  intros content.
  destruct (main_with_search_down down_search down_bib pause (fun q => q) 3
              content (0, 0)) as [_ H]; [done|].
  rewrite H; [|by vm_compute]. vm_compute. reflexivity.
Defined.

(** X16: records whose title is empty after cleaning are kept and
    reported as failed without any request or pause: the session is left
    as it was. *)
Theorem main_skips_records_without_title {World : Type}
    (http_search : str -> World -> option (option HitsField) * World)
    (http_bib : str -> World -> option str * World)
    (sleep : World -> World) (quote_plus : str -> str) (max_retries : nat)
    (entries : list BibtexEntry) (w : World) :
  Forall (fun e => get_title e = []) entries ->
  main_loop http_search http_bib sleep quote_plus max_retries entries w
  = (entries, map cite_key entries, w).
Proof.
  intros H. unfold main_loop.
  by rewrite (main_loop_untitled http_search http_bib sleep quote_plus
                max_retries entries [] [] w H).
Qed.

Lemma main_skips_records_without_title_witness :
  let entries := [BibtexEntry_init (s "misc") (s "a") ∅;
                  BibtexEntry_init (s "misc") (s "b")
                    (<[s "title" := s " {} "]> ∅)] in
  main_loop (counted_search [mock_hit "ICML" "u"]) (counted_bib []) pause
    (fun q => q) 3 entries (0, 0)
  = (entries, [s "a"; s "b"], (0, 0)).
Proof.
  intros entries.
  apply (main_skips_records_without_title
           (counted_search [mock_hit "ICML" "u"]) (counted_bib []) pause
           (fun q => q) 3 entries (0, 0)).
  repeat constructor.
Defined.

Section Pipeline.

Context {World : Type}.
Variable http_search : str -> World -> option (option HitsField) * World.
Variable http_bib : str -> World -> option str * World.
Variable sleep : World -> World.
Variable quote_plus : str -> str.
Variable max_retries : nat.
Variable requests : World -> nat.
Hypothesis search_counts :
  forall q w, requests (snd (http_search q w)) = S (requests w).
Hypothesis bib_counts :
  forall u w, requests (snd (http_bib u w)) = S (requests w).
Hypothesis sleep_no_request : forall w, requests (sleep w) = requests w.

Lemma search_by_title_requests title w :
  requests (snd (search_by_title http_search sleep quote_plus max_retries
                   title w))
  <= requests w + 2 * max_retries.
Proof using search_counts sleep_no_request.
  unfold search_by_title. destruct (strip title) as [|c0 t0]; [simpl; lia|].
  assert (Hl : forall attempts w,
    requests (snd (search_loop http_search sleep quote_plus max_retries
                     title attempts w))
    <= requests w + 2 * length attempts).
  { induction attempts as [|a rest IH]; intros w0;
      cbn [search_loop length]; [simpl; lia|].
    assert (Ha : requests (snd (search_attempt http_search sleep quote_plus
                                  title w0)) <= requests w0 + 2).
    { unfold search_attempt.
      pose proof (search_counts (["034"] ++ title ++ ["034"]) w0) as R1.
      destruct (http_search _ w0) as [[data|] w1]; simpl in *; [|lia].
      destruct (falsy (extract_hit_list data)) eqn:F1.
      - pose proof (search_counts (quote_plus title) w1) as R2.
        destruct (http_search (quote_plus title) w1) as [[data2|] w2];
          simpl in *; [|lia].
        destruct (falsy (extract_hit_list data2)); simpl; [lia|].
        rewrite sleep_no_request. lia.
      - rewrite F1. simpl. rewrite sleep_no_request. lia. }
    destruct (search_attempt _ _ _ title w0) as [[res|] w1]; simpl in *;
      [lia|].
    destruct (Nat.ltb _ _); [|simpl; lia].
    specialize (IH (sleep w1)). rewrite sleep_no_request in IH. lia. }
  specialize (Hl (seq 0 max_retries) w). by rewrite length_seq in Hl.
Qed.

Lemma download_requests hit key w :
  requests (snd (download_bibtex_from_dblp http_bib max_retries hit key w))
  <= requests w + max_retries.
Proof using bib_counts.
  unfold download_bibtex_from_dblp.
  destruct (default [] (info_url (get_info hit))) as [|c url]; [simpl; lia|].
  pose proof (download_loop_counts http_bib max_retries requests
                ((c :: url) ++ s ".bib?param=1") key (seq 0 max_retries)
                bib_counts w) as H.
  rewrite length_seq in H. lia.
Qed.

Lemma main_step_requests upd failed w entry :
  requests (snd (main_step http_search http_bib sleep quote_plus max_retries
                   (upd, failed, w) entry))
  <= requests w + 3 * max_retries.
Proof using search_counts bib_counts sleep_no_request.
  unfold main_step. destruct (get_title entry) as [|a t]; [simpl; lia|].
  pose proof (search_by_title_requests (a :: t) w) as Hs.
  destruct (search_by_title _ _ _ _ _ w) as [[hit|] w1]; simpl in *; [|lia].
  pose proof (download_requests hit (cite_key entry) w1) as Hd.
  destruct (download_bibtex_from_dblp _ _ hit _ w1) as [[e|] w2];
    simpl in *; lia.
Qed.

Lemma main_fold_requests entries : forall upd failed w,
  requests (snd (fold_left
                   (main_step http_search http_bib sleep quote_plus
                      max_retries) entries (upd, failed, w)))
  <= requests w + 3 * max_retries * length entries.
Proof using search_counts bib_counts sleep_no_request.
  induction entries as [|entry entries IH]; intros upd failed w;
    cbn [fold_left length]; [simpl; lia|].
  pose proof (main_step_requests upd failed w entry) as Hs.
  destruct (main_step _ _ _ _ _ (upd, failed, w) entry)
    as [[upd1 failed1] w1]. simpl in Hs.
  specialize (IH upd1 failed1 w1). nia.
Qed.

End Pipeline.

(** X26: the loop of [main] sends at most three requests per allowed
    attempt and record: two for the search and one for the retrieval. *)
Theorem main_requests_bounded {World : Type}
    (http_search : str -> World -> option (option HitsField) * World)
    (http_bib : str -> World -> option str * World)
    (sleep : World -> World) (quote_plus : str -> str) (max_retries : nat)
    (requests : World -> nat) (entries : list BibtexEntry) (w : World) :
  (forall q w, requests (snd (http_search q w)) = S (requests w)) ->
  (forall u w, requests (snd (http_bib u w)) = S (requests w)) ->
  (forall w, requests (sleep w) = requests w) ->
  requests (snd (main_loop http_search http_bib sleep quote_plus max_retries
                   entries w))
  <= requests w + 3 * max_retries * length entries.
Proof.
  intros H1 H2 H3. unfold main_loop. by apply main_fold_requests.
Qed.

Lemma main_requests_bounded_witness :
  requests_of
    (snd (main_loop (counted_search [mock_hit "ICML" "u"])
            (counted_bib (s "@misc{k," ++ ["010"] ++ s "}")) pause
            (fun q => q) 3
            [BibtexEntry_init (s "misc") (s "a") (<[s "title" := s "T"]> ∅);
             BibtexEntry_init (s "misc") (s "b") (<[s "title" := s "U"]> ∅)]
            (0, 0)))
  <= 18.
Proof.
  apply (main_requests_bounded (counted_search [mock_hit "ICML" "u"])
           (counted_bib (s "@misc{k," ++ ["010"] ++ s "}")) pause
           (fun q => q) 3 requests_of
           [BibtexEntry_init (s "misc") (s "a") (<[s "title" := s "T"]> ∅);
            BibtexEntry_init (s "misc") (s "b") (<[s "title" := s "U"]> ∅)]
           (0, 0)); done.
Defined.

Lemma search_loop_retries {World : Type}
    (http_search : str -> World -> option (option HitsField) * World)
    (sleep : World -> World) (quote_plus : str -> str) (max_retries : nat)
    (title : str) (r : option Hit) n : forall a m (w w1 w2 : World),
  a + m = max_retries -> n < m ->
  after_failed_searches http_search sleep quote_plus title n w = Some w1 ->
  search_attempt http_search sleep quote_plus title w1 = (Some r, w2) ->
  search_loop http_search sleep quote_plus max_retries title (seq a m) w
  = (r, w2).
Proof.
  induction n as [|n IH]; intros a m w w1 w2 Ham Hn Hf Hs;
    (destruct m as [|m]; [lia|]); cbn [seq search_loop].
  - simpl in Hf. simplify_eq. by rewrite Hs.
  - cbn [after_failed_searches] in Hf.
    destruct (search_attempt _ _ _ title w) as [[res|] w0]; [done|].
    destruct (Nat.ltb_spec (a + 1) max_retries) as [_|?]; [|lia].
    apply (IH (S a) m (sleep w0) w1 w2); [lia|lia|done|done].
Qed.

(** X27: a search retries after an attempt that raised: when the first
    [n] attempts raise, with [n] below [max_retries], the next attempt
    decides the result, and the search has paused after each of the
    attempts that raised. *)
Theorem search_retries_until_an_attempt_succeeds {World : Type}
    (http_search : str -> World -> option (option HitsField) * World)
    (sleep : World -> World) (quote_plus : str -> str) (max_retries : nat)
    (title : str) (n : nat) (w w1 w2 : World) (r : option Hit) :
  strip title <> [] -> n < max_retries ->
  after_failed_searches http_search sleep quote_plus title n w = Some w1 ->
  search_attempt http_search sleep quote_plus title w1 = (Some r, w2) ->
  search_by_title http_search sleep quote_plus max_retries title w = (r, w2).
Proof.
  intros Ht Hn Hf Hs. unfold search_by_title.
  destruct (strip title); [done|].
  by apply (search_loop_retries http_search sleep quote_plus max_retries
              title r n 0 max_retries w w1 w2).
Qed.

Lemma search_retries_until_an_attempt_succeeds_witness :
  search_by_title (flaky_search 2 [mock_hit "ICML" "u"]) pause (fun q => q) 3
    (s "A title") (0, 0)
  = (Some (mock_hit "ICML" "u"), (3, 3)).
Proof.
  apply (search_retries_until_an_attempt_succeeds
           (flaky_search 2 [mock_hit "ICML" "u"]) pause (fun q => q) 3
           (s "A title") 2 (0, 0) (2, 2) (3, 3));
    [done|lia|reflexivity|reflexivity].
Defined.

Lemma download_loop_retries {World : Type}
    (http_bib : str -> World -> option str * World) (max_retries : nat)
    (bib_url key body : str) first rest n : forall a m (w w1 w2 : World),
  a + m = max_retries -> n < m ->
  after_failed_downloads http_bib bib_url n w = Some w1 ->
  http_bib bib_url w1 = (Some body, w2) ->
  parse_content body = first :: rest ->
  download_loop http_bib max_retries bib_url key (seq a m) w
  = (Some (set_cite_key first key), w2).
Proof.
  induction n as [|n IH]; intros a m w w1 w2 Ham Hn Hf Hb Hp;
    (destruct m as [|m]; [lia|]); cbn [seq download_loop].
  - simpl in Hf. simplify_eq. rewrite Hb.
    destruct (strip body) eqn:Hs; [|by rewrite Hp].
    apply parse_content_blank in Hs. congruence.
  - cbn [after_failed_downloads] in Hf.
    destruct (http_bib bib_url w) as [[b0|] w0]; [done|].
    destruct (Nat.ltb_spec (a + 1) max_retries) as [_|?]; [|lia].
    apply (IH (S a) m w0 w1 w2); [lia|lia|done|done|done].
Qed.

(** X28: a retrieval repeats a request that raised: when the first [n]
    requests raise, with [n] below [max_retries], and the next one brings
    a text with a record, the first record of that text is returned under
    the given key. *)
Theorem download_retries_until_a_response {World : Type}
    (http_bib : str -> World -> option str * World) (max_retries : nat)
    (hit : Hit) (key url body : str) (n : nat) (w w1 w2 : World)
    (first : BibtexEntry) (rest : list BibtexEntry) :
  info_url (get_info hit) = Some url -> url <> [] -> n < max_retries ->
  after_failed_downloads http_bib (url ++ s ".bib?param=1") n w = Some w1 ->
  http_bib (url ++ s ".bib?param=1") w1 = (Some body, w2) ->
  parse_content body = first :: rest ->
  download_bibtex_from_dblp http_bib max_retries hit key w
  = (Some (set_cite_key first key), w2).
Proof.
  intros Hu Hne Hn Hf Hb Hp. unfold download_bibtex_from_dblp. rewrite Hu.
  cbn [default]. destruct url as [|c0 url]; [done|].
  by apply (download_loop_retries http_bib max_retries _ key body first rest
              n 0 max_retries w w1 w2).
Qed.

Lemma download_retries_until_a_response_witness :
  download_bibtex_from_dblp
    (flaky_bib 2 (s "@Misc{k," ++ ["010"] ++ s "  year = 2020" ++ ["010"]
                  ++ s "}"))
    3 (mock_hit "ICML" "u") (s "mine") (0, 0)
  = (Some (mkEntry (s "misc") (s "mine") (<[s "year" := s "2020"]> ∅)),
     (3, 0)).
Proof.
  rewrite (download_retries_until_a_response
           (flaky_bib 2 (s "@Misc{k," ++ ["010"] ++ s "  year = 2020"
                         ++ ["010"] ++ s "}"))
           3 (mock_hit "ICML" "u") (s "mine") (s "u")
           (s "@Misc{k," ++ ["010"] ++ s "  year = 2020" ++ ["010"] ++ s "}")
           2 (0, 0) (2, 0) (3, 0)
           (mkEntry (s "misc") (s "k") (<[s "year" := s "2020"]> ∅)) []);
    [reflexivity|reflexivity|done|lia|reflexivity|reflexivity
    |vm_compute; reflexivity].
Defined.

(** ** Titles, book titles, braces and values: proofs *)

Lemma filter_nil_forallb (p : ascii -> bool) x :
  List.filter p x = [] <-> forallb (fun a => negb (p a)) x = true.
Proof.
  induction x as [|a x IH]; simpl; [done|].
  destruct (p a); simpl; [split; done|exact IH].
Qed.

Lemma forallb_eq (p q : ascii -> bool) x :
  (forall a, p a = q a) -> forallb p x = forallb q x.
Proof. intros H. induction x as [|a x IH]; simpl; [done|]. by rewrite H, IH. Qed.

Lemma get_title_filter e :
  List.filter not_space (get_title e)
  = List.filter (fun a => (not_space a && not_brace a)%bool) (title_of e).
Proof.
  rewrite get_title_eq, filter_not_space_strip. unfold collapse_spaces.
  rewrite filter_not_space_collapse, filter_not_space_remove_braces.
  destruct (strip_decomp (title_of e)) as (w1 & w2 & Hx & H1 & H2).
  assert (Hw : forall w, forallb is_space w = true ->
    List.filter (fun a => (not_space a && not_brace a)%bool) w = []).
  { induction w as [|c w IH]; simpl; [done|].
    intros [Hc Hw]%andb_true_iff. unfold not_space at 1. rewrite Hc.
    simpl. by apply IH. }
  transitivity (List.filter (fun a => (not_space a && not_brace a)%bool)
                  (w1 ++ strip (title_of e) ++ w2)); [|by rewrite <- Hx].
  by rewrite !List.filter_app, (Hw w1 H1), (Hw w2 H2), app_nil_r.
Qed.

(** X17: the cleaned title is empty exactly when the title field is
    missing or consists of whitespace and braces only. *)
Theorem get_title_empty_iff (e : BibtexEntry) :
  get_title e = [] <-> forallb blank_or_brace (title_of e) = true.
Proof.
  assert (Hb : forallb blank_or_brace (title_of e) = true <->
               List.filter not_space (get_title e) = []).
  { rewrite get_title_filter, filter_nil_forallb.
    assert (He : forall a, blank_or_brace a
                 = negb (not_space a && not_brace a)%bool).
    { intros a. unfold blank_or_brace, not_space, not_brace.
      by destruct (is_space a), (is_brace a). }
    by rewrite (forallb_eq _ _ _ He). }
  rewrite Hb. split; [by intros ->|].
  intros H. pose proof (strip_stops_l
    (collapse_spaces (remove_braces (strip (title_of e))))) as Hs.
  rewrite <- get_title_eq in Hs.
  destruct (get_title e) as [|a t]; [done|]. simpl in Hs, H.
  unfold not_space at 1 in H. by rewrite Hs in H.
Qed.

Lemma get_title_empty_iff_witness :
  get_title (BibtexEntry_init (s "misc") (s "k")
               (<[s "title" := s " { } "]> ∅)) = [].
Proof.
  apply (get_title_empty_iff (BibtexEntry_init (s "misc") (s "k")
                                (<[s "title" := s " { } "]> ∅))).
  reflexivity.
Defined.

Lemma filter_forallb_id (p : ascii -> bool) x :
  forallb p x = true -> List.filter p x = x.
Proof.
  induction x as [|a x IH]; simpl; [done|].
  intros [-> Hx]%andb_true_iff. by rewrite IH.
Qed.

(** X18: a cleaned title is in normal form: a record whose title is the
    cleaned title of another record has that same cleaned title. *)
Theorem get_title_idempotent (e e' : BibtexEntry) :
  fields e' !! s "title" = Some (get_title e) -> get_title e' = get_title e.
Proof.
  intros Hf. rewrite (get_title_eq e'). unfold title_of. rewrite Hf.
  change (default [] (Some (get_title e))) with (get_title e).
  set (t := get_title e).
  assert (Hs : strip t = t) by (unfold t; rewrite get_title_eq; apply strip_strip).
  assert (Hb : remove_braces t = t).
  { apply filter_forallb_id. unfold t. rewrite get_title_eq.
    apply forallb_strip, forallb_collapse_from; [done|].
    apply forallb_filter_self. }
  assert (Hc : collapse_spaces t = t).
  { apply collapse_from_fixed. unfold t. rewrite get_title_eq.
    apply no_runs_strip, collapse_from_no_runs. }
  by rewrite Hs, Hb, Hc, Hs.
Qed.

Lemma get_title_idempotent_witness :
  let e := BibtexEntry_init (s "misc") (s "k")
             (<[s "title" := s " {D}eep   {L}earning "]> ∅) in
  let e' := BibtexEntry_init (s "misc") (s "k")
              (<[s "title" := s "Deep Learning"]> ∅) in
  get_title e' = get_title e.
Proof.
  intros e e'. apply (get_title_idempotent e e'). reflexivity.
Defined.

Lemma present_default e k :
  present e k = match default [] (fields e !! k) with
                | [] => false
                | _ :: _ => true
                end.
Proof. unfold present. by destruct (fields e !! k) as [[|a v]|]. Qed.

(** X19: the serialization depends only on the kind, the key and the
    values of the eight allow-listed fields, where an empty value counts
    as a missing one: two records that agree on these have the same
    text. *)
Theorem to_bibtex_depends_on_allow_listed (e1 e2 : BibtexEntry) :
  entry_type e1 = entry_type e2 -> cite_key e1 = cite_key e2 ->
  (forall k, In k essential_fields ->
             default [] (fields e1 !! k) = default [] (fields e2 !! k)) ->
  to_bibtex e1 = to_bibtex e2.
Proof.
  intros Ht Hk Hf. unfold to_bibtex. rewrite !to_bibtex_lines_eq.
  unfold header_line. rewrite Ht, Hk. do 3 f_equal.
  assert (He : emitted_fields e1 = emitted_fields e2).
  { unfold emitted_fields. apply List.filter_ext_in. intros k Hin.
    by rewrite !present_default, Hf. }
  rewrite He. apply map_ext_in. intros k Hin%List.filter_In.
  unfold field_line. rewrite Hf; [done|]. apply Hin.
Qed.

Lemma to_bibtex_depends_on_allow_listed_witness :
  to_bibtex (BibtexEntry_init (s "misc") (s "k")
               (<[s "title" := s "T"]>
                  (<[s "year" := []]> (<[s "url" := s "http://x"]> ∅))))
  = to_bibtex (BibtexEntry_init (s "misc") (s "k")
                 (<[s "title" := s "T"]> ∅)).
Proof.
  apply to_bibtex_depends_on_allow_listed; [reflexivity|reflexivity|].
  intros k Hk. unfold essential_fields in Hk. simpl in Hk.
  repeat (destruct Hk as [<-|Hk]; [reflexivity|]). done.
Defined.

(** The scan against the counting of braces. *)
Lemma brace_balance_cons a y :
  brace_balance (a :: y) = (brace_balance [a] + brace_balance y)%Z.
Proof. apply (brace_balance_app [a] y). Qed.

Lemma brace_balance_nil : brace_balance [] = 0%Z.
Proof. reflexivity. Qed.

Lemma scan_brace_balance y : forall d d',
  (0 <= d)%Z -> scan d y = Some d' ->
  d' = (d + brace_balance y)%Z /\
  forall n, (0 <= d + brace_balance (take n y))%Z.
Proof.
  induction y as [|a y IH]; intros d d' Hd; cbn [scan].
  - intros [= <-]. rewrite brace_balance_nil. split; [lia|].
    intros n. rewrite take_nil, brace_balance_nil. lia.
  - rewrite brace_balance_cons, brace_balance_single. intros H.
    assert (Hn : forall e, (0 <= e)%Z ->
      (forall n, 0 <= e + brace_balance (take n y))%Z ->
      e = (d + brace_balance [a])%Z ->
      forall n, (0 <= d + brace_balance (take n (a :: y)))%Z).
    { intros e He Hp -> [|n]; cbn [take].
      - rewrite brace_balance_nil. lia.
      - rewrite brace_balance_cons. specialize (Hp n). lia. }
    rewrite brace_balance_single in Hn.
    destruct (eqc a "{"); [|destruct (eqc a "}");
      [destruct (Z.ltb_spec 0 d); [|done]|]].
    + apply IH in H as [-> Hp]; [|lia]. split; [lia|].
      by apply (Hn (d + 1)%Z); [lia| |].
    + apply IH in H as [-> Hp]; [|lia]. split; [lia|].
      apply (Hn (d - 1)%Z); [lia|done|lia].
    + apply IH in H as [-> Hp]; [|lia]. split; [lia|].
      apply (Hn d); [lia|done|lia].
Qed.

Lemma balanced_scan y : forall d,
  (forall n, (0 <= d + brace_balance (take n y))%Z) ->
  scan d y = Some (d + brace_balance y)%Z.
Proof.
  induction y as [|a y IH]; intros d Hp; cbn [scan].
  - f_equal. rewrite brace_balance_nil. lia.
  - rewrite brace_balance_cons.
    pose proof (Hp 1) as H1. cbn [take] in H1. rewrite take_0 in H1.
    assert (Hn : forall n,
      (0 <= (d + brace_balance [a]) + brace_balance (take n y))%Z).
    { intros n. specialize (Hp (S n)). cbn [take] in Hp.
      rewrite brace_balance_cons in Hp. lia. }
    rewrite brace_balance_single in *.
    destruct (eqc a "{"); [|destruct (eqc a "}");
      [destruct (Z.ltb_spec 0 d); [|lia]|]].
    + rewrite IH; [f_equal; lia|done].
    + rewrite IH; [f_equal; lia|]. intros n. specialize (Hn n). lia.
    + rewrite IH; [f_equal; lia|]. intros n. specialize (Hn n). lia.
Qed.

Lemma find_first a x y :
  has_char a x = false -> find a (x ++ a :: y) = Z.of_nat (length x).
Proof.
  induction x as [|b x IH]; simpl.
  - by rewrite eqc_refl.
  - intros [-> Hx]%orb_false_elim. rewrite (IH Hx).
    destruct (Z.eqb_spec (Z.of_nat (length x)) (-1)); lia.
Qed.

Lemma clean_booktitle_scan v : scan 0 (clean_booktitle v) = Some 0%Z.
Proof.
  unfold clean_booktitle. rewrite sub_spaces, scan_strip.
  unfold collapse_spaces. rewrite scan_collapse_from.
  apply scan_balance_braces.
Qed.

(** X20: the book title is written in braces around its cleaned form,
    which has no comma and no line feed, no whitespace at its ends and
    single spaces inside, and balanced braces; cleaning it again changes
    nothing. *)
Theorem emitted_booktitle_is_clean (value : str) :
  let b := clean_booktitle value in
  format_value (s "booktitle") value = s "{" ++ b ++ s "}" /\
  has_char "," b = false /\ has_char "010" b = false /\
  strip b = b /\ no_runs b = true /\
  brace_balance b = 0%Z /\ prefixes_nonneg b /\
  clean_booktitle b = b.
Proof.
  intros b. split; [reflexivity|]. split; [apply clean_booktitle_no_comma|].
  split.
  { apply has_char_forallb.
    pose proof (no_runs_dot b (clean_booktitle_no_runs value)) as H.
    eapply forallb_weaken; [|exact H]. intros a. unfold dot_char.
    by rewrite eqc_sym. }
  split; [unfold b, clean_booktitle; apply strip_strip|].
  split; [apply clean_booktitle_no_runs|].
  destruct (scan_brace_balance b 0 0 ltac:(lia) (clean_booktitle_scan value))
    as [H0 Hp].
  split; [lia|]. split; [|apply clean_booktitle_idem].
  intros n. specialize (Hp n). lia.
Qed.

(** X21: everything from the first comma of a book title on is dropped:
    the cleaned form is that of the text before the first comma. *)
Theorem booktitle_cut_at_first_comma (x y : str) :
  has_char "," x = false ->
  clean_booktitle (x ++ "," :: y) = clean_booktitle x.
Proof.
  intros Hx. unfold clean_booktitle.
  rewrite (find_first "," x y Hx).
  pose proof (proj2 (find_none "," x) Hx) as ->.
  destruct (Z.eqb_spec (Z.of_nat (length x)) (-1)) as [?|_]; [lia|].
  cbn [negb]. rewrite Nat2Z.id, take_app_length.
  assert (Hb : _balance_braces (strip x) = _balance_braces x).
  { unfold _balance_braces. by rewrite strip_strip. }
  by rewrite Hb.
Qed.

Lemma booktitle_cut_at_first_comma_witness :
  clean_booktitle (s "Proc. of the {ICML " ++ "," :: s " Vienna, Austria")
  = s "Proc. of the {ICML}".
Proof.
  rewrite (booktitle_cut_at_first_comma (s "Proc. of the {ICML ")
             (s " Vienna, Austria")); [|reflexivity].
  vm_compute. reflexivity.
Defined.

Lemma balance_step_filter r d a :
  List.filter not_close (fst (balance_step (r, d) a))
  = List.filter not_close r ++ List.filter not_close [a].
Proof.
  unfold balance_step.
  destruct (eqc a "{"); [|destruct (eqc a "}") eqn:E2;
    [destruct (0 <? d)%Z|]]; cbn [fst]; try apply List.filter_app.
  cbn [List.filter]. unfold not_close. rewrite E2. cbn [negb].
  by rewrite app_nil_r.
Qed.

Lemma balance_fold_filter text : forall r d,
  List.filter not_close (fst (fold_left balance_step text (r, d)))
  = List.filter not_close r ++ List.filter not_close text.
Proof.
  induction text as [|a text IH]; intros r d; cbn [fold_left].
  - by rewrite app_nil_r.
  - pose proof (balance_step_filter r d a) as Hs.
    destruct (balance_step (r, d) a) as [r' d']. cbn [fst] in Hs.
    rewrite IH, Hs, <- app_assoc. f_equal.
    symmetry. apply (List.filter_app not_close [a] text).
Qed.

Lemma filter_not_close_repeat n : List.filter not_close (repeat "}" n) = [].
Proof. induction n as [|n IH]; [done|]. simpl. exact IH. Qed.

(** X22: [_balance_braces] keeps every character of the trimmed text other
    than the closing brace, in order: it only removes or appends closing
    braces. *)
Theorem balance_braces_keeps_other_characters (text : str) :
  List.filter not_close (_balance_braces text)
  = List.filter not_close (strip text).
Proof.
  unfold _balance_braces.
  pose proof (balance_fold_filter (strip text) [] 0%Z) as H.
  destruct (fold_left balance_step (strip text) ([], 0%Z)) as [res cnt].
  simpl in H. destruct (0 <? cnt)%Z; [|done].
  by rewrite List.filter_app, filter_not_close_repeat, app_nil_r.
Qed.

(** X23: a text without whitespace at its ends whose braces are balanced
    is returned as it is. *)
Theorem balance_braces_identity_on_balanced (text : str) :
  strip text = text -> brace_balance text = 0%Z -> prefixes_nonneg text ->
  _balance_braces text = text.
Proof.
  intros Hs Hb Hp. apply balance_braces_fixed; [done|].
  rewrite (balanced_scan text 0); [by rewrite Hb|].
  intros n. specialize (Hp n). lia.
Qed.

Lemma balance_braces_identity_on_balanced_witness :
  _balance_braces (s "Proc. {ICML} {{20}24}") = s "Proc. {ICML} {{20}24}".
Proof.
  apply balance_braces_identity_on_balanced; [reflexivity|reflexivity|].
  intros n. do 22 (destruct n as [|n]; [by vm_compute|]). by vm_compute.
Defined.

Lemma sublist_drop_comma v : sublist (drop_comma v) v.
Proof.
  destruct v as [|a v] using rev_ind; [done|].
  rewrite drop_comma_snoc. destruct (eqc a ","); [|done].
  by apply sublist_inserts_r.
Qed.

Lemma sublist_unwrap opening closing v : sublist (unwrap opening closing v) v.
Proof.
  destruct (unwrap_cases opening closing v)
    as [->|(a & m & b & rest & -> & _ & _ & _ & _ & ->)]; [done|].
  apply sublist_cons, sublist_app; [done|]. by apply sublist_cons.
Qed.

Lemma sublist_strip x : sublist (strip x) x.
Proof.
  destruct (strip_decomp x) as (w1 & w2 & Hx & _). rewrite Hx at 2.
  by apply sublist_inserts_l, sublist_inserts_r.
Qed.

(** X24: cleaning a captured value only deletes characters: the result is
    the value with some characters left out, none changed, added or
    moved. *)
Theorem clean_value_only_deletes (raw : str) :
  sublist (clean_value raw) raw.
Proof.
  rewrite clean_value_eq. unfold unwrap_braces, unwrap_quotes.
  etransitivity; [apply sublist_unwrap|].
  etransitivity; [apply sublist_unwrap|].
  etransitivity; [apply sublist_drop_comma|apply sublist_strip].
Qed.

(** X29: an emitted value is written bare only for the fields year, pages,
    volume and number, and only when it has no space, hyphen, colon, slash
    or full stop; every other emitted value is enclosed in one pair of
    braces: the value itself, or for the book title its cleaned form. *)
Theorem emitted_value_is_braced_or_simple (k v : str) :
  In k essential_fields ->
  (format_value k v
   = s "{" ++ (if str_eqb k (s "booktitle") then clean_booktitle v else v)
     ++ s "}") \/
  (format_value k v = v /\
   In k [s "year"; s "pages"; s "volume"; s "number"] /\
   forallb (fun a => negb (existsb (eqc a) [" "; "-"; ":"; "/"; "."])) v
   = true).
Proof.
  intros Hk. destruct (essential_fields_cases k Hk) as [Ht|[->|Ho]].
  - left. rewrite format_value_title_like by done.
    by destruct Ht as [<-|[<-|[<-|[]]]].
  - by left.
  - rewrite format_value_other by done.
    assert (Hb : str_eqb k (s "booktitle") = false)
      by (by destruct Ho as [<-|[<-|[<-|[<-|[]]]]]).
    rewrite Hb. destruct (needs_braces v) eqn:En; [by left|].
    right. split; [done|]. split; [done|].
    unfold needs_braces in En. cbn [existsb] in En.
    repeat (apply orb_false_elim in En as [? En]).
    repeat match goal with
    | H : has_char _ v = false |- _ => apply has_char_forallb in H
    end.
    clear En Hb Ho Hk.
    induction v as [|a v IH]; [done|]. cbn [forallb existsb] in *.
    repeat match goal with
    | H : (_ && _)%bool = true |- _ => apply andb_true_iff in H as [? ?]
    end.
    rewrite IH by done. rewrite andb_true_r.
    rewrite (eqc_sym a " "), (eqc_sym a "-"), (eqc_sym a ":"),
      (eqc_sym a "/"), (eqc_sym a ".").
    repeat match goal with
    | H : negb (eqc ?x a) = true |- _ =>
        apply negb_true_iff in H; rewrite H
    end.
    done.
Qed.

Lemma emitted_value_is_braced_or_simple_witness :
  format_value (s "pages") (s "97--111") = s "{97--111}" /\
  format_value (s "year") (s "2020") = s "2020".
Proof.
  split.
  - destruct (emitted_value_is_braced_or_simple (s "pages") (s "97--111"))
      as [H|[H _]]; [unfold essential_fields; simpl; tauto|exact H|].
    by vm_compute in H.
  - destruct (emitted_value_is_braced_or_simple (s "year") (s "2020"))
      as [H|[H _]]; [unfold essential_fields; simpl; tauto| |exact H].
    by vm_compute in H.
Defined.
